(** * City Pulse: the review store ([utils/reviews.py]) and its write path
      ([app.py], Reviews tab)

    A shallow embedding of the SQLite-backed review store.  The database file
    [reviews.db] is the state; every Python function of [utils/reviews.py]
    becomes a computation in a state-and-exception monad over that state.
    The SQL statements are modelled by their SQLite meaning:

    - [CREATE TABLE IF NOT EXISTS] creates the empty table or does nothing;
    - [INTEGER PRIMARY KEY AUTOINCREMENT] takes the next rowid above both the
      [sqlite_sequence] counter and every rowid of the table, and fails with
      "database or disk is full" once the largest 64-bit rowid was used;
    - an integer is bound to a [?] as a 64-bit integer with a sign: for a
      Python integer outside that range the [execute] call raises
      OverflowError before the statement runs;
    - [DEFAULT CURRENT_TIMESTAMP] stamps the row with the clock of the insert
      in whole seconds (the text 'YYYY-MM-DD HH:MM:SS' compares like the
      number of seconds it denotes, so a timestamp is an integer here);
    - [WHERE city = ?] compares text with the BINARY collation, that is,
      string equality;
    - the table is scanned in rowid order and SQLite's sorter is a merge sort
      that keeps scan order among equal keys: [ORDER BY .. DESC] is a stable
      descending sort of the scan.

    Python's integers are unbounded ([Z]).  A float is the rational that the
    double denotes ([Q]): the true division of two integers is the double
    nearest to the quotient (IEEE 754 binary64, ties to even), and raises
    OverflowError when that is too large for a double.

    Strings and byte strings are taken to be shorter than SQLite's limit on
    the length of a text or blob (10^9 bytes unless configured otherwise),
    so that binding them never fails.  The imaging library (Pillow) and
    Streamlit are not part of the repository: they are interfaces here,
    Pillow with what its documentation says of the size and the mode of an
    image. *)

From Stdlib Require Import ZArith QArith Qround Qpower Qabs Lqa Strings.Byte.
From stdpp Require Import base option list sorting gmap strings pretty.

Local Open Scope Z_scope.

(** ** Python exceptions and the store monad *)

Module Py.

Inductive exn : Type :=
| OperationalError_no_such_table
| OperationalError_database_full
| OverflowError
| KeyError (k : Z)
| ZeroDivisionError.

(** The integer nearest to [x], the even one of the two when [x] lies
    halfway. *)
Definition round_half_even (x : Q) : Z :=
  let f := Qfloor x in
  match (x - inject_Z f ?= 1 # 2)%Q with
  | Lt => f
  | Gt => f + 1
  | Eq => if Z.even f then f else f + 1
  end.

(** The exponent [e] with [2^e <= x < 2^(e+1)], for [x > 0]. *)
Definition binade (x : Q) : Z :=
  let e := Z.log2 (Qnum x) - Z.log2 (Zpos (Qden x)) in
  if Qle_bool (2 ^ e) x then e else e - 1.

(** The value of the float (IEEE 754 binary64) nearest to [x], ties to the
    even mantissa: 53 bits of mantissa above [2^-1022], multiples of
    [2^-1074] below.  A float is given by the rational it denotes. *)
Definition round_double (x : Q) : Q :=
  if Qeq_bool x 0 then 0%Q
  else
    let q := Z.max (binade (Qabs x) - 52) (-1074) in
    (inject_Z (round_half_even (x / 2 ^ q)) * 2 ^ q)%Q.

(** [a / b] on Python integers: the float nearest to the quotient;
    "integer division result too large for a float" when there is none. *)
Definition truediv (a b : Z) : exn + Q :=
  if decide (b = 0) then inl ZeroDivisionError
  else
    let v := round_double (inject_Z a / inject_Z b) in
    if Qle_bool (2 ^ 1024) (Qabs v) then inl OverflowError else inr v.

(** [d[k]] on a dict with integer keys. *)
Definition getitem (d : gmap Z Z) (k : Z) : exn + Z :=
  match d !! k with
  | Some v => inr v
  | None => inl (KeyError k)
  end.

(** [sum(d.values())] *)
Definition sum_values (d : gmap Z Z) : Z :=
  map_fold (λ _ v acc, acc + v) 0 d.

(** [True] and [False] are the integers 1 and 0. *)
Definition int_of_bool (b : bool) : Z := if b then 1 else 0.

End Py.

(** ** The table [reviews] of [reviews.db] *)

Module Sqlite.

Abbreviation bytes := (list byte).

Record review_row : Type := Row {
  id : Z;
  city : string;
  rating : Z;
  title : string;
  review_text : string;
  photo_data : option bytes;
  photo_filename : option string;
  created_at : Z
}.

(** The rows in rowid order, and the counter that [sqlite_sequence] keeps
    for an AUTOINCREMENT key. *)
Record table : Type := Table {
  rows : list review_row;
  seq : Z
}.

(** [None]: the file has no table [reviews] (yet). *)
Definition database : Type := option table.

Definition rows_of (d : database) : list review_row :=
  from_option rows [] d.

Definition seq_of (d : database) : Z :=
  from_option seq 0 d.

Definition M (A : Type) : Type := database → (Py.exn + A) * database.

#[export] Instance M_ret : MRet M := λ A x d, (inr x, d).

#[export] Instance M_bind : MBind M := λ A B f m d,
  match m d with
  | (inl e, d') => (inl e, d')
  | (inr x, d') => f x d'
  end.

(** A pure Python expression that may raise. *)
Definition lift {A} (r : Py.exn + A) : M A := λ d, (r, d).

Definition MAX_ROWID : Z := 2 ^ 63 - 1.

(** The integers that SQLite stores, 64 bits with a sign.  Binding another
    Python int to a statement raises "Python int too large to convert to
    SQLite INTEGER" before the statement runs. *)
Definition fits_integer (n : Z) : Prop := - 2 ^ 63 ≤ n ≤ 2 ^ 63 - 1.

#[export] Instance fits_integer_dec n : Decision (fits_integer n).
Proof. unfold fits_integer. apply _. Defined.

(** [CURRENT_TIMESTAMP] at the time [t], in seconds: the clock of SQLite
    shows whole seconds. *)
Definition CURRENT_TIMESTAMP (t : Q) : Z := Qfloor t.

Definition max_rowid (rs : list review_row) : Z :=
  foldr (λ r m, Z.max (id r) m) 0 rs.

(** Stable descending sort: [x] is placed before the first element whose
    key is not larger than its own. *)
Fixpoint insert_desc {A} (key : A → Z) (x : A) (l : list A) : list A :=
  match l with
  | [] => [x]
  | y :: l' =>
      if decide (key x < key y) then y :: insert_desc key x l' else x :: l
  end.

Definition order_by_desc {A} (key : A → Z) (l : list A) : list A :=
  foldr (insert_desc key) [] l.

(** [WHERE city = ?] over the scan of the table. *)
Definition where_city (c : string) (rs : list review_row) : list review_row :=
  filter (λ r, city r = c) rs.

(** [COUNT( * )] of the group of rating [k]. *)
Definition count_rating (k : Z) (rs : list review_row) : Z :=
  Z.of_nat (length (filter (λ r, rating r = k) rs)).

(** [GROUP BY rating] with [COUNT( * )], [ORDER BY rating DESC]: one pair per
    distinct rating. *)
Definition group_by_rating (rs : list review_row) : list (Z * Z) :=
  (λ k, (k, count_rating k rs))
    <$> order_by_desc (λ k, k) (remove_dups (rating <$> rs)).

Definition empty_table : table := Table [] 0.

(** The file once the table exists: an existing table is kept as it is. *)
Definition initialized (d : database) : database :=
  Some (default empty_table d).

(** [CREATE TABLE IF NOT EXISTS reviews (...)] *)
Definition create_table_if_not_exists : M unit := λ d,
  (inr (), initialized d).

(** [INSERT INTO reviews (city, rating, title, review_text, photo_data,
    photo_filename) VALUES (?, ?, ?, ?, ?, ?)] run when the clock shows
    [now]. *)
Definition insert_review (now : Z) (c : string) (r : Z) (t x : string)
    (p : option bytes) (f : option string) : M unit := λ d,
  match d with
  | None => (inl Py.OperationalError_no_such_table, d)
  | Some tb =>
      if decide (fits_integer r) then
        let v := Z.max (seq tb) (max_rowid (rows tb)) in
        if decide (MAX_ROWID ≤ v)
        then (inl Py.OperationalError_database_full, d)
        else (inr (),
              Some (Table (rows tb ++ [Row (v + 1) c r t x p f now]) (v + 1)))
      else (inl Py.OverflowError, d)
  end.

(** [SELECT id, rating, title, review_text, photo_data, photo_filename,
    created_at FROM reviews WHERE city = ? ORDER BY created_at DESC] *)
Definition select_reviews (c : string)
    : M (list (Z * Z * string * string * option bytes * option string * Z)) :=
  λ d,
  match d with
  | None => (inl Py.OperationalError_no_such_table, d)
  | Some tb =>
      (inr ((λ r, (id r, rating r, title r, review_text r, photo_data r,
                   photo_filename r, created_at r))
              <$> order_by_desc created_at (where_city c (rows tb))), d)
  end.

(** [SELECT rating, COUNT( * ) as count FROM reviews WHERE city = ?
    GROUP BY rating ORDER BY rating DESC] *)
Definition select_rating_counts (c : string) : M (list (Z * Z)) := λ d,
  match d with
  | None => (inl Py.OperationalError_no_such_table, d)
  | Some tb => (inr (group_by_rating (where_city c (rows tb))), d)
  end.

(** [DELETE FROM reviews WHERE id = ?] *)
Definition delete_where_id (i : Z) : M unit := λ d,
  match d with
  | None => (inl Py.OperationalError_no_such_table, d)
  | Some tb =>
      if decide (fits_integer i)
      then (inr (), Some (Table (filter (λ r, id r ≠ i) (rows tb)) (seq tb)))
      else (inl Py.OverflowError, d)
  end.

End Sqlite.

(** ** [utils/reviews.py] *)

Module Reviews.
Import Sqlite.

(** One element of the list that [get_reviews_for_city] returns: the dict
    with the keys 'id', 'rating', 'title', 'text', 'photo_data',
    'photo_filename' and 'created_at'. *)
Record review : Type := Review {
  d_id : Z;
  d_rating : Z;
  d_title : string;
  d_text : string;
  d_photo_data : option bytes;
  d_photo_filename : option string;
  d_created_at : Z
}.

Definition init_reviews_db : M unit :=
  create_table_if_not_exists.

Definition add_review (now : Z) (city : string) (rating : Z)
    (title review_text : string) (photo_bytes : option bytes)
    (photo_filename : option string) : M bool :=
  init_reviews_db ;;
  insert_review now city rating title review_text photo_bytes photo_filename ;;
  mret true.

Definition get_reviews_for_city (city : string) : M (list review) :=
  init_reviews_db ;;
  reviews ← select_reviews city;
  mret ((λ '(i, r, t, x, p, f, c), Review i r t x p f c) <$> reviews).

(** [{5: 0, 4: 0, 3: 0, 2: 0, 1: 0}] *)
Definition initial_summary : gmap Z Z :=
  {[ 5 := 0; 4 := 0; 3 := 0; 2 := 0; 1 := 0 ]}.

(** [for rating, count in ratings: summary[rating] = count] *)
Definition fill_summary (ratings : list (Z * Z)) (summary : gmap Z Z)
    : gmap Z Z :=
  foldl (λ s '(rating, count), <[rating := count]> s) summary ratings.

(** [sum(r * summary[r] for r in rs)], from the accumulator [acc]. *)
Fixpoint sum_weighted (summary : gmap Z Z) (acc : Z) (rs : list Z)
    : Py.exn + Z :=
  match rs with
  | [] => inr acc
  | r :: rs' =>
      match Py.getitem summary r with
      | inl e => inl e
      | inr c => sum_weighted summary (acc + r * c) rs'
      end
  end.

(** [range(1, 6)] *)
Definition range_1_6 : list Z := [1; 2; 3; 4; 5].

Definition get_city_rating_summary (city : string)
    : M (gmap Z Z * Q * Z) :=
  init_reviews_db ;;
  ratings ← select_rating_counts city;
  let summary := fill_summary ratings initial_summary in
  let total := Py.sum_values summary in
  average ← (if decide (0 < total)
             then s ← lift (sum_weighted summary 0 range_1_6);
                  lift (Py.truediv s total)
             else mret 0%Q);
  mret (summary, average, total).

Definition delete_review (review_id : Z) : M bool :=
  init_reviews_db ;;
  delete_where_id review_id ;;
  mret true.

End Reviews.

(** ** The review form of [app.py] (Reviews tab, submit branch) *)

Module App.
Import Sqlite Reviews.

Inductive resampling : Type := NEAREST | BILINEAR | BICUBIC | LANCZOS.

(** The three calls into the imaging library.  Each of them may raise; the
    form catches every exception of the block, so a raise is [None]. *)
Class Pillow : Type := {
  image : Type;
  Image_open : bytes → option image;
  thumbnail : Z * Z → resampling → image → option image;
  save_jpeg : Z → image → option bytes
}.

(** What the form shows ([st.warning], [st.success], [st.error]). *)
Inductive message : Type :=
| could_not_process_image
| review_submitted
| error_saving_review (e : Py.exn).

(** [max_size = (800, 800)] *)
Definition max_size : Z * Z := (800, 800).

(** The [try] block that turns [final_photo] into [photo_bytes]. *)
Definition process_photo `{Pillow} (final_photo : option bytes)
    : option bytes * list message :=
  match final_photo with
  | None => (None, [])
  | Some b =>
      match img ← Image_open b;
            img' ← thumbnail max_size LANCZOS img;
            save_jpeg 85 img' with
      | Some photo_bytes => (Some photo_bytes, [])
      | None => (None, [could_not_process_image])
      end
  end.

(** The [else] branch of the submit handler: process the photo, then add the
    review, reporting a storage exception instead of raising it. *)
Definition submit_review `{Pillow} (now : Z) (city : string) (star_rating : Z)
    (review_title review_text : string) (final_photo : option bytes)
    (photo_filename : option string) (d : database)
    : list message * database :=
  let '(photo_bytes, shown) := process_photo final_photo in
  match add_review now city star_rating review_title review_text
          photo_bytes photo_filename d with
  | (inr _, d') => (shown ++ [review_submitted], d')
  | (inl e, d') => (shown ++ [error_saving_review e], d')
  end.

(** A small codec to run the form on: an image is a byte string that starts
    with the marker byte [ff]; nothing is resized or recompressed. *)
Definition marker_codec : Pillow := {|
  image := bytes;
  Image_open b := match b with xff :: _ => Some b | _ => None end;
  thumbnail _ _ img := Some img;
  save_jpeg _ img := Some img
|}.

(** The modes of an image that the JPEG writer of the library takes;
    [save(.., format='JPEG')] raises OSError ("cannot write mode RGBA as
    JPEG") for every other mode, such as "RGBA" and "LA" of a PNG with
    transparency and "P" of a GIF or of a PNG with a palette. *)
Definition jpeg_modes : list string :=
  ["1"; "L"; "RGB"; "RGBX"; "CMYK"; "YCbCr"]%string.

(** [math.ceil(a / b)] for [b > 0]. *)
Definition ceil_div (a b : Z) : Z := - (- a / b).

(** The side that [Image.thumbnail] scales is the exact value [a / b]
    rounded down or up, and at least 1. *)
Definition scaled_side (a b n : Z) : bool :=
  bool_decide (n = Z.max (a / b) 1 ∨ n = Z.max (ceil_div a b) 1).

(** The size [to] that [Image.thumbnail(box)] leaves an image of the size
    [from]: the image is left alone when it fits the box; otherwise the
    side that limits it becomes the side of the box and the other side
    keeps the aspect ratio. *)
Definition thumbnail_size (box from to : Z * Z) : bool :=
  let '(x, y) := box in
  let '(w, h) := from in
  let '(w', h') := to in
  if decide (w ≤ x ∧ h ≤ y) then bool_decide (w' = w ∧ h' = h)
  else if decide (w * y ≤ x * h)
       then bool_decide (h' = y) && scaled_side (y * w) h w'
       else bool_decide (w' = x) && scaled_side (x * h) w h'.

(** What the documentation of the imaging library says of the three calls:
    [Image_size] is [img.size], (width, height), and [Image_mode] is
    [img.mode].  The
    thumbnail keeps the mode and has the size above; a file that was
    written as JPEG had a mode that JPEG takes and opens again as an image
    of the size that was written. *)
Class PillowDoc `{Pillow} : Type := {
  Image_size : image → Z * Z;
  Image_mode : image → string;
  thumbnail_doc rs img img' :
    thumbnail max_size rs img = Some img' →
    thumbnail_size max_size (Image_size img) (Image_size img') = true
    ∧ Image_mode img' = Image_mode img;
  save_jpeg_doc q img b :
    save_jpeg q img = Some b →
    Image_mode img ∈ jpeg_modes
    ∧ ∃ stored, Image_open b = Some stored ∧ Image_size stored = Image_size img
}.

(** A codec with sizes and modes to run the form on.  A file is one byte
    for its format, two bytes for the width and two for the height. *)
Record picture : Type := Picture {
  pic_mode : string;
  pic_size : Z * Z
}.

Definition two_byte_number (hi lo : byte) : Z :=
  256 * Z.of_N (Byte.to_N hi) + Z.of_N (Byte.to_N lo).

Definition two_bytes (n : Z) : option (byte * byte) :=
  if decide (0 ≤ n) then
    hi ← Byte.of_N (Z.to_N (n / 256));
    lo ← Byte.of_N (Z.to_N (n mod 256));
    Some (hi, lo)
  else None.

(** The first byte of a JPEG, a PNG (here: with transparency), a GIF and a
    BMP file. *)
Definition mode_of_format (tag : byte) : option string :=
  match tag with
  | xff => Some "RGB"%string
  | x89 => Some "RGBA"%string
  | x47 => Some "P"%string
  | x42 => Some "RGB"%string
  | _ => None
  end.

(** [round_aspect] of [Image.thumbnail]:
    [max(min(math.floor(number), math.ceil(number), key=key), 1)] for
    [number = a / b]. *)
Definition round_aspect (a b : Z) (key : Z → Q) : Z :=
  Z.max (if Qle_bool (key (a / b)) (key (ceil_div a b))
         then a / b else ceil_div a b) 1.

Definition sized_codec : Pillow := {|
  image := picture;
  Image_open b :=
    match b with
    | tag :: w1 :: w0 :: h1 :: h0 :: _ =>
        m ← mode_of_format tag;
        Some (Picture m (two_byte_number w1 w0, two_byte_number h1 h0))
    | _ => None
    end;
  thumbnail box _ img :=
    let '(x, y) := box in
    let '(w, h) := pic_size img in
    if decide (w ≤ x ∧ h ≤ y) then Some img
    else if decide (0 < w ∧ 0 < h ∧ 0 < y) then
      let aspect := (inject_Z w / inject_Z h)%Q in
      if decide (w * y ≤ x * h)
      then Some (Picture (pic_mode img)
                   (round_aspect (y * w) h
                      (λ n, Qabs (aspect - inject_Z n / inject_Z y)), y))
      else Some (Picture (pic_mode img)
                   (x, round_aspect (x * h) w
                         (λ n, if decide (n = 0) then 0%Q
                               else Qabs (aspect - inject_Z x / inject_Z n))))
    else None;
  save_jpeg _ img :=
    if decide (pic_mode img ∈ jpeg_modes) then
      '(w1, w0) ← two_bytes (pic_size img).1;
      '(h1, h0) ← two_bytes (pic_size img).2;
      Some [xff; w1; w0; h1; h0]
    else None
|}.

Definition sized_codec_doc : @PillowDoc sized_codec.
Proof.
  refine (@Build_PillowDoc sized_codec pic_size pic_mode _ _).
  - intros rs [m [w h]] img'. unfold thumbnail, sized_codec, max_size.
    cbn [pic_size pic_mode]. unfold thumbnail_size.
    assert (∀ a b key, scaled_side a b (round_aspect a b key) = true)
      as Hround.
    { intros a b key. unfold scaled_side, round_aspect.
      apply bool_decide_eq_true. destruct (Qle_bool _ _); auto. }
    destruct (decide (w ≤ 800 ∧ h ≤ 800)).
    { intros [= <-]. cbn [pic_size pic_mode].
      split; [|done]. by apply bool_decide_eq_true. }
    destruct (decide (0 < w ∧ 0 < h ∧ 0 < 800)); [|done].
    destruct (decide (w * 800 ≤ 800 * h)); intros [= <-];
      cbn [pic_size pic_mode];
      rewrite Hround, bool_decide_eq_true_2; done.
  - intros q [m [w h]] b. unfold save_jpeg, sized_codec.
    cbn [pic_size pic_mode fst snd].
    assert (∀ n hi lo, two_bytes n = Some (hi, lo) → two_byte_number hi lo = n)
      as Hnumber.
    { intros n hi lo. unfold two_bytes, two_byte_number. case_decide as Hn; [|done].
      destruct (Byte.of_N (Z.to_N (n / 256))) as [a|] eqn:Ha; [|done].
      destruct (Byte.of_N (Z.to_N (n mod 256))) as [c|] eqn:Hc; [|done].
      simpl. intros [= -> ->].
      apply Byte.to_of_N in Ha, Hc. rewrite Ha, Hc.
      rewrite !Z2N.id.
      - pose proof (Z.div_mod n 256). lia.
      - apply Z.mod_pos_bound. lia.
      - apply Z.div_pos; lia. }
    case_decide as Hm; [|done]. intros Hsave. split; [done|].
    destruct (two_bytes w) as [[w1 w0]|] eqn:Hw; [|done].
    destruct (two_bytes h) as [[h1 h0]|] eqn:Hh; [|done].
    simpl in Hsave. injection Hsave as <-.
    eexists. split; [reflexivity|]. simpl.
    by rewrite (Hnumber _ _ _ Hw), (Hnumber _ _ _ Hh).
Defined.

End App.

(** ** Histories of the store *)

Module History.
Import Sqlite Reviews.

(** The arguments of one [add_review] call and the clock at its insert. *)
Record submission : Type := Submission {
  s_now : Z;
  s_city : string;
  s_rating : Z;
  s_title : string;
  s_text : string;
  s_photo : option bytes;
  s_filename : option string
}.

Inductive call : Type :=
| AddReview (s : submission)
| DeleteReview (review_id : Z).

Definition add (s : submission) : M bool :=
  add_review (s_now s) (s_city s) (s_rating s) (s_title s) (s_text s)
    (s_photo s) (s_filename s).

Definition run (c : call) : M bool :=
  match c with
  | AddReview s => add s
  | DeleteReview i => delete_review i
  end.

(** The store after a call, whether it returned or raised. *)
Definition after (c : call) (d : database) : database := (run c d).2.

(** Every state the store goes through, the first one included. *)
Fixpoint history (cs : list call) (d : database) : list database :=
  d :: match cs with
       | [] => []
       | c :: cs' => history cs' (after c d)
       end.

Definition final (cs : list call) (d : database) : database :=
  foldl (λ d c, after c d) d cs.

(** The row that the insert of [s] writes under the rowid [i]. *)
Definition stored (i : Z) (s : submission) : review_row :=
  Row i (s_city s) (s_rating s) (s_title s) (s_text s) (s_photo s)
    (s_filename s) (s_now s).

Fixpoint stored_from (i : Z) (ss : list submission) : list review_row :=
  match ss with
  | [] => []
  | s :: ss' => stored i s :: stored_from (i + 1) ss'
  end.

(** The dict that [get_reviews_for_city] builds from a row. *)
Definition review_of_row (r : review_row) : review :=
  Review (id r) (rating r) (title r) (review_text r) (photo_data r)
    (photo_filename r) (created_at r).

(** The key is unique and [sqlite_sequence] is not below any rowid in use:
    what SQLite maintains for an AUTOINCREMENT primary key. *)
Definition wf (d : database) : Prop :=
  NoDup (id <$> rows_of d) ∧ Forall (λ r, id r ≤ seq_of d) (rows_of d).

#[export] Instance wf_dec d : Decision (wf d).
Proof. unfold wf. apply _. Defined.

(** [init_reviews_db()] called [n] times in a row. *)
Fixpoint init_times (n : nat) : M unit :=
  match n with
  | O => mret ()
  | S n' => init_reviews_db ;; init_times n'
  end.

(** [sum(r * summary.get(r, 0) for r in rs)]: the weighted sum the average is
    built from, as a plain expression. *)
Definition weighted (summary : gmap Z Z) (rs : list Z) : Z :=
  foldr (λ r acc, r * default 0 (summary !! r) + acc) 0 rs.

(** The sum of the ratings of a list of rows. *)
Definition sum_ratings (rs : list review_row) : Z :=
  foldr (λ r acc, rating r + acc) 0 rs.

(** A rating the form can produce: one to five stars. *)
Definition in_range (r : review_row) : Prop := 1 ≤ rating r ≤ 5.

#[export] Instance in_range_dec r : Decision (in_range r).
Proof. unfold in_range. apply _. Defined.

End History.

(** ** Python [str] methods that the review form uses *)

Module Str.

(** [c.isspace()] for a character below U+0100: TAB..CR, FS..US, space, NEL
    and the no-break space.  A character of a [string] stands for the code
    point of its number. *)
Definition isspace (c : Ascii.ascii) : bool :=
  let n := Ascii.N_of_ascii c in
  ((9 <=? n) && (n <=? 13) || (28 <=? n) && (n <=? 32)
   || (n =? 133) || (n =? 160))%N.

(** [s.lstrip()] *)
Fixpoint lstrip (s : string) : string :=
  match s with
  | EmptyString => EmptyString
  | String c s' => if isspace c then lstrip s' else s
  end.

(** [s.rstrip()] *)
Fixpoint rstrip (s : string) : string :=
  match s with
  | EmptyString => EmptyString
  | String c s' =>
      match rstrip s' with
      | EmptyString => if isspace c then EmptyString else String c EmptyString
      | t => String c t
      end
  end.

(** [s.strip()] *)
Definition strip (s : string) : string := lstrip (rstrip s).

(** The strings that consist of white space only, the empty one included. *)
Fixpoint blank (s : string) : bool :=
  match s with
  | EmptyString => true
  | String c s' => isspace c && blank s'
  end.

(** [not s]: the empty string is the only false one. *)
Definition falsy (s : string) : bool := bool_decide (s = EmptyString).

(** [a or b] on strings, with [None] for a missing [a]. *)
Definition or_else (a : option string) (b : string) : string :=
  match a with
  | Some s => if falsy s then b else s
  | None => b
  end.

End Str.

(** ** [load_image_from_bytes] of [utils/reviews.py] *)

Module ReviewImages.
Import Sqlite Reviews App.

(** [load_image_from_bytes(image_bytes)]; the outer [None] is an exception
    of [Image.open], which the function does not catch. *)
Definition load_image_from_bytes `{Pillow} (image_bytes : option bytes)
    : option (option image) :=
  match image_bytes with
  | None => Some None
  | Some b =>
      match Image_open b with
      | Some img => Some (Some img)
      | None => None
      end
  end.

End ReviewImages.

(** ** The Reviews tab of [app.py] *)

Module ReviewsTab.
Import Sqlite Reviews App ReviewImages.

(** An uploaded file: what [read()] returns and its [name]. *)
Record uploaded_file : Type := UploadedFile {
  read : bytes;
  name : string
}.

(** The widgets of the review form, as one run of the script sees them. *)
Record review_form : Type := ReviewForm {
  review_title : string;
  star_rating : Z;
  form_text : string;
  uploaded_photo : option uploaded_file;
  camera_photo : option bytes;
  submit_button : bool
}.

(** [options=[5, 4, 3, 2, 1]] of the rating select box. *)
Definition rating_options : list Z := [5; 4; 3; 2; 1].

(** [options=[0, 5, 4, 3, 2, 1]] of the filter select box. *)
Definition filter_options : list Z := [0; 5; 4; 3; 2; 1].

(** The two [st.image] calls of the tab that are given data of the user:
    the preview of the chosen photo in the form and the photo of a review
    card.  Each returns ([true]) or raises ([false]). *)
Class Streamlit `{Pillow} : Type := {
  st_image_bytes : bytes → bool;
  st_image : image → bool
}.

(** The room of the interpreter for a [str]: ["⭐" * n] is built, and
    shown by [st.markdown], when [n] is at most [max_str_len] (it is empty
    for [n ≤ 0]); the heading raises otherwise (OverflowError or
    MemoryError).  Five characters fit; a [str] of two-byte characters
    never has 2^62 of them. *)
Class Memory : Type := {
  max_str_len : Z;
  max_str_len_bounds : 5 ≤ max_str_len < 2 ^ 62
}.

(** What ends a run of the script early. *)
Inductive script_error : Type :=
| python_raised (e : Py.exn)
| st_image_raised
| star_string_raised.

Inductive form_message : Type :=
| camera_photo_captured
| photo_uploaded
| please_enter_a_review_title
| please_write_a_review
| from_submit (m : message).

(** [f"camera_{datetime.datetime.now().strftime('%Y%m%d_%H%M%S')}.jpg"],
    where [stamp] is the formatted clock. *)
Definition camera_filename (stamp : string) : string :=
  "camera_" +:+ stamp +:+ ".jpg".

(** "Choose which photo to use": [final_photo] and [photo_filename]. *)
Definition choose_photo (stamp : string) (f : review_form)
    : option bytes * option string * list form_message :=
  match camera_photo f with
  | Some b => (Some b, Some (camera_filename stamp), [camera_photo_captured])
  | None =>
      match uploaded_photo f with
      | Some u => (Some (read u), Some (name u), [photo_uploaded])
      | None => (None, None, [])
      end
  end.

(** "Preview photo if available": [st.image(final_photo, ...)], which is
    not guarded. *)
Definition preview `{Streamlit} (final_photo : option bytes) : bool :=
  match final_photo with
  | Some b => st_image_bytes b
  | None => true
  end.

(** The body of [with st.form("review_form", ...)], from the choice of the
    photo to the end of [if submit_button:]. *)
Definition review_form_block `{Streamlit} (now : Z) (stamp city : string)
    (f : review_form) (d : database)
    : (script_error + list form_message) * database :=
  let '(final_photo, photo_filename, shown) := choose_photo stamp f in
  if preview final_photo then
    if submit_button f then
      if Str.falsy (Str.strip (review_title f)) then
        (inr (shown ++ [please_enter_a_review_title]), d)
      else if Str.falsy (Str.strip (form_text f)) then
        (inr (shown ++ [please_write_a_review]), d)
      else
        let '(msgs, d') :=
          submit_review now city (star_rating f) (review_title f)
            (form_text f) final_photo photo_filename d in
        (inr (shown ++ (from_submit <$> msgs)), d')
    else (inr shown, d)
  else (inl st_image_raised, d).

(** [reviews if filter_rating == 0 else
     [r for r in reviews if r['rating'] == filter_rating]] *)
Definition filtered_reviews (filter_rating : Z) (reviews : list review)
    : list review :=
  if decide (filter_rating = 0) then reviews
  else filter (λ r, d_rating r = filter_rating) reviews.

(** [key=f"delete_{review['id']}"] *)
Definition delete_key (v : review) : string :=
  "delete_" +:+ pretty (d_id v).

(** What a card shows for the photo of a review. *)
Inductive photo_shown `{Streamlit} : Type :=
| no_photo
| photo (img : image) (caption : string)
| could_not_display_image.

(** "Display photo if exists": an exception of [load_image_from_bytes] or of
    [st.image] is caught and shown as a warning. *)
Definition show_photo `{Streamlit} (v : review) : photo_shown :=
  match d_photo_data v with
  | None => no_photo
  | Some b =>
      match load_image_from_bytes (Some b) with
      | Some (Some img) =>
          if st_image img
          then photo img (Str.or_else (d_photo_filename v) "Review Photo")
          else could_not_display_image
      | Some None => no_photo
      | None => could_not_display_image
      end
  end.

Record card `{Streamlit} : Type := Card {
  card_review : review;
  card_photo : photo_shown;
  card_key : string
}.

Arguments Card {_ _} _ _ _.

Definition render `{Streamlit} (v : review) : card :=
  Card v (show_photo v) (delete_key v).

(** How the loop over the displayed reviews ends. *)
Inductive loop_end : Type :=
| all_rendered
| deleted_and_rerun (review_id : Z).

(** [for i, review in enumerate(filtered_reviews)]: a card per review.  A
    card starts with the heading [f"### {'⭐' * review['rating']}"], which is
    not guarded; the button whose key was clicked deletes its review and
    reruns the script, which ends the loop; a delete that raises shows an
    error and the loop goes on. *)
Fixpoint render_cards `{Streamlit} `{Memory} (shown : list review)
    (clicked : option string) (d : database)
    : (script_error + list card * list Py.exn * loop_end) * database :=
  match shown with
  | [] => (inr ([], [], all_rendered), d)
  | v :: rest =>
      if decide (d_rating v ≤ max_str_len) then
        if decide (clicked = Some (delete_key v)) then
          match delete_review (d_id v) d with
          | (inr _, d') =>
              (inr ([render v], [], deleted_and_rerun (d_id v)), d')
          | (inl e, d') =>
              match render_cards rest clicked d' with
              | (inr (cs, es, fin), d'') =>
                  (inr (render v :: cs, e :: es, fin), d'')
              | (inl err, d'') => (inl err, d'')
              end
          end
        else
          match render_cards rest clicked d with
          | (inr (cs, es, fin), d') => (inr (render v :: cs, es, fin), d')
          | (inl err, d') => (inl err, d')
          end
      else (inl star_string_raised, d)
  end.

Inductive section_note : Type :=
| no_reviews_yet
| no_reviews_with_stars (filter_rating : Z)
| reviews_shown.

Record section_view `{Streamlit} : Type := SectionView {
  note : section_note;
  cards : list card;
  delete_errors : list Py.exn;
  ended : loop_end
}.

Arguments SectionView {_ _} _ _ _ _.

(** "Display Reviews": from [reviews = get_reviews_for_city(city)] to the
    end of the script. *)
Definition reviews_section `{Streamlit} `{Memory} (city : string)
    (filter_rating : Z) (clicked : option string) (d : database)
    : (script_error + section_view) * database :=
  match get_reviews_for_city city d with
  | (inl e, d1) => (inl (python_raised e), d1)
  | (inr [], d1) => (inr (SectionView no_reviews_yet [] [] all_rendered), d1)
  | (inr reviews, d1) =>
      match filtered_reviews filter_rating reviews with
      | [] =>
          (inr (SectionView (no_reviews_with_stars filter_rating) [] []
                  all_rendered), d1)
      | shown =>
          match render_cards shown clicked d1 with
          | (inr (cs, es, fin), d') =>
              (inr (SectionView reviews_shown cs es fin), d')
          | (inl err, d') => (inl err, d')
          end
      end
  end.

(** The values of the [rating_data] dict, from five stars down to one:
    [rating_summary[5]], ..., [rating_summary[1]]. *)
Fixpoint rating_data (rating_summary : gmap Z Z) (stars : list Z)
    : Py.exn + list (Z * Z) :=
  match stars with
  | [] => inr []
  | k :: ks =>
      match Py.getitem rating_summary k with
      | inl e => inl e
      | inr v =>
          match rating_data rating_summary ks with
          | inl e => inl e
          | inr l => inr ((k, v) :: l)
          end
      end
  end.

Record tab_view `{Streamlit} : Type := TabView {
  average_rating : Q;
  total_reviews : Z;
  distribution : list (Z * Z);
  form_messages : list form_message;
  reviews_view : section_view
}.

Arguments TabView {_ _} _ _ _ _ _.

(** One run of the script of the Reviews tab ([with tabs[10]:]); an
    exception that nothing catches ends the run. *)
Definition reviews_tab `{Streamlit} `{Memory} (now : Z) (stamp city : string)
    (f : review_form) (filter_rating : Z) (clicked : option string)
    (d : database) : (script_error + tab_view) * database :=
  match (init_reviews_db ;; get_city_rating_summary city) d with
  | (inl e, d1) => (inl (python_raised e), d1)
  | (inr (rating_summary, avg_rating, total), d1) =>
      match rating_data rating_summary rating_options with
      | inl e => (inl (python_raised e), d1)
      | inr bars =>
          match review_form_block now stamp city f d1 with
          | (inl e, d2) => (inl e, d2)
          | (inr msgs, d2) =>
              match reviews_section city filter_rating clicked d2 with
              | (inl e, d3) => (inl e, d3)
              | (inr view, d3) =>
                  (inr (TabView avg_rating total bars msgs view), d3)
              end
          end
      end
  end.

(** The store after the forms of several runs, oldest first. *)
Definition after_forms `{Streamlit}
    (runs : list (Z * string * string * review_form)) (d : database)
    : database :=
  foldl (λ d '(now, stamp, city, f),
           (review_form_block now stamp city f d).2) d runs.

(** A Streamlit to run the tab on: the preview accepts what the small codec
    can open, a card accepts every image. *)
Definition marker_streamlit : @Streamlit marker_codec := {|
  st_image_bytes b := bool_decide (is_Some (@Image_open marker_codec b));
  st_image _ := true
|}.

(** A Streamlit over the codec with sizes: the preview accepts what the
    codec opens. *)
Definition sized_streamlit : @Streamlit sized_codec := {|
  st_image_bytes b := bool_decide (is_Some (@Image_open sized_codec b));
  st_image _ := true
|}.

(** A small machine: a string of a million characters fits, no longer
    one. *)
Definition small_memory : Memory.
Proof. refine {| max_str_len := 1000000 |}. lia. Defined.

End ReviewsTab.

(** ** JSON values as Python sees them *)

(** [utils/tourist.py] reads the answers of the Google Places API with
    [response.json()] and never checks their shape, so an answer is any JSON
    value here.  Numbers are compared by their value, as Python compares an
    int and a float; the non-finite floats that Python's parser also accepts
    ([NaN], [Infinity]) are left out.  What the network does is not the
    program's: the answers of the requests are an input, consumed in the
    order of the requests, and the requests sent are recorded. *)

Module Json.

(** What [response.json()] returns: [None], a bool, a number (the value of
    an int or of a finite float), a str, a list, a dict with str keys. *)
#[warnings="-register-all"]
Inductive json : Type :=
| null
| boolean (b : bool)
| number (q : Qcanon.Qc)
| str (s : string)
| array (l : list json)
| object (m : gmap string json).

(** [d.get(key, default)]; [None] when [d] has no [get] (AttributeError). *)
Definition get (d : json) (key : string) (default : json) : option json :=
  match d with
  | object m =>
      match m !! key with
      | Some v => Some v
      | None => Some default
      end
  | _ => None
  end.

(** [d[key]] for a str [key]; [None] for a KeyError or a TypeError. *)
Definition getitem (d : json) (key : string) : option json :=
  match d with
  | object m => m !! key
  | _ => None
  end.

(** What [for x in v[:10]] goes through: the first ten elements of a list,
    the first ten characters of a str; [None] when [v] cannot be sliced. *)
Definition first_ten (v : json) : option (list json) :=
  match v with
  | array l => Some (take 10 l)
  | str s =>
      Some ((λ c, str (String c EmptyString))
              <$> take 10 (String.list_ascii_of_string s))
  | _ => None
  end.

(** [v != s] for a str [s]. *)
Definition differs_from_str (v : json) (s : string) : bool :=
  match v with
  | str s' => bool_decide (s' ≠ s)
  | _ => true
  end.

(** [bool(v)] *)
Definition truthy (v : json) : bool :=
  match v with
  | null => false
  | boolean b => b
  | number q => bool_decide (q ≠ Qcanon.Q2Qc 0)
  | str s => bool_decide (s ≠ EmptyString)
  | array l => match l with [] => false | _ => true end
  | object m => bool_decide (m ≠ ∅)
  end.

(** [a or b] *)
Definition or_else (a b : json) : json := if truthy a then a else b.

(** The dict with the given items, as a literal [{k: v, ...}] builds it. *)
Definition dict (items : list (string * json)) : json :=
  object (list_to_map (reverse items)).

(** An int as a JSON number. *)
Definition int (n : Z) : json := number (Qcanon.Q2Qc (inject_Z n)).

(** The hashable values, up to [==]: [True] and [False] are the numbers 1
    and 0. *)
Inductive atom : Type :=
| a_none
| a_num (q : Qcanon.Qc)
| a_str (s : string).

#[export] Instance atom_eq_dec : EqDecision atom.
Proof. solve_decision. Defined.

(** [hash(v)] succeeds; [None] is the TypeError of a list or a dict. *)
Definition hashable (v : json) : option atom :=
  match v with
  | null => Some a_none
  | boolean b => Some (a_num (Qcanon.Q2Qc (if b then 1 else 0)))
  | number q => Some (a_num q)
  | str s => Some (a_str s)
  | array _ | object _ => None
  end.

End Json.

(** ** [utils/tourist.py] *)

Module Tourist.
Import Json.

(** The requests that the module sends. *)
Inductive request : Type :=
| text_search (query : string)
| place_details (place_id : json).

(** The network: the answers still to come, in the order of the requests
    ([None]: [requests.get] or [.json()] raises), and the requests sent so
    far. *)
Record net : Type := Net {
  pending : list (option json);
  sent : list request
}.

(** A computation that talks to the network; the result [None] is an
    exception that the function does not catch. *)
Definition Web (A : Type) : Type := net → option A * net.

#[export] Instance Web_ret : MRet Web := λ A x w, (Some x, w).

#[export] Instance Web_bind : MBind Web := λ A B f m w,
  match m w with
  | (Some x, w') => f x w'
  | (None, w') => (None, w')
  end.

Definition lift {A} (r : option A) : Web A := λ w, (r, w).

(** [requests.get(url, params=...).json()] *)
Definition get_json (r : request) : Web json := λ w,
  match pending w with
  | [] => (None, Net [] (sent w ++ [r]))
  | answer :: rest => (answer, Net rest (sent w ++ [r]))
  end.

(** An element of the list that [fetch_places] returns. *)
Record place : Type := Place {
  name : json;
  address : json;
  rating : json;
  lat : json;
  lng : json;
  website : json;
  phone : json;
  opening_hours : json
}.

(** The [try] block of the loop of [fetch_places]; [None]: an exception,
    after which the loop goes on with the next result. *)
Definition read_result (result : json)
    : option (json * json * json * json * json * json) :=
  place_id ← get result "place_id" null;
  name ← get result "name" (str "Unknown");
  address ← get result "formatted_address" (str "No address");
  rating ← get result "rating" (str "N/A");
  lat ← (getitem result "geometry" ≫= λ g,
         getitem g "location" ≫= λ l, getitem l "lat");
  lng ← (getitem result "geometry" ≫= λ g,
         getitem g "location" ≫= λ l, getitem l "lng");
  Some (place_id, name, address, rating, lat, lng).

(** [for place in results[:10]: ...], with the places collected so far. *)
Fixpoint visit (results : list json) (places : list place) : Web (list place) :=
  match results with
  | [] => mret places
  | result :: rest =>
      match read_result result with
      | None => visit rest places
      | Some (place_id, name, address, rating, lat, lng) =>
          dr ← get_json (place_details place_id);
          details ← lift (get dr "result" (object ∅));
          website ← lift (get details "website" (str "Not available"));
          phone ← lift (get details "formatted_phone_number" (str "N/A"));
          hours ← lift (get details "opening_hours" (object ∅));
          weekday_text ← lift (get hours "weekday_text" (array []));
          visit rest
            (places ++ [Place name address rating lat lng website phone
                          weekday_text])
      end
  end.

Definition fetch_places (query : string) : Web (list place * json * json) :=
  data ← get_json (text_search query);
  status ← lift (get data "status" null);
  error_message ← lift (get data "error_message" null);
  if differs_from_str status "OK" then mret ([], status, error_message)
  else
    results ← lift (get data "results" (array []));
    batch ← lift (first_ten results);
    places ← visit batch [];
    mret (places, status, error_message).

(** The five queries, in the order in which they are tried. *)
Definition queries (city : string) : list string :=
  ["top attractions in " +:+ city;
   "tourist places in " +:+ city;
   "best places to visit in " +:+ city;
   city +:+ " sightseeing";
   city +:+ " tourist hotspots"].

(** [for q in queries: ... if places: ... break]: the places of the first
    query that finds any, and the [status] and [err] of the last query
    sent. *)
Fixpoint search (qs : list string) (last : option (json * json))
    : Web (list place * option (json * json)) :=
  match qs with
  | [] => mret ([], last)
  | q :: rest =>
      '(places, status, err) ← fetch_places q;
      match places with
      | [] => search rest (Some (status, err))
      | _ => mret (places, Some (status, err))
      end
  end.

(** An element of ["places"] in the result of [get_recommendations]: a
    place, or the dict with the one key ["error"]. *)
Inductive entry : Type :=
| found (p : place)
| no_tourist_data (city : string) (status err : json).

(** [p.get("lat")] and [p.get("lng")] *)
Definition entry_lat (p : entry) : json :=
  match p with found p => lat p | no_tourist_data _ _ _ => null end.

Definition entry_lng (p : entry) : json :=
  match p with found p => lng p | no_tourist_data _ _ _ => null end.

(** [key = (p.get("lat"), p.get("lng"))] as a dict key; [None]: the key is
    not hashable. *)
Definition entry_key (p : entry) : option (atom * atom) :=
  a ← hashable (entry_lat p);
  b ← hashable (entry_lng p);
  Some (a, b).

(** "Remove duplicates (same lat/lng)": [list(unique.values())], with the
    keys already in [unique]. *)
Fixpoint unique_values (seen : list (atom * atom)) (all_places : list entry)
    : option (list entry) :=
  match all_places with
  | [] => Some []
  | p :: rest =>
      key ← entry_key p;
      if decide (key ∈ seen) then unique_values seen rest
      else (p ::.) <$> unique_values (key :: seen) rest
  end.

Inductive trend : Type :=
| trend_point (date : string) (interest : Z)
| trends_request_failed.

Record recommendations : Type := Recommendations {
  trends : list trend;
  places : list entry
}.

(** [get_recommendations(city)].  What Google Trends does is an input:
    [None] when [TrendReq(...)] raises, else the points that were appended
    and whether the [try] block ended in an exception. *)
Definition get_recommendations
    (google_trends : option (list (string * Z) * bool)) (city : string)
    : Web recommendations :=
  '(points, failed) ← lift google_trends;
  let trends :=
    ((λ '(date, interest), trend_point date interest) <$> points)
    ++ (if failed : bool then [trends_request_failed] else []) in
  '(found_places, last) ← search (queries city) None;
  all_places ← match found_places with
               | [] =>
                   '(status, err) ← lift last;
                   mret [no_tourist_data city status err]
               | _ => mret (found <$> found_places)
               end;
  unique ← lift (unique_values [] all_places);
  mret (Recommendations trends unique).

(** The coordinates of a result of the text search: those of a dict with a
    dict ["geometry"] with a dict ["location"] with ["lat"] and ["lng"]. *)
Definition location (result : json) : option (json * json) :=
  match result with
  | object m =>
      match m !! "geometry" with
      | Some (object g) =>
          match g !! "location" with
          | Some (object l) =>
              match l !! "lat", l !! "lng" with
              | Some a, Some b => Some (a, b)
              | _, _ => None
              end
          | _ => None
          end
      | _ => None
      end
  | _ => None
  end.

(** The [place_id] with which the details of a result are requested. *)
Definition details_id (result : json) : option json :=
  match result, location result with
  | object m, Some _ => Some (default null (m !! "place_id"))
  | _, _ => None
  end.

(** The queries of the text searches among some requests. *)
Definition searches (requests : list request) : list string :=
  omap (λ r, match r with
             | text_search q => Some q
             | place_details _ => None
             end) requests.

End Tourist.

(** ** The Tourist Info tab of [app.py] *)

Module TouristTab.
Import Json Tourist.

(** What the tab shows of one element of [places]. *)
Record place_card : Type := PlaceCard {
  pname : json;
  paddr : json;
  shown_rating : option json;
  map_preview : option (json * json)
}.

(** The body of [for place in places:], up to the map preview. *)
Definition show (place : entry) : place_card :=
  let get key :=
    match place, key with
    | found p, "name" => Tourist.name p
    | found p, "address" => address p
    | found p, "rating" => rating p
    | found p, "lat" => lat p
    | found p, "lng" => lng p
    | _, _ => null
    end%string in
  let pname := or_else (or_else (get "name") (get "title")) (str "Unnamed") in
  let paddr :=
    or_else (or_else (get "address") (get "vicinity"))
      (str "Address not available") in
  let plat :=
    or_else (or_else (or_else (get "lat") (get "latitude")) (get "lng"))
      (get "longitude") in
  let plng :=
    or_else (or_else (or_else (get "lng") (get "longitude")) (get "lon"))
      (get "long") in
  PlaceCard pname paddr
    (match get "rating" with null => None | r => Some r end)
    (if truthy plat && truthy plng then Some (plat, plng) else None).

Inductive tourist_view : Type :=
| no_tourist_data_available
| no_popular_places_returned
| popular_places (cards : list place_card).

(** [with tabs[2]:], up to the list of the places. *)
Definition tourist_tab (google_trends : option (list (string * Z) * bool))
    (city : string) (w : net) : tourist_view * net :=
  match get_recommendations google_trends city w with
  | (None, w') => (no_tourist_data_available, w')
  | (Some rec, w') =>
      match places rec with
      | [] => (no_popular_places_returned, w')
      | ps => (popular_places (show <$> ps), w')
      end
  end.

(** Answers of the Places API for the examples: a result of the text
    search with its coordinates, and the answer with the results of a text
    search. *)
Definition result_at (place_id : string) (lat lng : Z) : json :=
  dict [("place_id", str place_id); ("name", str place_id);
        ("geometry",
         dict [("location", dict [("lat", int lat); ("lng", int lng)])])]%string.

Definition found_results (results : list json) : gmap string json :=
  list_to_map [("status", str "OK"); ("results", array results)]%string.

Definition zero_results : gmap string json :=
  list_to_map [("status", str "ZERO_RESULTS"); ("results", array [])]%string.

End TouristTab.

(** * Properties *)

Import Sqlite Reviews App History.

(** ** Floats *)

Section floats.
Import Py.
Local Open Scope Q_scope.

Lemma round_half_even_cases (x : Q) :
  (round_half_even x = Qfloor x ∧ x - inject_Z (Qfloor x) <= 1 # 2)
  ∨ (round_half_even x = (Qfloor x + 1)%Z ∧ 1 # 2 <= x - inject_Z (Qfloor x)).
Proof.
  unfold round_half_even.
  destruct (x - inject_Z (Qfloor x) ?= 1 # 2) eqn:E.
  - apply Qeq_alt in E. destruct (Z.even (Qfloor x)); [left|right];
      (split; [reflexivity|rewrite E; apply Qle_refl]).
  - apply Qlt_alt in E. left. split; [reflexivity|]. by apply Qlt_le_weak.
  - apply Qgt_alt in E. right. split; [reflexivity|]. by apply Qlt_le_weak.
Qed.

Lemma round_half_even_error (x : Q) :
  Qabs (inject_Z (round_half_even x) - x) <= 1 # 2.
Proof.
  pose proof (Qfloor_le x) as Hlo. pose proof (Qlt_floor x) as Hhi.
  rewrite inject_Z_plus in Hhi. change (inject_Z 1) with 1 in Hhi.
  apply Qabs_Qle_condition.
  destruct (round_half_even_cases x) as [[-> H]|[-> H]].
  - split; lra.
  - rewrite inject_Z_plus. change (inject_Z 1) with 1. split; lra.
Qed.

Lemma round_half_even_le (x : Q) (n : Z) :
  x <= inject_Z n → (round_half_even x <= n)%Z.
Proof.
  intros Hx. pose proof (Qfloor_le x) as Hlo.
  assert (Qfloor x <= n)%Z as Hf.
  { rewrite Zle_Qle. lra. }
  destruct (round_half_even_cases x) as [[-> H]|[-> H]]; [done|].
  destruct (Z.eq_dec (Qfloor x) n) as [Heq|Hne]; [|lia].
  rewrite Heq in H. lra.
Qed.

Lemma round_half_even_ge (x : Q) (n : Z) :
  inject_Z n <= x → (n <= round_half_even x)%Z.
Proof.
  intros Hx.
  assert (n <= Qfloor x)%Z as Hf.
  { rewrite <-(Qfloor_Z n). by apply Qfloor_resp_le. }
  destruct (round_half_even_cases x) as [[-> H]|[-> H]]; lia.
Qed.

Lemma pow2_pos (z : Z) : 0 < 2 ^ z.
Proof. by apply Qpower_0_lt. Qed.

Lemma pow2_Z (z : Z) : (0 <= z)%Z → inject_Z (2 ^ z) == 2 ^ z.
Proof. intros Hz. by rewrite Zpower_Qpower. Qed.

Lemma pow2_plus (n m : Z) : 2 ^ (n + m) == 2 ^ n * 2 ^ m.
Proof. by apply Qpower_plus. Qed.

Lemma pow2_le (n m : Z) : (n <= m)%Z → 2 ^ n <= 2 ^ m.
Proof. intros H. apply Qpower_le_compat_l; [done|]. lra. Qed.

Lemma pow2_lt_inv (n m : Z) : 2 ^ n < 2 ^ m → (n < m)%Z.
Proof.
  intros H. destruct (Z_lt_le_dec n m) as [|Hle]; [done|].
  apply pow2_le in Hle. revert H Hle. generalize (2 ^ n) (2 ^ m). intros. lra.
Qed.

Lemma binade_spec (x : Q) :
  0 < x → 2 ^ binade x <= x ∧ x < 2 ^ (binade x + 1).
Proof.
  destruct x as [n d]. intros Hx.
  assert (0 < n)%Z as Hn.
  { unfold Qlt in Hx. simpl in Hx. lia. }
  unfold binade. cbn [Qnum Qden].
  set (a := Z.log2 n). set (b := Z.log2 (Z.pos d)).
  destruct (Z.log2_spec n Hn) as [Ha1 Ha2]. fold a in Ha1, Ha2.
  destruct (Z.log2_spec (Z.pos d)) as [Hb1 Hb2]; [done|]. fold b in Hb1, Hb2.
  assert (0 <= a)%Z as Ha0 by apply Z.log2_nonneg.
  assert (0 <= b)%Z as Hb0 by apply Z.log2_nonneg.
  rewrite Zle_Qle, pow2_Z in Ha1, Hb1 by lia.
  rewrite Zlt_Qlt, pow2_Z in Ha2, Hb2 by lia.
  rewrite (Qmake_Qdiv n d) in *.
  set (N := inject_Z n) in *. set (D := inject_Z (Z.pos d)) in *.
  assert (0 < D) as HD.
  { pose proof (pow2_pos b) as Hp. revert Hp Hb1. generalize (2 ^ b).
    intros. lra. }
  clearbody N D.
  assert (2 ^ (a - b - 1) <= N / D) as Hlow.
  { apply Qle_shift_div_l; [done|].
    assert (2 ^ a == 2 ^ (a - b - 1) * 2 ^ (b + 1)) as Heq.
    { rewrite <-pow2_plus. by replace (a - b - 1 + (b + 1))%Z with a by lia. }
    pose proof (pow2_pos (a - b - 1)). 
    assert (2 ^ (a - b - 1) * D <= 2 ^ (a - b - 1) * 2 ^ (b + 1)).
    { apply Qmult_le_l; [done|]. apply Qlt_le_weak.
      by replace (b + 1)%Z with (Z.succ b) by lia. }
    revert Heq H0 Ha1. generalize (2 ^ a) (2 ^ (a - b - 1)) (2 ^ (b + 1)).
    clear. intros. lra. }
  assert (N / D < 2 ^ (a - b + 1)) as Hup.
  { apply Qlt_shift_div_r; [done|].
    assert (2 ^ (a + 1) == 2 ^ (a - b + 1) * 2 ^ b) as Heq.
    { rewrite <-pow2_plus. by replace (a - b + 1 + b)%Z with (a + 1)%Z by lia. }
    pose proof (pow2_pos (a - b + 1)).
    assert (2 ^ (a - b + 1) * 2 ^ b <= 2 ^ (a - b + 1) * D).
    { apply Qmult_le_l; done. }
    replace (Z.succ a) with (a + 1)%Z in Ha2 by lia.
    revert Heq H0 Ha2 Hb1. generalize (2 ^ (a + 1)) (2 ^ (a - b + 1)) (2 ^ b).
    clear. intros. lra. }
  destruct (Qle_bool (2 ^ (a - b)) (N / D)) eqn:E.
  - apply Qle_bool_iff in E. done.
  - assert (¬ 2 ^ (a - b) <= N / D) as Hn'.
    { intros H. apply Qle_bool_iff in H. congruence. }
    apply Qnot_le_lt in Hn'.
    split; [done|]. by replace (a - b - 1 + 1)%Z with (a - b)%Z by lia.
Qed.

Lemma Qabs_of_pos (x : Q) : 0 < x → Qabs x = x.
Proof.
  destruct x as [n d]. unfold Qlt. simpl. intros H.
  rewrite Z.abs_eq; [done|lia].
Qed.

Lemma round_double_pos (x : Q) :
  0 < x →
  round_double x
  = inject_Z (round_half_even (x / 2 ^ Z.max (binade x - 52) (-1074)))
    * 2 ^ Z.max (binade x - 52) (-1074).
Proof.
  intros Hx. unfold round_double.
  destruct (Qeq_bool x 0) eqn:E.
  - apply Qeq_bool_iff in E. lra.
  - by rewrite Qabs_of_pos.
Qed.

Lemma round_double_zero (x : Q) : x == 0 → round_double x = 0.
Proof.
  intros Hx. unfold round_double.
  by rewrite (proj2 (Qeq_bool_iff x 0) Hx).
Qed.

Lemma round_double_nonneg (x : Q) : 0 <= x → 0 <= round_double x.
Proof.
  intros Hx. destruct (Qlt_le_dec 0 x) as [Hpos|Hle].
  - rewrite round_double_pos by done.
    set (q := Z.max (binade x - 52) (-1074)).
    pose proof (pow2_pos q) as Hq.
    apply Qmult_le_0_compat; [|by apply Qlt_le_weak].
    change 0 with (inject_Z 0). rewrite <-Zle_Qle.
    apply round_half_even_ge. change (inject_Z 0) with 0.
    apply Qle_shift_div_l; [done|]. lra.
  - rewrite round_double_zero; [apply Qle_refl|]. lra.
Qed.

Lemma pow2_opp_Z (q : Z) (k : Z) :
  (q <= 0)%Z → inject_Z k / 2 ^ q == inject_Z (k * 2 ^ (- q)).
Proof.
  intros Hq. rewrite inject_Z_mult, pow2_Z by lia.
  rewrite Qpower_opp. unfold Qdiv. reflexivity.
Qed.

Lemma binade_lt (x : Q) (e : Z) : 0 < x → x < 2 ^ e → (binade x < e)%Z.
Proof.
  intros Hx Hlt. destruct (binade_spec x Hx) as [Hlo _].
  apply pow2_lt_inv. revert Hlo Hlt. generalize (2 ^ binade x) (2 ^ e).
  intros. lra.
Qed.

Lemma round_double_le (x : Q) (k : Z) :
  0 < x → x <= inject_Z k → (k < 2 ^ 53)%Z → round_double x <= inject_Z k.
Proof.
  intros Hx Hk Hk53. rewrite round_double_pos by done.
  assert (binade x < 53)%Z as He.
  { apply binade_lt; [done|]. rewrite <-pow2_Z by lia.
    apply Qle_lt_trans with (inject_Z k); [done|]. by rewrite <-Zlt_Qlt. }
  set (q := Z.max (binade x - 52) (-1074)).
  assert (q <= 0)%Z as Hq by lia.
  pose proof (pow2_pos q) as Hp.
  assert (round_half_even (x / 2 ^ q) <= k * 2 ^ (- q))%Z as Hm.
  { apply round_half_even_le. rewrite <-pow2_opp_Z by done.
    apply Qmult_le_r; [by apply Qinv_lt_0_compat|done]. }
  rewrite Zle_Qle, <-pow2_opp_Z in Hm by done.
  apply Qle_trans with (inject_Z k / 2 ^ q * 2 ^ q).
  - by apply Qmult_le_r.
  - revert Hp. generalize (2 ^ q). intros p Hp.
    assert (inject_Z k / p * p == inject_Z k) as -> by (field; lra).
    apply Qle_refl.
Qed.

Lemma round_double_ge (x : Q) (k : Z) :
  0 < x → inject_Z k <= x → x < inject_Z (2 ^ 53) →
  inject_Z k <= round_double x.
Proof.
  intros Hx Hk Hx53. rewrite round_double_pos by done.
  assert (binade x < 53)%Z as He.
  { apply binade_lt; [done|]. by rewrite <-pow2_Z by lia. }
  set (q := Z.max (binade x - 52) (-1074)).
  assert (q <= 0)%Z as Hq by lia.
  pose proof (pow2_pos q) as Hp.
  assert (k * 2 ^ (- q) <= round_half_even (x / 2 ^ q))%Z as Hm.
  { apply round_half_even_ge. rewrite <-pow2_opp_Z by done.
    apply Qmult_le_r; [by apply Qinv_lt_0_compat|done]. }
  rewrite Zle_Qle, <-pow2_opp_Z in Hm by done.
  apply Qle_trans with (inject_Z k / 2 ^ q * 2 ^ q).
  - revert Hp. generalize (2 ^ q). intros p Hp.
    assert (inject_Z k / p * p == inject_Z k) as -> by (field; lra).
    apply Qle_refl.
  - by apply Qmult_le_r.
Qed.

Lemma round_double_half_ulp (x : Q) :
  0 < x →
  Qabs (round_double x - x) <= 2 ^ (Z.max (binade x - 52) (-1074) - 1).
Proof.
  intros Hx. rewrite round_double_pos by done.
  set (q := Z.max (binade x - 52) (-1074)).
  pose proof (pow2_pos q) as Hp.
  pose proof (round_half_even_error (x / 2 ^ q)) as Herr.
  assert (2 ^ (q - 1) == (1 # 2) * 2 ^ q) as ->.
  { rewrite Qmult_comm. unfold Z.sub. by rewrite pow2_plus. }
  revert Hp Herr. generalize (2 ^ q). intros p Hp Herr.
  set (m := inject_Z (round_half_even (x / p))) in *. clearbody m.
  apply Qabs_Qle_condition in Herr as [H1 H2].
  apply Qabs_Qle_condition.
  assert (x == x / p * p) as Hxp by (field; lra).
  revert H1 H2 Hxp. generalize (x / p). intros y H1 H2 Hxp.
  assert (- (1 # 2) * p <= (m - y) * p) as Ha by by apply Qmult_le_r.
  assert ((m - y) * p <= (1 # 2) * p) as Hb by by apply Qmult_le_r.
  split; lra.
Qed.

Lemma round_double_error (x : Q) :
  0 < x →
  Qabs (round_double x - x) <= x * 2 ^ (-53) + 2 ^ (-1075).
Proof.
  intros Hx. eapply Qle_trans; [by apply round_double_half_ulp|].
  destruct (binade_spec x Hx) as [Hlo _].
  pose proof (pow2_pos (-53)) as H53. pose proof (pow2_pos (-1075)) as Hmin.
  destruct (Z.max_spec (binade x - 52) (-1074)) as [[_ ->]|[_ ->]].
  - change (-1074 - 1)%Z with (-1075)%Z.
    assert (0 <= x * 2 ^ (-53)).
    { apply Qmult_le_0_compat; by apply Qlt_le_weak. }
    revert H Hmin. generalize (x * 2 ^ (-53)) (2 ^ (-1075)). intros. lra.
  - replace (binade x - 52 - 1)%Z with (binade x + (-53))%Z by lia.
    rewrite pow2_plus.
    assert (2 ^ binade x * 2 ^ (-53) <= x * 2 ^ (-53)).
    { by apply Qmult_le_r. }
    revert H Hmin.
    generalize (2 ^ binade x * 2 ^ (-53)) (x * 2 ^ (-53)) (2 ^ (-1075)).
    intros. lra.
Qed.

Lemma round_double_is_double (x : Q) :
  0 < x →
  ∃ m q, round_double x = inject_Z m * 2 ^ q
         ∧ (0 <= m <= 2 ^ 53)%Z ∧ (-1074 <= q)%Z.
Proof.
  intros Hx. rewrite round_double_pos by done.
  set (q := Z.max (binade x - 52) (-1074)).
  exists (round_half_even (x / 2 ^ q)), q. split; [done|].
  pose proof (pow2_pos q) as Hp.
  destruct (binade_spec x Hx) as [_ Hhi].
  split; [|lia]. split.
  - apply round_half_even_ge. change (inject_Z 0) with 0.
    apply Qle_shift_div_l; [done|]. lra.
  - apply round_half_even_le. rewrite pow2_Z by lia.
    apply Qle_shift_div_r; [done|]. rewrite <-pow2_plus.
    apply Qle_trans with (2 ^ (binade x + 1)); [by apply Qlt_le_weak|].
    apply pow2_le. lia.
Qed.

Lemma truediv_bounded (a b : Z) :
  (0 <= a <= 5 * b)%Z → (0 < b)%Z →
  truediv a b = inr (round_double (inject_Z a / inject_Z b)).
Proof.
  intros Ha Hb. unfold truediv. rewrite decide_False by lia. cbv zeta.
  set (x := inject_Z a / inject_Z b).
  assert (0 < inject_Z b) as Hb'.
  { change 0 with (inject_Z 0). rewrite <-Zlt_Qlt. lia. }
  assert (0 <= x) as Hx0.
  { apply Qle_shift_div_l; [done|]. rewrite Qmult_0_l.
    change 0 with (inject_Z 0). rewrite <-Zle_Qle. lia. }
  assert (x <= inject_Z 5) as Hx5.
  { apply Qle_shift_div_r; [done|]. rewrite <-inject_Z_mult, <-Zle_Qle. lia. }
  assert (0 <= round_double x <= 5) as [Hv0 Hv5].
  { split; [by apply round_double_nonneg|].
    destruct (Qlt_le_dec 0 x) as [Hpos|Hle].
    - by apply (round_double_le x 5).
    - rewrite round_double_zero; lra. }
  destruct (Qle_bool (2 ^ 1024) (Qabs (round_double x))) eqn:E; [|done].
  apply Qle_bool_iff in E. rewrite Qabs_pos in E by done.
  assert (5 < 2 ^ 1024) as Hbig.
  { apply Qlt_le_trans with (2 ^ 3); [reflexivity|]. by apply pow2_le. }
  revert E Hbig. generalize (2 ^ 1024). intros. lra.
Qed.

Lemma round_double_error0 (x : Q) :
  0 <= x →
  Qabs (round_double x - x) <= x * 2 ^ (-53) + 2 ^ (-1075).
Proof.
  intros Hx. destruct (Qlt_le_dec 0 x) as [Hpos|Hle].
  - by apply round_double_error.
  - assert (x == 0) as Hz by lra.
    rewrite round_double_zero by done. rewrite Hz.
    pose proof (pow2_pos (-53)) as H1. pose proof (pow2_pos (-1075)) as H2.
    revert H1 H2. generalize (2 ^ (-53)) (2 ^ (-1075)). intros p q H1 H2.
    apply Qabs_Qle_condition. split; lra.
Qed.

Lemma round_double_times (s t : Z) :
  (0 <= s <= 5 * t)%Z → (0 < t < 2 ^ 50)%Z →
  Qabs (round_double (inject_Z s / inject_Z t) * inject_Z t - inject_Z s) < 1.
Proof.
  intros Hs Ht.
  set (x := inject_Z s / inject_Z t).
  assert (0 < inject_Z t) as Ht0.
  { change 0 with (inject_Z 0). rewrite <-Zlt_Qlt. lia. }
  assert (inject_Z t <= 1125899906842624) as Ht50.
  { change 1125899906842624 with (inject_Z (2 ^ 50)). rewrite <-Zle_Qle. lia. }
  assert (0 <= inject_Z s) as Hs0.
  { change 0 with (inject_Z 0). rewrite <-Zle_Qle. lia. }
  assert (inject_Z s <= 5 * inject_Z t) as Hs5.
  { change 5 with (inject_Z 5). rewrite <-inject_Z_mult, <-Zle_Qle. lia. }
  assert (x * inject_Z t == inject_Z s) as Hxt.
  { unfold x. field. lra. }
  assert (0 <= x) as Hx0.
  { apply Qle_shift_div_l; [done|]. lra. }
  pose proof (round_double_error0 x Hx0) as Herr.
  assert (2 ^ (-53) == 1 # 9007199254740992) as E53 by reflexivity.
  assert (2 ^ (-1075) <= 1 # 9007199254740992) as Emin.
  { apply Qle_bool_iff. by vm_compute. }
  pose proof (pow2_pos (-1075)) as Hminpos.
  rewrite E53 in Herr. revert Herr Emin Hminpos. generalize (2 ^ (-1075)).
  intros emin Herr Emin Hminpos.
  set (A := round_double x) in *. clearbody A.
  apply Qabs_Qle_condition in Herr as [H1 H2].
  assert ((A - x) * inject_Z t
          <= (x * (1 # 9007199254740992) + emin) * inject_Z t) as Hhi.
  { apply Qmult_le_r; done. }
  assert (- (x * (1 # 9007199254740992) + emin) * inject_Z t
          <= (A - x) * inject_Z t) as Hlo.
  { apply Qmult_le_r; done. }
  assert (0 <= emin * inject_Z t <= (1 # 9007199254740992) * inject_Z t)
    as [He0 He1].
  { split.
    - apply Qmult_le_0_compat; lra.
    - apply Qmult_le_r; done. }
  apply Qabs_Qlt_condition.
  clearbody x.
  revert Ht0 Ht50 Hs0 Hs5 Hxt Hhi Hlo He0 He1.
  generalize (inject_Z t) (inject_Z s). clear. intros T S. intros.
  split; lra.
Qed.

End floats.

(** ** The sorter *)

Section order_by.
Context {A : Type} (key : A → Z).

Implicit Types (x : A) (l : list A).

Lemma insert_desc_perm x l : insert_desc key x l ≡ₚ x :: l.
Proof.
  induction l as [|y l IH]; simpl; [done|].
  case_decide; [|done].
  rewrite IH. apply Permutation_swap.
Qed.

Lemma order_by_desc_perm l : order_by_desc key l ≡ₚ l.
Proof.
  induction l as [|x l IH]; simpl; [done|].
  by rewrite insert_desc_perm, IH.
Qed.

Lemma insert_desc_sorted x l :
  StronglySorted (λ a b, key b ≤ key a) l →
  StronglySorted (λ a b, key b ≤ key a) (insert_desc key x l).
Proof.
  induction 1 as [|y l Hl IH Hy]; simpl.
  - repeat constructor.
  - case_decide as Hlt.
    + constructor; [done|].
      rewrite insert_desc_perm. constructor; [lia|done].
    + constructor; [by constructor|].
      constructor; [lia|].
      eapply Forall_impl; [exact Hy|]. simpl. intros z ?. lia.
Qed.

Lemma order_by_desc_sorted l :
  StronglySorted (λ a b, key b ≤ key a) (order_by_desc key l).
Proof.
  induction l as [|x l IH]; simpl; [constructor|].
  by apply insert_desc_sorted.
Qed.

(** Rows of equal key leave the sorter in the order they entered it. *)
Lemma insert_desc_stable t x l :
  filter (λ a, key a = t) (insert_desc key x l)
  = filter (λ a, key a = t) (x :: l).
Proof.
  induction l as [|y l IH]; simpl; [done|].
  case_decide as Hlt; [|done].
  rewrite !filter_cons in *.
  repeat case_decide; simplify_eq; try lia; by rewrite ?IH.
Qed.

Lemma order_by_desc_stable t l :
  filter (λ a, key a = t) (order_by_desc key l) = filter (λ a, key a = t) l.
Proof.
  induction l as [|x l IH]; simpl; [done|].
  rewrite insert_desc_stable, !filter_cons. by rewrite IH.
Qed.

Lemma insert_desc_last x l :
  Forall (λ y, key x < key y) l → insert_desc key x l = l ++ [x].
Proof.
  induction 1 as [|y l Hy _ IH]; simpl; [done|].
  rewrite decide_True by done. by rewrite IH.
Qed.

Lemma order_by_desc_increasing l :
  StronglySorted (λ a b, key a < key b) l →
  order_by_desc key l = reverse l.
Proof.
  induction 1 as [|x l _ IH Hx]; simpl; [done|].
  rewrite IH, reverse_cons. apply insert_desc_last.
  by rewrite Forall_reverse.
Qed.

Lemma order_by_desc_decreasing l :
  StronglySorted (λ a b, key b ≤ key a) l →
  order_by_desc key l = l.
Proof.
  induction 1 as [|x l _ IH Hx]; simpl; [done|].
  rewrite IH. destruct Hx as [|y l Hy _]; simpl; [done|].
  by rewrite decide_False by lia.
Qed.

Lemma order_by_desc_length l : length (order_by_desc key l) = length l.
Proof. by rewrite order_by_desc_perm. Qed.

End order_by.

(** ** The summary dict *)

Lemma sum_values_insert_fresh (m : gmap Z Z) k v :
  m !! k = None → Py.sum_values (<[k:=v]> m) = Py.sum_values m + v.
Proof.
  intros Hk. unfold Py.sum_values.
  rewrite map_fold_insert_L; [done| |done].
  intros. lia.
Qed.

Lemma sum_values_insert (m : gmap Z Z) k v :
  default 0 (m !! k) = 0 →
  Py.sum_values (<[k:=v]> m) = Py.sum_values m + v.
Proof.
  destruct (m !! k) as [old|] eqn:Hk; simpl; intros Hold.
  - subst old. rewrite <- insert_delete_eq.
    rewrite sum_values_insert_fresh by apply lookup_delete_eq.
    unfold Py.sum_values.
    rewrite (map_fold_delete_L _ _ k 0 m); [simpl; lia| |done].
    intros. lia.
  - by apply sum_values_insert_fresh.
Qed.

Lemma sum_values_initial : Py.sum_values initial_summary = 0.
Proof.
  by vm_compute.
Qed.

Lemma fill_summary_cons k n gs (m : gmap Z Z) :
  fill_summary ((k, n) :: gs) m = fill_summary gs (<[k:=n]> m).
Proof. done. Qed.

Lemma fill_summary_notin gs (m : gmap Z Z) k :
  k ∉ gs.*1 → fill_summary gs m !! k = m !! k.
Proof.
  revert m. induction gs as [|[k' n] gs IH]; intros m Hk; [done|].
  rewrite fill_summary_cons. rewrite fmap_cons, not_elem_of_cons in Hk.
  destruct Hk as [Hne Hk]. simpl in Hne.
  rewrite IH by done. by rewrite lookup_insert_ne.
Qed.

Lemma fill_summary_in gs (m : gmap Z Z) k n :
  NoDup gs.*1 → (k, n) ∈ gs → fill_summary gs m !! k = Some n.
Proof.
  revert m. induction gs as [|[k' n'] gs IH]; intros m Hnd Hin.
  { by apply elem_of_nil in Hin. }
  rewrite fmap_cons, NoDup_cons in Hnd. destruct Hnd as [Hk' Hnd].
  rewrite fill_summary_cons.
  apply elem_of_cons in Hin as [Heq|Hin].
  - simplify_eq. rewrite fill_summary_notin by done.
    apply lookup_insert_eq.
  - by apply IH.
Qed.

(** Filling in the groups of the keys [ks] adds up the sizes of these
    groups, as long as the dict held nothing but zeros for them. *)
Lemma sum_values_fill ks rs (m : gmap Z Z) :
  NoDup ks →
  Forall (λ k, default 0 (m !! k) = 0) ks →
  Py.sum_values (fill_summary ((λ k, (k, count_rating k rs)) <$> ks) m)
  = Py.sum_values m + Z.of_nat (length (filter (λ r, rating r ∈ ks) rs)).
Proof.
  intros Hnd. revert m.
  induction Hnd as [|k ks Hk Hnd IH]; intros m Hm.
  - simpl. replace (filter _ rs) with (@nil review_row); [simpl; lia|].
    symmetry. induction rs as [|r rs IHrs]; [done|].
    rewrite filter_cons. rewrite decide_False by apply not_elem_of_nil. done.
  - apply Forall_cons in Hm as [Hk0 Hm].
    rewrite fmap_cons, fill_summary_cons, IH.
    + rewrite sum_values_insert by done.
      unfold count_rating. rewrite <- Z.add_assoc, <- Nat2Z.inj_add.
      do 2 f_equal. clear -Hk.
      induction rs as [|r rs IHrs]; [done|].
      rewrite !filter_cons.
      destruct (decide (rating r = k)) as [<-|Hne].
      * rewrite (decide_False (P := rating r ∈ ks)) by done.
        rewrite (decide_True (P := rating r ∈ rating r :: ks)) by left.
        simpl. by rewrite IHrs.
      * destruct (decide (rating r ∈ ks)) as [Hin|Hnin].
        -- rewrite (decide_True (P := rating r ∈ k :: ks)) by (by right).
           simpl. rewrite <- IHrs. lia.
        -- rewrite (decide_False (P := rating r ∈ k :: ks)); [done|].
           by rewrite not_elem_of_cons.
    + rewrite Forall_forall in Hm |- *. intros k' Hk'.
      rewrite lookup_insert_ne; [by apply Hm|].
      intros ->. done.
Qed.

Lemma initial_summary_lookup k :
  initial_summary !! k = if decide (1 ≤ k ≤ 5) then Some 0 else None.
Proof.
  unfold initial_summary. case_decide as Hk.
  - assert (k = 1 ∨ k = 2 ∨ k = 3 ∨ k = 4 ∨ k = 5) as Hcases by lia.
    destruct Hcases as [->|[->|[->|[->| ->]]]]; by vm_compute.
  - rewrite !lookup_insert_ne by lia. apply lookup_singleton_ne. lia.
Qed.

Lemma count_rating_0 k rs : k ∉ rating <$> rs → count_rating k rs = 0.
Proof.
  intros Hk. unfold count_rating.
  induction rs as [|r rs IH]; [done|].
  rewrite fmap_cons, not_elem_of_cons in Hk. destruct Hk as [Hne Hk].
  rewrite filter_cons, decide_False by done. by apply IH.
Qed.

Lemma count_rating_pos k rs : k ∈ rating <$> rs → 0 < count_rating k rs.
Proof.
  intros (r & -> & Hr)%list_elem_of_fmap. unfold count_rating.
  assert (r ∈ filter (λ r', rating r' = rating r) rs) as Hin
    by by apply list_elem_of_filter.
  destruct (filter _ rs); [by apply elem_of_nil in Hin|simpl; lia].
Qed.

Lemma filter_all {A} (P : A → Prop) `{∀ x, Decision (P x)} (l : list A) :
  Forall P l → filter P l = l.
Proof.
  induction 1 as [|x l Hx _ IH]; [done|].
  by rewrite filter_cons, decide_True, IH.
Qed.

Lemma group_by_rating_keys rs :
  (group_by_rating rs).*1 = order_by_desc (λ k, k) (remove_dups (rating <$> rs)).
Proof.
  unfold group_by_rating.
  induction (order_by_desc _ _) as [|k ks IH]; [done|].
  by rewrite !fmap_cons, IH.
Qed.

Lemma group_by_rating_NoDup rs : NoDup (group_by_rating rs).*1.
Proof.
  rewrite group_by_rating_keys, order_by_desc_perm.
  apply NoDup_remove_dups.
Qed.

Lemma elem_of_group_by_rating k rs :
  k ∈ rating <$> rs → (k, count_rating k rs) ∈ group_by_rating rs.
Proof.
  intros Hk. unfold group_by_rating.
  apply list_elem_of_fmap. exists k. split; [done|].
  by rewrite order_by_desc_perm, elem_of_remove_dups.
Qed.

(** The dict after the loop: the five keys and one more key per rating that
    occurs, each with the number of rows of that rating. *)
Lemma summary_lookup rs k :
  fill_summary (group_by_rating rs) initial_summary !! k
  = if decide (1 ≤ k ≤ 5 ∨ k ∈ rating <$> rs)
    then Some (count_rating k rs) else None.
Proof.
  destruct (decide (k ∈ rating <$> rs)) as [Hin|Hnin].
  - rewrite decide_True by (by right).
    apply fill_summary_in; [apply group_by_rating_NoDup|].
    by apply elem_of_group_by_rating.
  - rewrite fill_summary_notin.
    + rewrite initial_summary_lookup, count_rating_0 by done.
      destruct (decide (1 ≤ k ≤ 5)).
      * by rewrite decide_True by (by left).
      * rewrite decide_False; [done|]. intros [?|?]; done.
    + by rewrite group_by_rating_keys, order_by_desc_perm, elem_of_remove_dups.
Qed.

(** [total] is the number of rows that the query matched. *)
Lemma summary_total rs :
  Py.sum_values (fill_summary (group_by_rating rs) initial_summary)
  = Z.of_nat (length rs).
Proof.
  unfold group_by_rating. rewrite sum_values_fill.
  - rewrite sum_values_initial, filter_all; [done|].
    apply Forall_forall. intros r Hr.
    rewrite order_by_desc_perm, elem_of_remove_dups.
    by apply list_elem_of_fmap_2.
  - rewrite order_by_desc_perm. apply NoDup_remove_dups.
  - apply Forall_forall. intros k _. rewrite initial_summary_lookup.
    by case_decide.
Qed.

Lemma sum_weighted_ok (summary : gmap Z Z) acc rs :
  Forall (λ r, is_Some (summary !! r)) rs →
  sum_weighted summary acc rs = inr (acc + weighted summary rs).
Proof.
  intros Hrs. revert acc.
  induction Hrs as [|r rs [c Hc] _ IH]; intros acc; simpl.
  - f_equal. lia.
  - unfold Py.getitem. rewrite Hc, IH. simpl. f_equal. lia.
Qed.

Lemma summary_five_keys rs k :
  1 ≤ k ≤ 5 →
  fill_summary (group_by_rating rs) initial_summary !! k
  = Some (count_rating k rs).
Proof. intros Hk. rewrite summary_lookup. by rewrite decide_True by (by left). Qed.

Lemma sum_values_foldr (m : gmap Z Z) :
  Py.sum_values m = foldr Z.add 0 (map_to_list m).*2.
Proof.
  unfold Py.sum_values. rewrite map_fold_foldr.
  induction (map_to_list m) as [|[k v] l IH]; [done|].
  rewrite fmap_cons. cbn [foldr]. rewrite <- IH. simpl. lia.
Qed.

(** ** The sum of the ratings *)

Lemma count_rating_cons k r rs :
  count_rating k (r :: rs)
  = (if decide (rating r = k) then 1 else 0) + count_rating k rs.
Proof.
  unfold count_rating. rewrite filter_cons.
  case_decide; simpl length; lia.
Qed.

Lemma five_counts_in_range rs :
  1 * count_rating 1 rs + 2 * count_rating 2 rs + 3 * count_rating 3 rs
  + 4 * count_rating 4 rs + 5 * count_rating 5 rs
  = sum_ratings (filter in_range rs).
Proof.
  induction rs as [|r rs IH]; [done|].
  rewrite !count_rating_cons, filter_cons.
  destruct (decide (in_range r)) as [Hr|Hr]; unfold in_range in Hr;
    simpl; rewrite <- IH; repeat case_decide; lia.
Qed.

Lemma weighted_in_range rs :
  weighted (fill_summary (group_by_rating rs) initial_summary) range_1_6
  = sum_ratings (filter in_range rs).
Proof.
  rewrite <- five_counts_in_range. unfold weighted, range_1_6. simpl.
  rewrite !summary_five_keys by lia. simpl. lia.
Qed.

Lemma sum_ratings_split rs :
  sum_ratings rs
  = sum_ratings (filter in_range rs)
    + sum_ratings (filter (λ r, ¬ in_range r) rs).
Proof.
  induction rs as [|r rs IH]; [done|].
  rewrite !filter_cons.
  destruct (decide (in_range r)) as [Hr|Hr].
  - rewrite decide_False by tauto. simpl. rewrite IH. lia.
  - rewrite decide_True by done. simpl. rewrite IH. lia.
Qed.

Lemma sum_ratings_bounds (rs : list review_row) :
  Forall in_range rs →
  Z.of_nat (length rs) ≤ sum_ratings rs ≤ 5 * Z.of_nat (length rs).
Proof.
  induction 1 as [|r rs Hr _ IH]; simpl; [lia|].
  unfold in_range in Hr. lia.
Qed.

Lemma in_range_filter (rs : list review_row) :
  Forall in_range (filter in_range rs).
Proof. apply Forall_forall. by intros r [? _]%list_elem_of_filter. Qed.

(** ** The functions of [utils/reviews.py], in closed form *)

Lemma rows_of_initialized d : rows_of (initialized d) = rows_of d.
Proof. by destruct d. Qed.

Lemma seq_of_initialized d : seq_of (initialized d) = seq_of d.
Proof. by destruct d. Qed.

Lemma initialized_idemp d : initialized (initialized d) = initialized d.
Proof. done. Qed.

Lemma init_reviews_db_eq d : init_reviews_db d = (inr (), initialized d).
Proof. done. Qed.

Lemma get_reviews_for_city_eq c d :
  get_reviews_for_city c d
  = (inr (review_of_row
            <$> order_by_desc created_at (where_city c (rows_of d))),
     initialized d).
Proof.
  unfold get_reviews_for_city, mbind, M_bind. rewrite init_reviews_db_eq.
  unfold initialized, select_reviews, mret, M_ret.
  rewrite <- list_fmap_compose. by destruct d.
Qed.

Lemma get_city_rating_summary_eq c d :
  let rs := where_city c (rows_of d) in
  let summary := fill_summary (group_by_rating rs) initial_summary in
  let total := Z.of_nat (length rs) in
  get_city_rating_summary c d
  = (inr (summary,
          if decide (0 < total)
          then Py.round_double
                 (inject_Z (sum_ratings (filter in_range rs)) / inject_Z total)
          else 0%Q,
          total),
     initialized d).
Proof.
  intros rs summary total.
  unfold get_city_rating_summary, mbind, M_bind. rewrite init_reviews_db_eq.
  unfold initialized at 1, select_rating_counts.
  replace (rows (default empty_table d)) with (rows_of d) by by destruct d.
  fold rs. fold summary. cbv beta zeta.
  assert (Py.sum_values summary = total) as -> by apply summary_total.
  destruct (decide (0 < total)) as [Hpos|Hzero]; [|done].
  unfold lift. rewrite sum_weighted_ok.
  - rewrite Z.add_0_l. unfold summary. rewrite weighted_in_range.
    pose proof (sum_ratings_bounds _ (in_range_filter rs)) as [Hlo Hhi].
    pose proof (length_filter in_range rs) as Hlen.
    rewrite truediv_bounded; [done| |done]. unfold total. lia.
  - apply Forall_forall. intros k Hk. unfold summary.
    rewrite summary_five_keys; [eauto|].
    unfold range_1_6 in Hk. set_unfold. lia.
Qed.

Lemma add_review_eq now c r t x p f d :
  let v := Z.max (seq_of d) (max_rowid (rows_of d)) in
  add_review now c r t x p f d
  = if decide (fits_integer r) then
      if decide (MAX_ROWID ≤ v)
      then (inl Py.OperationalError_database_full, initialized d)
      else (inr true,
            Some (Table (rows_of d ++ [Row (v + 1) c r t x p f now]) (v + 1)))
    else (inl Py.OverflowError, initialized d).
Proof.
  intros v. unfold add_review, mbind, M_bind. rewrite init_reviews_db_eq.
  unfold initialized at 1, insert_review.
  replace (rows (default empty_table d)) with (rows_of d) by by destruct d.
  replace (seq (default empty_table d)) with (seq_of d) by by destruct d.
  fold v. destruct (decide (fits_integer r)); [|done].
  by destruct (decide (MAX_ROWID ≤ v)).
Qed.

Lemma delete_review_eq i d :
  delete_review i d
  = if decide (fits_integer i)
    then (inr true,
          Some (Table (filter (λ r, id r ≠ i) (rows_of d)) (seq_of d)))
    else (inl Py.OverflowError, initialized d).
Proof.
  unfold delete_review, mbind, M_bind. rewrite init_reviews_db_eq.
  unfold initialized at 1, delete_where_id.
  destruct (decide (fits_integer i)); by destruct d.
Qed.

(** ** The rating summary *)

(** C2: for every city and every store, [get_city_rating_summary] returns
    (it never raises, whether by a missing key or by a division by zero) a
    dict in which the five keys 1..5 are present, each with the number of
    the city's reviews of that rating (zero when there is none); a [total]
    that is the sum of the dict's values and the number of the city's
    reviews; and an [average] that, when [total > 0], is the float that
    Python's division gives for Σ(rating × count) over the five ratings
    and [total]: the float nearest to the quotient, between 0 and 5, and,
    when [total = 0], is 0. *)
Theorem get_city_rating_summary_correct (c : string) (d : database) :
  let matched := filter (λ r, city r = c) (rows_of d) in
  let count k := Z.of_nat (length (filter (λ r, rating r = k) matched)) in
  let weighted :=
    1 * count 1 + 2 * count 2 + 3 * count 3 + 4 * count 4 + 5 * count 5 in
  ∃ summary average total,
    (get_city_rating_summary c d).1 = inr (summary, average, total)
    ∧ (∀ k, 1 ≤ k ≤ 5 → summary !! k = Some (count k))
    ∧ total = foldr Z.add 0 (map_to_list summary).*2
    ∧ total = Z.of_nat (length matched)
    ∧ (0 < total →
         let exact := (inject_Z weighted / inject_Z total)%Q in
         average = Py.round_double exact
         ∧ (Qabs (average - exact) <= exact * 2 ^ (-53) + 2 ^ (-1075))%Q
         ∧ (0 <= average)%Q ∧ (average <= 5)%Q)
    ∧ (total = 0 →
         average = 0%Q ∧ ∀ k, 1 ≤ k ≤ 5 → summary !! k = Some 0).
Proof.
  intros matched count weighted.
  pose proof (get_city_rating_summary_eq c d) as Heq. cbv zeta in Heq.
  fold (where_city c (rows_of d)) in matched.
  fold matched in Heq.
  set (summary := fill_summary (group_by_rating matched) initial_summary) in *.
  assert (∀ k, 1 ≤ k ≤ 5 → summary !! k = Some (count k)) as Hkeys.
  { intros k Hk. by apply summary_five_keys. }
  assert (weighted = sum_ratings (filter in_range matched)) as Hw.
  { rewrite <- five_counts_in_range. done. }
  eexists _, _, _. rewrite Heq. split; [done|]. split; [done|].
  split; [rewrite <- sum_values_foldr; unfold summary;
          by rewrite summary_total|].
  split; [done|]. split.
  - intros Hpos. rewrite decide_True by done. rewrite <- Hw.
    pose proof (sum_ratings_bounds _ (in_range_filter matched)) as [Hlo Hhi].
    pose proof (length_filter in_range matched) as Hlen.
    rewrite <- Hw in Hlo, Hhi.
    assert (0 < inject_Z (Z.of_nat (length matched)))%Q as HposQ.
    { change 0%Q with (inject_Z 0). by rewrite <- Zlt_Qlt. }
    assert (0 <= inject_Z weighted / inject_Z (Z.of_nat (length matched)))%Q
      as Hx0.
    { apply Qle_shift_div_l; [done|]. rewrite Qmult_0_l.
      change 0%Q with (inject_Z 0). rewrite <- Zle_Qle. lia. }
    assert (inject_Z weighted / inject_Z (Z.of_nat (length matched))
            <= inject_Z 5)%Q as Hx5.
    { apply Qle_shift_div_r; [done|].
      rewrite <- inject_Z_mult, <- Zle_Qle. lia. }
    cbv zeta. split; [done|]. split; [by apply round_double_error0|].
    split; [by apply round_double_nonneg|].
    destruct (Qlt_le_dec 0
                (inject_Z weighted / inject_Z (Z.of_nat (length matched))))
      as [Hx|Hx].
    + by apply (round_double_le _ 5).
    + rewrite round_double_zero; [done|]. by apply Qle_antisym.
  - intros Hz. rewrite decide_False by lia. split; [done|].
    intros k Hk. rewrite Hkeys by done. f_equal. unfold count.
    destruct matched; [done|]. simpl in Hz. lia.
Qed.

Lemma get_city_rating_summary_correct_witness :
  let d : database :=
    Some (Table [Row 1 "Pune" 5 "a" "x" None None 0;
                 Row 2 "Goa" 1 "b" "y" None None 1;
                 Row 3 "Pune" 4 "c" "z" None None 2;
                 Row 4 "Pune" 4 "d" "w" None None 3] 4) in
  ∃ summary average total,
    (get_city_rating_summary "Pune" d).1 = inr (summary, average, total)
    ∧ summary !! 4 = Some 2
    ∧ summary !! 1 = Some 0
    ∧ total = 3
    ∧ average = (4878899596318037 # 1125899906842624)%Q.
Proof.
  intros d.
  destruct (get_city_rating_summary_correct "Pune" d)
    as (summary & average & total & Hs & Hk & _ & Ht & Havg & _).
  exists summary, average, total. split; [exact Hs|].
  split; [apply (Hk 4); lia|]. split; [apply (Hk 1); lia|].
  split; [exact Ht|].
  destruct Havg as [-> _]; [rewrite Ht; reflexivity|].
  rewrite Ht. vm_compute. reflexivity.
Defined.

(** C10, as the claim states its last clause, fails: a stored rating 0 is
    outside [1,5], adds the key 0 and is counted in [total], and yet the
    average times the total equals the sum of all the matched ratings. *)
Lemma rating_zero_keeps_average_times_total :
  let d : database := Some (Table [Row 1 "Pune" 0 "t" "x" None None 0] 1) in
  ∃ r summary average total,
    r ∈ rows_of d ∧ city r = "Pune" ∧ ¬ (1 ≤ rating r ≤ 5)
    ∧ (get_city_rating_summary "Pune" d).1 = inr (summary, average, total)
    ∧ summary !! rating r = Some 1
    ∧ total = 1
    ∧ (average * inject_Z total
       == inject_Z (sum_ratings (where_city "Pune" (rows_of d))))%Q.
Proof.
  intros d. eexists (Row 1 "Pune" 0 "t" "x" None None 0), _, _, _.
  split; [apply list_elem_of_singleton; done|].
  split; [done|]. split; [simpl; lia|].
  split; [by vm_compute|].
  split; [by vm_compute|]. split; [done|]. by vm_compute.
Qed.

(** C10 (amended): when the store holds, for the city [c], a review whose
    rating is outside [1,5], [get_city_rating_summary c] returns a dict that
    has, besides the five keys 1..5, a key for that rating; [total] counts
    every matched review, that one included; the average is built from the
    ratings 1..5 only: it is the float nearest to the sum of the in-range
    ratings divided by [total].  So, for a city with fewer than 2^50
    reviews, average × total differs from the sum of all the matched
    ratings whenever the out-of-range ratings do not add up to zero. *)
Theorem out_of_range_rating_summary (c : string) (d : database)
    (r : review_row) :
  r ∈ rows_of d → city r = c → ¬ in_range r →
  let rs := filter (λ r', city r' = c) (rows_of d) in
  let inside := sum_ratings (filter in_range rs) in
  let outside := sum_ratings (filter (λ r', ¬ in_range r') rs) in
  ∃ summary average total,
    (get_city_rating_summary c d).1 = inr (summary, average, total)
    ∧ (∀ k, 1 ≤ k ≤ 5 → is_Some (summary !! k))
    ∧ summary !! rating r
      = Some (Z.of_nat (length (filter (λ r', rating r' = rating r) rs)))
    ∧ 1 ≤ Z.of_nat (length (filter (λ r', rating r' = rating r) rs))
    ∧ total = Z.of_nat (length rs)
    ∧ 1 ≤ total
    ∧ average = Py.round_double (inject_Z inside / inject_Z total)
    ∧ sum_ratings rs = inside + outside
    ∧ (total < 2 ^ 50 → outside ≠ 0 →
       ¬ (average * inject_Z total == inject_Z (sum_ratings rs))%Q).
Proof.
  intros Hr Hc Hout rs inside outside.
  pose proof (get_city_rating_summary_eq c d) as Heq. cbv zeta in Heq.
  fold (where_city c (rows_of d)) in rs. fold rs in Heq. fold inside in Heq.
  assert (r ∈ rs) as Hrs by by apply list_elem_of_filter.
  assert (rating r ∈ rating <$> rs) as Hk by by apply list_elem_of_fmap_2.
  assert (0 < Z.of_nat (length rs)) as Hpos.
  { destruct rs; [by apply elem_of_nil in Hrs|simpl; lia]. }
  eexists _, _, _. rewrite Heq. split; [done|].
  split; [intros k Hk'; rewrite summary_five_keys by done; eauto|].
  split; [rewrite summary_lookup; by rewrite decide_True by (by right)|].
  split; [pose proof (count_rating_pos _ _ Hk); unfold count_rating in *; lia|].
  split; [done|]. split; [lia|].
  rewrite decide_True by done. split; [done|].
  split; [apply sum_ratings_split|].
  intros Hsmall Hne Heq'.
  pose proof (sum_ratings_bounds _ (in_range_filter rs)) as [Hlo Hhi].
  pose proof (length_filter in_range rs) as Hlen. fold inside in Hlo, Hhi.
  pose proof (round_double_times inside (Z.of_nat (length rs))) as Herr.
  rewrite Heq' in Herr. rewrite (sum_ratings_split rs) in Herr.
  fold inside outside in Herr.
  assert (inject_Z (inside + outside) - inject_Z inside == inject_Z outside)%Q
    as Hdiff by (rewrite inject_Z_plus; ring).
  rewrite Hdiff in Herr.
  assert (Qabs (inject_Z outside) < 1)%Q as Hone by (apply Herr; lia).
  apply Qabs_Qlt_condition in Hone as [H1 H2].
  change 1%Q with (inject_Z 1) in H1, H2.
  change (- inject_Z 1)%Q with (inject_Z (-1)) in H1.
  rewrite <- Zlt_Qlt in H1, H2. lia.
Qed.

Lemma out_of_range_rating_summary_witness :
  let d : database :=
    Some (Table [Row 1 "Pune" 5 "t" "x" None None 0;
                 Row 2 "Pune" 7 "u" "y" None None 1] 2) in
  ∃ summary average total,
    (get_city_rating_summary "Pune" d).1 = inr (summary, average, total)
    ∧ summary !! 7 = Some 1
    ∧ total = 2
    ∧ (average == 5 # 2)%Q
    ∧ ¬ (average * inject_Z total == 12)%Q.
Proof.
  intros d.
  destruct (out_of_range_rating_summary "Pune" d
              (Row 2 "Pune" 7 "u" "y" None None 1))
    as (summary & average & total & Hs & _ & Hk & _ & Ht & _ & Havg & _ & Hne).
  - apply list_elem_of_In. simpl. auto.
  - reflexivity.
  - unfold in_range. simpl. lia.
  - exists summary, average, total.
    split; [exact Hs|]. split; [exact Hk|]. split; [exact Ht|].
    split; [rewrite Havg, Ht; vm_compute; reflexivity|].
    apply Hne; [rewrite Ht; vm_compute; reflexivity|vm_compute; discriminate].
Defined.

(** ** Rows and rowids *)

Lemma max_rowid_ge r rs : r ∈ rs → id r ≤ max_rowid rs.
Proof.
  induction 1 as [r rs|r r' rs _ IH]; simpl; lia.
Qed.

Lemma next_rowid_fresh d :
  Z.max (seq_of d) (max_rowid (rows_of d)) + 1 ∉ id <$> rows_of d.
Proof.
  intros (r & Heq & Hr%max_rowid_ge)%list_elem_of_fmap. lia.
Qed.

Lemma unique_row rs r r' :
  NoDup (id <$> rs) → r ∈ rs → r' ∈ rs → id r = id r' → r = r'.
Proof.
  induction rs as [|r0 rs IH]; intros Hnd Hr Hr' Hid.
  { by apply elem_of_nil in Hr. }
  rewrite fmap_cons, NoDup_cons in Hnd. destruct Hnd as [Hr0 Hnd].
  apply elem_of_cons in Hr as [->|Hr]; apply elem_of_cons in Hr' as [->|Hr'].
  - done.
  - destruct Hr0. rewrite Hid. by apply list_elem_of_fmap_2.
  - destruct Hr0. rewrite <- Hid. by apply list_elem_of_fmap_2.
  - by apply IH.
Qed.

(** The insert of [s] goes through: its rating is an integer that SQLite
    holds and a rowid is left. *)
Lemma rows_of_after_add s d :
  let v := Z.max (seq_of d) (max_rowid (rows_of d)) in
  rows_of (after (AddReview s) d)
  = rows_of d ++ (if decide (fits_integer (s_rating s) ∧ v < MAX_ROWID)
                  then [stored (v + 1) s] else []).
Proof.
  intros v. unfold after, run, add. rewrite add_review_eq. fold v.
  destruct (decide (fits_integer (s_rating s))) as [Hr|Hr].
  - destruct (decide (MAX_ROWID ≤ v)).
    + rewrite decide_False by lia. simpl. rewrite app_nil_r. by destruct d.
    + by rewrite decide_True by (split; [done|lia]).
  - rewrite decide_False by tauto. simpl. rewrite app_nil_r. by destruct d.
Qed.

Lemma seq_of_after_add s d :
  let v := Z.max (seq_of d) (max_rowid (rows_of d)) in
  seq_of (after (AddReview s) d)
  = if decide (fits_integer (s_rating s) ∧ v < MAX_ROWID)
    then v + 1 else seq_of d.
Proof.
  intros v. unfold after, run, add. rewrite add_review_eq. fold v.
  destruct (decide (fits_integer (s_rating s))) as [Hr|Hr].
  - destruct (decide (MAX_ROWID ≤ v)).
    + rewrite decide_False by lia. by destruct d.
    + by rewrite decide_True by (split; [done|lia]).
  - rewrite decide_False by tauto. by destruct d.
Qed.

(** A delete whose id SQLite cannot hold raises and deletes nothing. *)
Lemma rows_of_after_delete i d :
  rows_of (after (DeleteReview i) d)
  = if decide (fits_integer i)
    then filter (λ r, id r ≠ i) (rows_of d) else rows_of d.
Proof.
  unfold after, run. rewrite delete_review_eq.
  case_decide; [done|by destruct d].
Qed.

Lemma seq_of_after_delete i d :
  seq_of (after (DeleteReview i) d) = seq_of d.
Proof.
  unfold after, run. rewrite delete_review_eq.
  case_decide; [done|by destruct d].
Qed.

(** A row stays in the table until a delete names its id. *)
Lemma row_persists cs d r :
  r ∈ rows_of d → DeleteReview (id r) ∉ cs → r ∈ rows_of (final cs d).
Proof.
  revert d. induction cs as [|c cs IH]; intros d Hr Hcs; [done|].
  apply not_elem_of_cons in Hcs as [Hc Hcs].
  unfold final. simpl. apply IH; [|done].
  destruct c as [s|j].
  - rewrite rows_of_after_add. apply elem_of_app. by left.
  - rewrite rows_of_after_delete. case_decide; [|done].
    apply list_elem_of_filter.
    split; [|done]. intros Hj. apply Hc. by rewrite Hj.
Qed.

(** What the two read operations show of a row of the city. *)
Lemma row_is_listed c d r :
  r ∈ rows_of d → city r = c →
  ∃ l summary average total,
    (get_reviews_for_city c d).1 = inr l
    ∧ review_of_row r ∈ l
    ∧ (get_city_rating_summary c d).1 = inr (summary, average, total)
    ∧ 1 ≤ total
    ∧ 1 ≤ default 0 (summary !! rating r).
Proof.
  intros Hr Hc.
  assert (r ∈ where_city c (rows_of d)) as Hrs by by apply list_elem_of_filter.
  rewrite get_reviews_for_city_eq.
  pose proof (get_city_rating_summary_eq c d) as Heq. cbv zeta in Heq.
  rewrite Heq. eexists _, _, _, _. split; [done|].
  split; [apply list_elem_of_fmap_2; by rewrite order_by_desc_perm|].
  split; [done|]. split.
  - destruct (where_city c (rows_of d)); [by apply elem_of_nil in Hrs|].
    simpl. lia.
  - assert (rating r ∈ rating <$> where_city c (rows_of d)) as Hk
      by by apply list_elem_of_fmap_2.
    rewrite summary_lookup, decide_True by (by right). simpl.
    pose proof (count_rating_pos _ _ Hk). lia.
Qed.

Lemma summary_default_count rs k :
  default 0 (fill_summary (group_by_rating rs) initial_summary !! k)
  = count_rating k rs.
Proof.
  rewrite summary_lookup. case_decide as Hk; [done|]. simpl.
  rewrite count_rating_0; [done|]. intros ?. apply Hk. by right.
Qed.

Lemma count_rating_app k rs1 rs2 :
  count_rating k (rs1 ++ rs2) = count_rating k rs1 + count_rating k rs2.
Proof. unfold count_rating. rewrite filter_app, length_app. lia. Qed.

(** C1, as the claim states it, fails: [add_review] returns [True], which
    is not the id of the review it created (here the second review of the
    store, whose id is 2, while [True] counts as 1). *)
Lemma add_review_returns_True_not_the_id :
  let d : database := Some (Table [Row 1 "Pune" 5 "t" "x" None None 0] 1) in
  ∃ v d',
    add_review 1 "Pune" 4 "u" "y" None None d = (inr v, d')
    ∧ rows_of d' = rows_of d ++ [Row 2 "Pune" 4 "u" "y" None None 1]
    ∧ v = true
    ∧ Py.int_of_bool v ≠ 2.
Proof.
  intros d. eexists _, _. split; [by vm_compute|].
  split; [done|]. split; [done|]. simpl. lia.
Qed.

(** C1 (amended): the storage accepts an [add_review] call when its
    rating is an integer that SQLite holds (64 bits with a sign) and a rowid
    is left.  Every call that the storage accepts returns [True]; it appends
    one review that carries the arguments of the call under an id that no
    row of the store has; the review is in the list of its city and counted
    in the summary of its city right after the call, and it stays so after
    any further calls, as long as none deletes that id.  A call that the
    storage does not accept raises and adds no review. *)
Theorem add_review_creates_visible_review (now : Z) (c : string) (r : Z)
    (t x : string) (p : option bytes) (f : option string) (d : database) :
  let i := Z.max (seq_of d) (max_rowid (rows_of d)) + 1 in
  (- 2 ^ 63 ≤ r ≤ 2 ^ 63 - 1 → i ≤ 2 ^ 63 - 1 →
   ∃ d',
     add_review now c r t x p f d = (inr true, d')
     ∧ rows_of d' = rows_of d ++ [Row i c r t x p f now]
     ∧ (i ∉ id <$> rows_of d)
     ∧ (∃ S A T S' A' T',
          (get_city_rating_summary c d).1 = inr (S, A, T)
          ∧ (get_city_rating_summary c d').1 = inr (S', A', T')
          ∧ T' = T + 1
          ∧ default 0 (S' !! r) = default 0 (S !! r) + 1)
     ∧ (∀ cs, DeleteReview i ∉ cs →
          ∃ l S A T,
            (get_reviews_for_city c (final cs d')).1 = inr l
            ∧ Review i r t x p f now ∈ l
            ∧ (get_city_rating_summary c (final cs d')).1 = inr (S, A, T)
            ∧ 1 ≤ T
            ∧ 1 ≤ default 0 (S !! r)))
  ∧ (¬ (- 2 ^ 63 ≤ r ≤ 2 ^ 63 - 1 ∧ i ≤ 2 ^ 63 - 1) →
     ∃ e d',
       add_review now c r t x p f d = (inl e, d')
       ∧ rows_of d' = rows_of d ∧ seq_of d' = seq_of d).
Proof.
  intros i. rewrite add_review_eq. cbv zeta. fold i. split.
  - intros Hr Hi.
    rewrite decide_True by done.
    rewrite decide_False by (unfold MAX_ROWID, i in *; lia).
    eexists. split; [done|]. split; [done|].
    split; [apply next_rowid_fresh|]. split.
    + pose proof (get_city_rating_summary_eq c d) as Heq.
      pose proof (get_city_rating_summary_eq c
                    (Some (Table (rows_of d ++ [Row i c r t x p f now]) i)))
        as Heq'.
      cbv zeta in Heq, Heq'. rewrite Heq, Heq'.
      eexists _, _, _, _, _, _. split; [done|]. split; [done|].
      simpl rows_of. unfold where_city. rewrite filter_app.
      rewrite (filter_cons _ (Row i c r t x p f now)), decide_True by done.
      rewrite filter_nil. fold (where_city c (rows_of d)). split.
      * simpl. rewrite length_app. simpl. lia.
      * rewrite !summary_default_count, count_rating_app.
        f_equal. by rewrite count_rating_cons, decide_True.
    + intros cs Hcs.
      set (d' := Some (Table (rows_of d ++ [Row i c r t x p f now]) i)).
      destruct (row_is_listed c (final cs d') (Row i c r t x p f now))
        as (l & S & A & T & Hl & Hin & HS & HT & Hr'); [|done|].
      * apply row_persists; [|done]. apply elem_of_app. right. by left.
      * exists l, S, A, T. done.
  - intros Hno.
    destruct (decide (fits_integer r)) as [Hr|Hr].
    + rewrite decide_True
        by (unfold fits_integer, MAX_ROWID, i in *; lia).
      eexists _, _. split; [done|].
      by rewrite rows_of_initialized, seq_of_initialized.
    + eexists _, _. split; [done|].
      by rewrite rows_of_initialized, seq_of_initialized.
Qed.

Lemma add_review_creates_visible_review_witness :
  (∃ d',
     add_review 7 "Pune" 4 "u" "y" None None None = (inr true, d')
     ∧ rows_of d' = [Row 1 "Pune" 4 "u" "y" None None 7])
  ∧ (∃ e d',
       add_review 7 "Pune" (2 ^ 63) "u" "y" None None None = (inl e, d')
       ∧ rows_of d' = []).
Proof.
  destruct (add_review_creates_visible_review 7 "Pune" 4 "u" "y" None None None)
    as [Hyes _].
  destruct (add_review_creates_visible_review 7 "Pune" (2 ^ 63) "u" "y"
              None None None) as [_ Hno].
  split.
  - destruct Hyes as (d' & Hadd & Hrows & _).
    + lia.
    + vm_compute. discriminate.
    + exists d'. split; [exact Hadd|exact Hrows].
  - destruct Hno as (e & d' & Hadd & Hrows & _).
    + lia.
    + exists e, d'. split; [exact Hadd|exact Hrows].
Defined.

(** ** Matching the city *)

Lemma count_rating_reviews k rs :
  length (filter (λ v, d_rating v = k) (review_of_row <$> rs))
  = length (filter (λ r, rating r = k) rs).
Proof.
  induction rs as [|r rs IH]; [done|].
  rewrite fmap_cons, !filter_cons. simpl.
  case_decide; simpl; by rewrite IH.
Qed.

(** C6: the list and the summary of a city are built from the rows whose
    city is the queried string and from no other row: a stored review is
    listed exactly when its city equals the query, the summary counts
    exactly the listed reviews, and a query for "Mumbai" lists no review
    stored under "mumbai". *)
Theorem city_match_is_exact (c : string) (d : database) :
  wf d →
  ∃ reviews summary average total,
    (get_reviews_for_city c d).1 = inr reviews
    ∧ (get_city_rating_summary c d).1 = inr (summary, average, total)
    ∧ reviews ≡ₚ review_of_row <$> filter (λ r, city r = c) (rows_of d)
    ∧ (∀ r, r ∈ rows_of d →
         (∃ v, v ∈ reviews ∧ d_id v = id r) ↔ city r = c)
    ∧ total = Z.of_nat (length reviews)
    ∧ (∀ k, default 0 (summary !! k)
            = Z.of_nat (length (filter (λ v, d_rating v = k) reviews)))
    ∧ (c = "Mumbai" →
       ∀ r, r ∈ rows_of d → city r = "mumbai" →
            ∀ v, v ∈ reviews → d_id v ≠ id r).
Proof.
  intros [Hnd _].
  rewrite get_reviews_for_city_eq.
  pose proof (get_city_rating_summary_eq c d) as Heq. cbv zeta in Heq.
  rewrite Heq. eexists _, _, _, _. split; [done|]. split; [done|].
  fold (where_city c (rows_of d)).
  assert (∀ r, r ∈ rows_of d →
            (∃ v, v ∈ review_of_row
                      <$> order_by_desc created_at (where_city c (rows_of d))
                  ∧ d_id v = id r) ↔ city r = c) as Hiff.
  { intros r Hr. split.
    - intros (v & (r' & -> & Hr')%list_elem_of_fmap & Hid). simpl in Hid.
      rewrite order_by_desc_perm in Hr'.
      apply list_elem_of_filter in Hr' as [Hc Hr'].
      by rewrite <- (unique_row _ _ _ Hnd Hr' Hr Hid).
    - intros Hc. exists (review_of_row r). split; [|done].
      apply list_elem_of_fmap_2. rewrite order_by_desc_perm.
      by apply list_elem_of_filter. }
  split; [by rewrite order_by_desc_perm|].
  split; [exact Hiff|].
  split; [by rewrite length_fmap, order_by_desc_length|].
  split.
  - intros k. rewrite summary_default_count, count_rating_reviews.
    unfold count_rating. by rewrite order_by_desc_perm.
  - intros -> r Hr Hc v Hv Hid.
    assert (city r = "Mumbai") as Hc' by (apply Hiff; eauto).
    rewrite Hc in Hc'. discriminate.
Qed.

Lemma city_match_is_exact_witness :
  let d : database :=
    Some (Table [Row 1 "mumbai" 5 "t" "x" None None 0;
                 Row 2 "Mumbai" 3 "u" "y" None None 1] 2) in
  ∃ reviews,
    (get_reviews_for_city "Mumbai" d).1 = inr reviews
    ∧ ∀ v, v ∈ reviews → d_id v ≠ 1.
Proof.
  intros d.
  destruct (city_match_is_exact "Mumbai" d)
    as (reviews & summary & average & total & Hl & _ & _ & _ & _ & _ & Hm).
  - apply (bool_decide_unpack _). by vm_compute.
  - exists reviews. split; [exact Hl|].
    intros v Hv.
    apply (Hm eq_refl (Row 1 "mumbai" 5 "t" "x" None None 0)).
    + apply list_elem_of_In. simpl. auto.
    + reflexivity.
    + exact Hv.
Defined.

(** ** The submit branch of the review form *)

Lemma process_photo_undecodable `{Pillow} (b : bytes) :
  Image_open b = None →
  process_photo (Some b) = (None, [could_not_process_image]).
Proof. intros Hb. unfold process_photo. by rewrite Hb. Qed.

(** C3 (code bug): the submit branch of the form does what the claim says:
    when the bytes of the photo cannot be opened as an image it warns, drops
    the photo and stores the review without it.  But the branch is never
    reached with such bytes: the preview of the chosen photo, which comes
    first and is not guarded, has Streamlit open the same bytes with the
    same library and raises.  The run of the script ends there, with or
    without a click on Submit, and nothing is stored. *)
Theorem undecodable_photo_is_not_submitted `{ReviewsTab.Streamlit} (now : Z)
    (stamp c : string) (f : ReviewsTab.review_form) (b : bytes)
    (d : database) :
  (∀ b', ReviewsTab.st_image_bytes b' = true → is_Some (Image_open b')) →
  (ReviewsTab.choose_photo stamp f).1.1 = Some b →
  Image_open b = None →
  let fname := (ReviewsTab.choose_photo stamp f).1.2 in
  let i := Z.max (seq_of d) (max_rowid (rows_of d)) + 1 in
  ReviewsTab.review_form_block now stamp c f d
  = (inl ReviewsTab.st_image_raised, d)
  ∧ (fits_integer (ReviewsTab.star_rating f) → i ≤ MAX_ROWID →
     ∃ d',
       submit_review now c (ReviewsTab.star_rating f)
         (ReviewsTab.review_title f) (ReviewsTab.form_text f) (Some b) fname d
       = ([could_not_process_image; review_submitted], d')
       ∧ rows_of d'
         = rows_of d ++ [Row i c (ReviewsTab.star_rating f)
                           (ReviewsTab.review_title f) (ReviewsTab.form_text f)
                           None fname now]).
Proof.
  intros Hlib Hphoto Hb fname i. split.
  - unfold ReviewsTab.review_form_block.
    destruct (ReviewsTab.choose_photo stamp f) as [[final name] shown].
    simpl in Hphoto. subst final. unfold ReviewsTab.preview.
    destruct (ReviewsTab.st_image_bytes b) eqn:E; [|done].
    apply Hlib in E. rewrite Hb in E. by destruct E.
  - intros Hr Hi. unfold submit_review.
    rewrite process_photo_undecodable by done.
    rewrite add_review_eq. cbv zeta. fold i.
    rewrite decide_True by done.
    rewrite decide_False by (unfold i in Hi; lia).
    eexists. split; done.
Qed.

Lemma undecodable_photo_is_not_submitted_witness :
  let f := ReviewsTab.ReviewForm "u" 4 "y"
             (Some (ReviewsTab.UploadedFile [x00; x01] "a.jpg")) None true in
  @ReviewsTab.review_form_block _ ReviewsTab.marker_streamlit 7 "s" "Pune" f
    None
  = (inl ReviewsTab.st_image_raised, None).
Proof.
  intros f.
  destruct (@undecodable_photo_is_not_submitted _ ReviewsTab.marker_streamlit
              7 "s" "Pune" f [x00; x01] None) as [Hrun _].
  - intros b' Hb'. by apply bool_decide_eq_true in Hb'.
  - reflexivity.
  - reflexivity.
  - exact Hrun.
Defined.

(** ** Initialisation and deletion *)

Lemma init_times_eq n d :
  init_times n d = (inr (), Nat.iter n initialized d).
Proof.
  revert d. induction n as [|n IH]; intros d; [done|].
  simpl init_times. unfold mbind, M_bind. rewrite init_reviews_db_eq, IH.
  by rewrite Nat.iter_swap.
Qed.

Lemma iter_initialized n d :
  (1 ≤ n)%nat → Nat.iter n initialized d = initialized d.
Proof.
  destruct n as [|n]; [lia|]. intros _.
  induction n as [|n IH]; [done|].
  rewrite Nat.iter_succ, IH. apply initialized_idemp.
Qed.

(** C8: calling [init_reviews_db] [n ≥ 1] times in a row never raises and
    leaves the store as one call does: the table exists afterwards (the
    statements of the other operations find it), every row is there with
    all its fields, in the same order, the rowid counter is unchanged, and a
    store that already had the table is not changed at all. *)
Theorem init_reviews_db_idempotent (n : nat) (d : database) :
  (1 ≤ n)%nat →
  ∃ d',
    init_times n d = (inr (), d')
    ∧ d' = initialized d
    ∧ is_Some d'
    ∧ rows_of d' = rows_of d
    ∧ seq_of d' = seq_of d
    ∧ (is_Some d → d' = d)
    ∧ (∀ c, ∃ l, select_reviews c d' = (inr l, d'))
    ∧ (∀ c, (get_reviews_for_city c d').1 = (get_reviews_for_city c d).1)
    ∧ (∀ c, (get_city_rating_summary c d').1
            = (get_city_rating_summary c d).1).
Proof.
  intros Hn. exists (initialized d).
  rewrite init_times_eq, iter_initialized by done.
  split; [done|]. split; [done|]. split; [by eexists|].
  split; [apply rows_of_initialized|].
  split; [apply seq_of_initialized|].
  split; [by intros [t ->]|].
  split; [intros c; by eexists|].
  split; intros c.
  - by rewrite !get_reviews_for_city_eq, rows_of_initialized.
  - pose proof (get_city_rating_summary_eq c d) as Heq.
    pose proof (get_city_rating_summary_eq c (initialized d)) as Heq'.
    cbv zeta in Heq, Heq'. rewrite Heq, Heq'.
    by rewrite rows_of_initialized.
Qed.

Lemma init_reviews_db_idempotent_witness :
  let d : database := Some (Table [Row 4 "Pune" 5 "t" "x" None None 9] 6) in
  init_times 3 d = (inr (), d).
Proof.
  intros d.
  destruct (init_reviews_db_idempotent 3 d) as (d' & Hrun & Hd' & _).
  - lia.
  - rewrite Hrun, Hd'. reflexivity.
Defined.

Lemma filter_id_ne_absent i (rs : list review_row) :
  i ∉ id <$> rs → filter (λ r, id r ≠ i) rs = rs.
Proof.
  intros Hi. apply filter_all, Forall_forall.
  intros r Hr Heq. apply Hi. rewrite <- Heq. by apply list_elem_of_fmap_2.
Qed.

Lemma filter_id_ne_present i (l1 : list review_row) r l2 :
  NoDup (id <$> (l1 ++ r :: l2)) → id r = i →
  filter (λ r', id r' ≠ i) (l1 ++ r :: l2) = l1 ++ l2.
Proof.
  intros Hnd Hr. rewrite fmap_app, fmap_cons in Hnd.
  apply NoDup_app in Hnd as (_ & Hl1 & Hnd).
  apply NoDup_cons in Hnd as [Hl2 _].
  rewrite filter_app, filter_cons, decide_False by (intros ?; done).
  rewrite !filter_id_ne_absent; [done| |].
  - by rewrite <- Hr.
  - intros Hin. apply (Hl1 i Hin). rewrite <- Hr. by left.
Qed.

(** C9, as the claim states it, fails: the id 2^63 was never issued (no id
    can be that large), and [delete_review] raises for it. *)
Lemma delete_review_raises_for_a_large_id :
  let d : database := Some (Table [Row 1 "Pune" 5 "t" "x" None None 0] 1) in
  (2 ^ 63 ∉ id <$> rows_of d)
  ∧ delete_review (2 ^ 63) d = (inl Py.OverflowError, d).
Proof.
  intros d. split; [|by vm_compute].
  intros Hin. apply list_elem_of_In in Hin. simpl in Hin.
  destruct Hin as [Hin|[]]. discriminate Hin.
Qed.

(** C9 (amended): for an id that SQLite holds (64 bits with a sign, as every
    id that the store issues) [delete_review] does not raise and returns
    [True]; when no row has the id, the store is left as [init_reviews_db]
    leaves it, so the rows, the rowid counter, and every list and every
    summary are what they were; when a row has the id, that row is removed
    and every other row is kept, in the same order.  For any other id
    [delete_review] raises OverflowError and changes nothing. *)
Theorem delete_review_removes_only_that_id (i : Z) (d : database) :
  (- 2 ^ 63 ≤ i ≤ 2 ^ 63 - 1 →
   ∃ d',
     delete_review i d = (inr true, d')
     ∧ seq_of d' = seq_of d
     ∧ (∀ r, r ∈ rows_of d' ↔ r ∈ rows_of d ∧ id r ≠ i)
     ∧ (i ∉ id <$> rows_of d →
        d' = initialized d
        ∧ rows_of d' = rows_of d
        ∧ (∀ c, (get_reviews_for_city c d').1 = (get_reviews_for_city c d).1)
        ∧ (∀ c, (get_city_rating_summary c d').1
                = (get_city_rating_summary c d).1))
     ∧ (wf d → ∀ l1 r l2,
          rows_of d = l1 ++ r :: l2 → id r = i → rows_of d' = l1 ++ l2))
  ∧ (¬ (- 2 ^ 63 ≤ i ≤ 2 ^ 63 - 1) →
     delete_review i d = (inl Py.OverflowError, initialized d)
     ∧ rows_of (initialized d) = rows_of d
     ∧ seq_of (initialized d) = seq_of d).
Proof.
  rewrite delete_review_eq. split.
  - intros Hi. rewrite decide_True by done.
    eexists. split; [done|]. split; [done|].
    split; [intros r; simpl; rewrite list_elem_of_filter; tauto|].
    split.
    + intros Hno. rewrite filter_id_ne_absent by done.
      assert (Some (Table (rows_of d) (seq_of d)) = initialized d) as ->
        by by destruct d as [[]|].
      split; [done|]. split; [apply rows_of_initialized|].
      split; intros c.
      * by rewrite !get_reviews_for_city_eq, rows_of_initialized.
      * pose proof (get_city_rating_summary_eq c d) as Heq.
        pose proof (get_city_rating_summary_eq c (initialized d)) as Heq'.
        cbv zeta in Heq, Heq'. rewrite Heq, Heq'.
        by rewrite rows_of_initialized.
    + intros [Hnd _] l1 r l2 Hrows Hr. simpl. rewrite Hrows in Hnd |- *.
      by apply filter_id_ne_present.
  - intros Hi. rewrite decide_False by done.
    by rewrite rows_of_initialized, seq_of_initialized.
Qed.

Lemma delete_review_removes_only_that_id_witness :
  let d : database :=
    Some (Table [Row 1 "Pune" 5 "t" "x" None None 0;
                 Row 2 "Pune" 4 "u" "y" None None 1] 2) in
  (∃ d', delete_review 7 d = (inr true, d') ∧ rows_of d' = rows_of d)
  ∧ (∃ d', delete_review 1 d = (inr true, d')
           ∧ rows_of d' = [Row 2 "Pune" 4 "u" "y" None None 1]).
Proof.
  intros d.
  destruct (delete_review_removes_only_that_id 7 d) as [H7 _].
  destruct (delete_review_removes_only_that_id 1 d) as [H1 _].
  split.
  - destruct H7 as (d' & Hdel & _ & _ & Habsent & _); [lia|].
    exists d'. split; [exact Hdel|]. apply Habsent.
    intros Hin. apply list_elem_of_In in Hin. simpl in Hin.
    destruct Hin as [Hin|[Hin|[]]]; discriminate Hin.
  - destruct H1 as (d' & Hdel & _ & _ & _ & Hpresent); [lia|].
    exists d'. split; [exact Hdel|].
    apply (Hpresent ltac:(apply (bool_decide_unpack _); by vm_compute)
             [] (Row 1 "Pune" 5 "t" "x" None None 0)
             [Row 2 "Pune" 4 "u" "y" None None 1]); reflexivity.
Defined.

(** ** The order of the list *)

Lemma max_rowid_nonneg rs : 0 ≤ max_rowid rs.
Proof. induction rs as [|r rs IH]; simpl; lia. Qed.

Lemma max_rowid_app rs1 rs2 :
  max_rowid (rs1 ++ rs2) = Z.max (max_rowid rs1) (max_rowid rs2).
Proof.
  induction rs1 as [|r rs1 IH]; simpl.
  - pose proof (max_rowid_nonneg rs2). lia.
  - rewrite IH. lia.
Qed.

(** A run of inserts that fits below [MAX_ROWID], with ratings that SQLite
    holds, appends one row per submission, under consecutive rowids. *)
Lemma rows_of_final_adds ss d :
  let v := Z.max (seq_of d) (max_rowid (rows_of d)) in
  v + Z.of_nat (length ss) ≤ MAX_ROWID →
  Forall (λ s, fits_integer (s_rating s)) ss →
  rows_of (final (AddReview <$> ss) d) = rows_of d ++ stored_from (v + 1) ss.
Proof.
  revert d. induction ss as [|s ss IH]; intros d v Hfit Hint.
  { simpl. by rewrite app_nil_r. }
  apply Forall_cons in Hint as [Hs Hint].
  simpl length in Hfit. rewrite Nat2Z.inj_succ in Hfit.
  unfold final. rewrite fmap_cons. simpl foldl.
  fold (final (AddReview <$> ss) (after (AddReview s) d)).
  pose proof (rows_of_after_add s d) as Hrows.
  pose proof (seq_of_after_add s d) as Hseq.
  cbv zeta in Hrows, Hseq. fold v in Hrows, Hseq.
  rewrite decide_True in Hrows by (split; [done|lia]).
  rewrite decide_True in Hseq by (split; [done|lia]).
  assert (Z.max (seq_of (after (AddReview s) d))
            (max_rowid (rows_of (after (AddReview s) d))) = v + 1) as Hv.
  { rewrite Hrows, Hseq, max_rowid_app. simpl.
    pose proof (max_rowid_nonneg (rows_of d)). lia. }
  rewrite IH; [rewrite Hv|rewrite Hv; lia|done].
  rewrite Hrows, <- app_assoc. done.
Qed.

Lemma elem_of_stored_from r i ss :
  r ∈ stored_from i ss →
  ∃ s, s ∈ ss ∧ city r = s_city s ∧ created_at r = s_now s.
Proof.
  revert i. induction ss as [|s ss IH]; intros i Hr; simpl in Hr.
  { by apply elem_of_nil in Hr. }
  apply elem_of_cons in Hr as [->|Hr].
  - exists s. split; [by left|done].
  - destruct (IH _ Hr) as (s' & Hs' & Hc & Ht).
    exists s'. split; [by right|done].
Qed.

Lemma stored_from_increasing c i ss :
  StronglySorted (λ a b, s_now a < s_now b) (filter (λ s, s_city s = c) ss) →
  StronglySorted (λ a b, created_at a < created_at b)
    (where_city c (stored_from i ss)).
Proof.
  revert i. induction ss as [|s ss IH]; intros i Hss; [constructor|].
  simpl stored_from. unfold where_city in *.
  rewrite filter_cons in Hss. rewrite filter_cons.
  change (city (stored i s)) with (s_city s).
  destruct (decide (s_city s = c)) as [Hc|Hc]; [|by apply IH].
  apply StronglySorted_inv in Hss as [Hss Hs].
  constructor; [by apply IH|].
  apply Forall_forall. intros r [Hrc Hr]%list_elem_of_filter.
  destruct (elem_of_stored_from _ _ _ Hr) as (s' & Hs' & Hcity & Hnow).
  rewrite Forall_forall in Hs. simpl. rewrite Hnow. apply Hs.
  apply list_elem_of_filter. split; [congruence|done].
Qed.

Lemma stored_from_same_second c t i ss :
  Forall (λ s, s_city s = c → s_now s = t) ss →
  StronglySorted (λ a b, created_at b ≤ created_at a)
    (where_city c (stored_from i ss)).
Proof.
  revert i. induction ss as [|s ss IH]; intros i Hss; [constructor|].
  apply Forall_cons in Hss as [Hs Hss].
  simpl stored_from. unfold where_city in *. rewrite filter_cons.
  change (city (stored i s)) with (s_city s).
  destruct (decide (s_city s = c)) as [Hc|Hc]; [|by apply IH].
  constructor; [by apply IH|].
  apply Forall_forall. intros r [Hrc Hr]%list_elem_of_filter.
  destruct (elem_of_stored_from _ _ _ Hr) as (s' & Hs' & Hcity & Hnow).
  rewrite Forall_forall in Hss. simpl.
  rewrite Hnow, (Hs Hc), (Hss s' Hs'); [done|congruence].
Qed.

(** C4, as the claim states it, fails: two reviews added at the times 10.5
    and 10.75, the second after the first, are listed with the first one
    first, because [CURRENT_TIMESTAMP] shows the same second for both. *)
Lemma reviews_of_one_second_are_listed_oldest_first :
  let t1 := (21 # 2)%Q in
  let t2 := (43 # 4)%Q in
  let s1 := Submission (CURRENT_TIMESTAMP t1) "Pune" 5 "a" "x" None None in
  let s2 := Submission (CURRENT_TIMESTAMP t2) "Pune" 3 "b" "y" None None in
  (t1 < t2)%Q
  ∧ (get_reviews_for_city "Pune" (final [AddReview s1; AddReview s2] None)).1
    = inr [Review 1 5 "a" "x" None None 10; Review 2 3 "b" "y" None None 10].
Proof. intros t1 t2 s1 s2. split; by vm_compute. Qed.

(** C4 (amended): [get_reviews_for_city] lists the reviews of the city by
    descending [created_at], the clock of the insert in whole seconds, and
    reviews with the same [created_at] keep the order of their insertion.
    So, when reviews of a city are added (to a store that has none for that
    city, other cities' reviews in between or not, each add accepted by the
    storage) in seconds that strictly increase, the list is these reviews in
    the reverse of the order in which they were added; when they are added
    within one second, the list is these reviews in the order in which they
    were added. *)
Theorem reviews_listed_newest_first (c : string) :
  (∀ d, ∃ l,
     (get_reviews_for_city c d).1 = inr l
     ∧ l ≡ₚ review_of_row <$> filter (λ r, city r = c) (rows_of d)
     ∧ StronglySorted (λ a b, d_created_at b ≤ d_created_at a) l
     ∧ ∀ t, filter (λ v, d_created_at v = t) l
            = review_of_row
                <$> filter (λ r, created_at r = t)
                      (filter (λ r, city r = c) (rows_of d)))
  ∧ (∀ d ss,
       let v := Z.max (seq_of d) (max_rowid (rows_of d)) in
       filter (λ r, city r = c) (rows_of d) = [] →
       v + Z.of_nat (length ss) ≤ 2 ^ 63 - 1 →
       Forall (λ s, - 2 ^ 63 ≤ s_rating s ≤ 2 ^ 63 - 1) ss →
       let added :=
         review_of_row
           <$> filter (λ r, city r = c) (stored_from (v + 1) ss) in
       (StronglySorted (λ a b, s_now a < s_now b)
          (filter (λ s, s_city s = c) ss) →
        (get_reviews_for_city c (final (AddReview <$> ss) d)).1
        = inr (reverse added))
       ∧ (∀ t, Forall (λ s, s_city s = c → s_now s = t) ss →
          (get_reviews_for_city c (final (AddReview <$> ss) d)).1
          = inr added)).
Proof.
  split.
  - intros d. rewrite get_reviews_for_city_eq. eexists. split; [done|].
    split; [by rewrite order_by_desc_perm|]. split.
    + eapply StronglySorted_fmap; [|apply (order_by_desc_sorted created_at)].
      done.
    + intros t. fold (where_city c (rows_of d)).
      rewrite <- (order_by_desc_stable created_at t (where_city c (rows_of d))).
      induction (order_by_desc created_at (where_city c (rows_of d)))
        as [|r rs IH]; [done|].
      rewrite fmap_cons, !filter_cons. simpl.
      case_decide; by rewrite IH.
  - intros d ss v Hnone Hfit Hint added.
    assert ((get_reviews_for_city c (final (AddReview <$> ss) d)).1
            = inr (review_of_row
                     <$> order_by_desc created_at
                           (where_city c (stored_from (v + 1) ss)))) as Hl.
    { rewrite get_reviews_for_city_eq, rows_of_final_adds by done.
      fold v. unfold where_city at 1. rewrite filter_app.
      rewrite Hnone. done. }
    rewrite Hl. split.
    + intros Hinc.
      rewrite order_by_desc_increasing by by apply stored_from_increasing.
      by rewrite fmap_reverse.
    + intros t Hsame.
      by rewrite order_by_desc_decreasing
        by by apply (stored_from_same_second c t).
Qed.

Lemma reviews_listed_newest_first_witness :
  (get_reviews_for_city "Pune"
     (final [AddReview (Submission 10 "Pune" 5 "a" "x" None None);
             AddReview (Submission 11 "Goa" 4 "b" "y" None None);
             AddReview (Submission 12 "Pune" 3 "c" "z" None None)] None)).1
  = inr [Review 3 3 "c" "z" None None 12; Review 1 5 "a" "x" None None 10].
Proof.
  destruct (reviews_listed_newest_first "Pune") as [_ Hseq].
  destruct (Hseq None [Submission 10 "Pune" 5 "a" "x" None None;
                       Submission 11 "Goa" 4 "b" "y" None None;
                       Submission 12 "Pune" 3 "c" "z" None None])
    as [Hrev _].
  - reflexivity.
  - vm_compute. discriminate.
  - repeat constructor; vm_compute; discriminate.
  - apply Hrev. vm_compute. repeat constructor.
Defined.

(** ** Rowids over the life of the store *)

Lemma NoDup_ids_filter (P : review_row → Prop) `{∀ r, Decision (P r)} rs :
  NoDup (id <$> rs) → NoDup (id <$> filter P rs).
Proof.
  intros Hnd. eapply sublist_NoDup; [exact Hnd|].
  apply fmap_sublist, sublist_filter.
Qed.

Lemma wf_initialized d : wf d → wf (initialized d).
Proof. unfold wf. by rewrite rows_of_initialized, seq_of_initialized. Qed.

Lemma wf_after c d : wf d → wf (after c d).
Proof.
  intros [Hnd Hseq]. destruct c as [s|i]; unfold wf.
  - rewrite rows_of_after_add, seq_of_after_add. cbv zeta.
    set (v := Z.max (seq_of d) (max_rowid (rows_of d))).
    case_decide; [|by rewrite app_nil_r].
    rewrite fmap_app. split.
    + apply NoDup_app. split; [done|]. split; [|apply NoDup_singleton].
      intros j Hj Hj'. apply list_elem_of_singleton in Hj'. simpl in Hj'.
      subst j. by apply (next_rowid_fresh d).
    + apply Forall_app. split; [|by repeat constructor].
      eapply Forall_impl; [exact Hseq|]. simpl. intros r Hr. lia.
  - rewrite rows_of_after_delete, seq_of_after_delete.
    case_decide; [|done]. split.
    + by apply NoDup_ids_filter.
    + apply Forall_forall. intros r [_ Hr]%list_elem_of_filter.
      rewrite Forall_forall in Hseq. by apply Hseq.
Qed.

Lemma seq_of_after_mono c d : seq_of d ≤ seq_of (after c d).
Proof.
  destruct c as [s|i].
  - rewrite seq_of_after_add. cbv zeta. case_decide; lia.
  - by rewrite seq_of_after_delete.
Qed.

Lemma seq_of_final_mono cs d : seq_of d ≤ seq_of (final cs d).
Proof.
  revert d. induction cs as [|c cs IH]; intros d; [done|].
  unfold final. simpl. fold (final cs (after c d)).
  pose proof (seq_of_after_mono c d). pose proof (IH (after c d)). lia.
Qed.

Lemma wf_history cs d d' : wf d → d' ∈ history cs d → wf d'.
Proof.
  revert d. induction cs as [|c cs IH]; intros d Hwf Hd'; simpl in Hd'.
  - by apply list_elem_of_singleton in Hd' as ->.
  - apply elem_of_cons in Hd' as [->|Hd']; [done|].
    eapply IH; [|done]. by apply wf_after.
Qed.

(** Every rowid that was in use at some point of a history is at most the
    counter at its end. *)
Lemma history_below_seq cs d d' r :
  wf d → d' ∈ history cs d → r ∈ rows_of d' → id r ≤ seq_of (final cs d).
Proof.
  revert d. induction cs as [|c cs IH]; intros d Hwf Hd' Hr; simpl in Hd'.
  - apply list_elem_of_singleton in Hd' as ->. destruct Hwf as [_ Hseq].
    rewrite Forall_forall in Hseq. by apply Hseq.
  - apply elem_of_cons in Hd' as [->|Hd'].
    + destruct Hwf as [_ Hseq]. rewrite Forall_forall in Hseq.
      pose proof (Hseq r Hr). pose proof (seq_of_final_mono (c :: cs) d). lia.
    + unfold final. simpl. fold (final cs (after c d)).
      apply IH; [by apply wf_after|done|done].
Qed.

(** C5: over any sequence of adds and deletes (from a store whose key is
    unique and whose rowid counter is not below a rowid in use, as SQLite
    keeps it), the ids of the reviews of the store are pairwise distinct at
    every point, and the review that an [add_review] call creates gets an id
    larger than the id of every review that was in the store at any earlier
    point, deleted since or not; the call creates such a review when the
    storage accepts it (a rating that SQLite holds, a rowid left), and no
    review otherwise. *)
Theorem ids_unique_and_never_reused (d0 : database) (cs : list call)
    (s : submission) :
  wf d0 →
  let d1 := final cs d0 in
  let d2 := after (AddReview s) d1 in
  (∀ d, d ∈ history (cs ++ [AddReview s]) d0 → NoDup (id <$> rows_of d))
  ∧ (∀ r, r ∈ rows_of d2 → r ∉ rows_of d1 →
       ∀ d r', d ∈ history cs d0 → r' ∈ rows_of d → id r' < id r)
  ∧ (- 2 ^ 63 ≤ s_rating s ≤ 2 ^ 63 - 1 →
     Z.max (seq_of d1) (max_rowid (rows_of d1)) < 2 ^ 63 - 1 →
     ∃ r, rows_of d2 = rows_of d1 ++ [r] ∧ r ∉ rows_of d1)
  ∧ (¬ (- 2 ^ 63 ≤ s_rating s ≤ 2 ^ 63 - 1
        ∧ Z.max (seq_of d1) (max_rowid (rows_of d1)) < 2 ^ 63 - 1) →
     rows_of d2 = rows_of d1).
Proof.
  intros Hwf d1 d2. split; [|split; [|split]].
  - intros d Hd. by destruct (wf_history _ _ _ Hwf Hd).
  - intros r Hr2 Hr1 d r' Hd Hr'.
    unfold d2 in Hr2. rewrite rows_of_after_add in Hr2. cbv zeta in Hr2.
    apply elem_of_app in Hr2 as [Hr2|Hr2]; [done|].
    case_decide; [|by apply elem_of_nil in Hr2].
    apply list_elem_of_singleton in Hr2 as ->. simpl.
    pose proof (history_below_seq cs d0 d r' Hwf Hd Hr') as Hbelow.
    fold d1 in Hbelow. lia.
  - intros Hint Hfree. unfold d2. rewrite rows_of_after_add. cbv zeta.
    rewrite decide_True by done. eexists. split; [done|].
    intros Hin%(list_elem_of_fmap_2 id). simpl in Hin.
    by apply (next_rowid_fresh d1).
  - intros Hno. unfold d2. rewrite rows_of_after_add. cbv zeta.
    rewrite decide_False by done. by rewrite app_nil_r.
Qed.

Lemma ids_unique_and_never_reused_witness :
  let cs := [AddReview (Submission 10 "Pune" 5 "a" "x" None None);
             DeleteReview 1] in
  let s := Submission 11 "Pune" 4 "b" "y" None None in
  rows_of (final cs None) = []
  ∧ ∃ r, rows_of (after (AddReview s) (final cs None)) = [r] ∧ 1 < id r.
Proof.
  intros cs s.
  destruct (ids_unique_and_never_reused None cs s) as (_ & Hnew & Hadd & _).
  - apply (bool_decide_unpack _). by vm_compute.
  - split; [reflexivity|].
    destruct Hadd as (r & Hr & Hfresh);
      [simpl; lia|vm_compute; reflexivity|].
    exists r. split; [exact Hr|].
    apply (Hnew r
             ltac:(rewrite Hr; apply list_elem_of_In; simpl; auto)
             Hfresh
             (after (AddReview (Submission 10 "Pune" 5 "a" "x" None None)) None)
             (Row 1 "Pune" 5 "a" "x" None None 10)).
    + apply list_elem_of_In. simpl. auto.
    + apply list_elem_of_In. simpl. auto.
Defined.

(** * Further properties of the store and of the Reviews tab *)

Import ReviewImages ReviewsTab.

(** ** How the operations of the store compose *)

Section order_by_filter.
Context {A : Type} (key : A → Z) (P : A → Prop) `{!∀ x, Decision (P x)}.

Lemma insert_desc_front (x : A) (l : list A) :
  Forall (λ y, key y ≤ key x) l → insert_desc key x l = x :: l.
Proof.
  destruct 1 as [|y l Hy _]; simpl; [done|].
  by rewrite decide_False by lia.
Qed.

Lemma filter_insert_desc (x : A) (l : list A) :
  StronglySorted (λ a b, key b ≤ key a) l →
  filter P (insert_desc key x l)
  = if decide (P x) then insert_desc key x (filter P l) else filter P l.
Proof.
  induction 1 as [|y l Hl IH Hy]; simpl.
  - rewrite filter_cons, filter_nil. by case_decide.
  - destruct (decide (key x < key y)) as [Hlt|Hge].
    + rewrite !filter_cons, IH.
      destruct (decide (P y)), (decide (P x)); simpl; try done.
      by rewrite decide_True by done.
    + rewrite !filter_cons.
      destruct (decide (P x)); [|done].
      symmetry. apply insert_desc_front.
      destruct (decide (P y)).
      * constructor; [lia|]. apply Forall_forall.
        intros z [_ Hz]%list_elem_of_filter.
        rewrite Forall_forall in Hy. specialize (Hy z Hz). simpl in Hy. lia.
      * apply Forall_forall. intros z [_ Hz]%list_elem_of_filter.
        rewrite Forall_forall in Hy. specialize (Hy z Hz). simpl in Hy. lia.
Qed.

(** Selecting rows and sorting them can be done in either order. *)
Lemma filter_order_by_desc (l : list A) :
  filter P (order_by_desc key l) = order_by_desc key (filter P l).
Proof.
  induction l as [|x l IH]; [done|].
  simpl. rewrite filter_insert_desc by apply order_by_desc_sorted.
  rewrite filter_cons. case_decide; [simpl|]; by rewrite IH.
Qed.

End order_by_filter.

Lemma where_city_filter (c : string) (P : review_row → Prop)
    `{!∀ r, Decision (P r)} (rs : list review_row) :
  where_city c (filter P rs) = filter P (where_city c rs).
Proof.
  unfold where_city. rewrite !list_filter_filter.
  apply list_filter_iff. tauto.
Qed.

Lemma filter_reviews_of_rows (P : review → Prop) `{!∀ v, Decision (P v)}
    (rs : list review_row) :
  filter P (review_of_row <$> rs)
  = review_of_row <$> filter (λ r, P (review_of_row r)) rs.
Proof.
  induction rs as [|r rs IH]; [done|].
  rewrite fmap_cons, !filter_cons. case_decide; by rewrite IH.
Qed.

(** Both read operations look at the rows of the queried city only. *)
Lemma reads_depend_on_city_rows (c : string) (d d' : database) :
  where_city c (rows_of d) = where_city c (rows_of d') →
  (get_reviews_for_city c d).1 = (get_reviews_for_city c d').1
  ∧ (get_city_rating_summary c d).1 = (get_city_rating_summary c d').1.
Proof.
  intros Heq. rewrite !get_reviews_for_city_eq.
  pose proof (get_city_rating_summary_eq c d) as Hd.
  pose proof (get_city_rating_summary_eq c d') as Hd'.
  cbv zeta in Hd, Hd'. rewrite Hd, Hd'. simpl. by rewrite Heq.
Qed.

Lemma where_city_snoc_other (c : string) (rs : list review_row)
    (r : review_row) :
  city r ≠ c → where_city c (rs ++ [r]) = where_city c rs.
Proof.
  intros Hc. unfold where_city.
  rewrite filter_app, filter_cons, decide_False by done.
  by rewrite filter_nil, app_nil_r.
Qed.

(** X1: a call that adds a review of another city, or that deletes an id
    which no review of the city [c] has, changes neither the list nor the
    summary of [c]. *)
Theorem other_reviews_do_not_interfere (c : string) (k : call)
    (d : database) :
  match k with
  | AddReview s => s_city s ≠ c
  | DeleteReview i => ∀ r, r ∈ rows_of d → id r = i → city r ≠ c
  end →
  (get_reviews_for_city c (after k d)).1 = (get_reviews_for_city c d).1
  ∧ (get_city_rating_summary c (after k d)).1
    = (get_city_rating_summary c d).1.
Proof.
  intros Hk. apply reads_depend_on_city_rows.
  destruct k as [s|i].
  - rewrite rows_of_after_add. cbv zeta.
    case_decide; [|by rewrite app_nil_r].
    by apply where_city_snoc_other.
  - rewrite rows_of_after_delete. case_decide; [|done].
    rewrite where_city_filter.
    apply filter_all, Forall_forall.
    intros r [Hc Hr]%list_elem_of_filter Hi. by apply (Hk r).
Qed.

Lemma other_reviews_do_not_interfere_witness :
  let d : database :=
    Some (Table [Row 1 "Pune" 5 "t" "x" None None 0;
                 Row 2 "Goa" 3 "u" "y" None None 1] 2) in
  (get_reviews_for_city "Pune" (after (DeleteReview 2) d)).1
  = inr [Review 1 5 "t" "x" None None 0].
Proof.
  intros d.
  destruct (other_reviews_do_not_interfere "Pune" (DeleteReview 2) d)
    as [Hl _].
  - intros r Hr Hi Hc.
    apply list_elem_of_In in Hr. simpl in Hr.
    destruct Hr as [<-|[<-|[]]]; discriminate.
  - rewrite Hl. reflexivity.
Defined.

(** X2: adding a review that the storage accepts (a rating that SQLite
    holds, a rowid left) and then deleting the id it was given restores the
    rows, hence every list and every summary, but not the rowid counter:
    the id stays used and the next review gets the one after it. *)
Theorem add_then_delete_restores (s : submission) (d : database) :
  let i := Z.max (seq_of d) (max_rowid (rows_of d)) + 1 in
  - 2 ^ 63 ≤ s_rating s ≤ 2 ^ 63 - 1 →
  i ≤ 2 ^ 63 - 1 →
  let d' := after (DeleteReview i) (after (AddReview s) d) in
  rows_of (after (AddReview s) d) = rows_of d ++ [stored i s]
  ∧ rows_of d' = rows_of d
  ∧ seq_of d' = i
  ∧ Z.max (seq_of d') (max_rowid (rows_of d')) + 1 = i + 1
  ∧ ∀ c, (get_reviews_for_city c d').1 = (get_reviews_for_city c d).1
         ∧ (get_city_rating_summary c d').1
           = (get_city_rating_summary c d).1.
Proof.
  intros i Hr Hi d'.
  pose proof (max_rowid_nonneg (rows_of d)) as Hnn.
  assert (rows_of (after (AddReview s) d) = rows_of d ++ [stored i s])
    as Hadd.
  { rewrite rows_of_after_add. cbv zeta.
    by rewrite decide_True
      by (split; [done|unfold MAX_ROWID, i in *; lia]). }
  assert (rows_of d' = rows_of d) as Hrows.
  { unfold d'. rewrite rows_of_after_delete.
    rewrite decide_True by (unfold fits_integer, i in *; lia).
    rewrite Hadd, filter_app.
    rewrite filter_id_ne_absent by apply next_rowid_fresh.
    rewrite filter_cons, decide_False by (by intros []).
    by rewrite filter_nil, app_nil_r. }
  assert (seq_of d' = i) as Hseq.
  { unfold d'. rewrite seq_of_after_delete, seq_of_after_add. cbv zeta.
    by rewrite decide_True
      by (split; [done|unfold MAX_ROWID, i in *; lia]). }
  split; [done|]. split; [done|]. split; [done|]. split.
  - rewrite Hseq, Hrows. unfold i. lia.
  - intros c. apply reads_depend_on_city_rows. by rewrite Hrows.
Qed.

Lemma add_then_delete_restores_witness :
  let d : database := Some (Table [Row 1 "Pune" 5 "t" "x" None None 0] 1) in
  let s := Submission 3 "Pune" 2 "u" "y" None None in
  rows_of (after (DeleteReview 2) (after (AddReview s) d)) = rows_of d
  ∧ seq_of (after (DeleteReview 2) (after (AddReview s) d)) = 2.
Proof.
  intros d s.
  destruct (add_then_delete_restores s d) as (_ & Hrows & Hseq & _).
  - simpl. lia.
  - vm_compute. discriminate.
  - split; [exact Hrows|exact Hseq].
Defined.

(** X3: deleting an id twice is the same as deleting it once, and two
    deletes can be done in either order: the store ends in the same
    state. *)
Theorem delete_review_idempotent_and_commutes (i j : Z) (d : database) :
  after (DeleteReview i) (after (DeleteReview i) d) = after (DeleteReview i) d
  ∧ after (DeleteReview i) (after (DeleteReview j) d)
    = after (DeleteReview j) (after (DeleteReview i) d).
Proof.
  unfold after, run. rewrite !delete_review_eq.
  destruct (decide (fits_integer i)), (decide (fits_integer j)); simpl;
    rewrite ?list_filter_filter; split; try done;
    try (by destruct d); do 2 f_equal; apply list_filter_iff; tauto.
Qed.

Lemma count_rating_perm (k : Z) (rs rs' : list review_row) :
  rs ≡ₚ rs' → count_rating k rs = count_rating k rs'.
Proof. intros Hp. unfold count_rating. by rewrite Hp. Qed.

Lemma NoDup_ids_sorted_city (c : string) (d : database) :
  wf d →
  NoDup (id <$> order_by_desc created_at (where_city c (rows_of d))).
Proof.
  intros [Hnd _]. rewrite order_by_desc_perm. by apply NoDup_ids_filter.
Qed.

(** X4: deleting a review of the city [c] (its id is one that SQLite holds,
    as every id of a stored row is) takes exactly that review out of the
    list of [c]; the reviews before it and after it stay in their order, the
    total of the summary drops by one, the count of its rating drops by one
    and the other counts stay. *)
Theorem delete_review_updates_list_and_summary (c : string) (r : review_row)
    (d : database) :
  wf d → r ∈ rows_of d → city r = c → - 2 ^ 63 ≤ id r ≤ 2 ^ 63 - 1 →
  let d' := after (DeleteReview (id r)) d in
  ∃ l1 l2 S A T S' A' T',
    (get_reviews_for_city c d).1 = inr (l1 ++ review_of_row r :: l2)
    ∧ (get_reviews_for_city c d').1 = inr (l1 ++ l2)
    ∧ (get_city_rating_summary c d).1 = inr (S, A, T)
    ∧ (get_city_rating_summary c d').1 = inr (S', A', T')
    ∧ T' = T - 1
    ∧ default 0 (S' !! rating r) = default 0 (S !! rating r) - 1
    ∧ ∀ k, k ≠ rating r → default 0 (S' !! k) = default 0 (S !! k).
Proof.
  intros Hwf Hr Hc Hid d'.
  set (rs := where_city c (rows_of d)).
  set (sorted := order_by_desc created_at rs).
  assert (r ∈ sorted) as Hin.
  { unfold sorted. rewrite order_by_desc_perm. by apply list_elem_of_filter. }
  destruct (list_elem_of_split _ _ Hin) as (s1 & s2 & Hsplit).
  pose proof (NoDup_ids_sorted_city c d Hwf) as Hnd.
  fold rs in Hnd. fold sorted in Hnd. rewrite Hsplit in Hnd.
  assert (where_city c (rows_of d') = filter (λ r', id r' ≠ id r) rs) as Hrs'.
  { unfold d'. rewrite rows_of_after_delete, decide_True by done.
    by rewrite where_city_filter. }
  assert (order_by_desc created_at (where_city c (rows_of d')) = s1 ++ s2)
    as Hsorted'.
  { rewrite Hrs', <- filter_order_by_desc. fold sorted. rewrite Hsplit.
    by apply filter_id_ne_present. }
  assert (rs ≡ₚ s1 ++ r :: s2) as Hp.
  { rewrite <- Hsplit. unfold sorted. by rewrite order_by_desc_perm. }
  assert (where_city c (rows_of d') ≡ₚ s1 ++ s2) as Hp'.
  { rewrite <- Hsorted'. by rewrite order_by_desc_perm. }
  rewrite !get_reviews_for_city_eq.
  pose proof (get_city_rating_summary_eq c d) as Heq.
  pose proof (get_city_rating_summary_eq c d') as Heq'.
  cbv zeta in Heq, Heq'. rewrite Heq, Heq'.
  exists (review_of_row <$> s1), (review_of_row <$> s2).
  eexists _, _, _, _, _, _.
  split; [cbn [fst]; fold rs; fold sorted; by rewrite Hsplit, fmap_app|].
  split; [cbn [fst]; by rewrite Hsorted', fmap_app|].
  split; [done|]. split; [done|]. fold rs. split; [|split].
  - rewrite Hp, Hp', !length_app. simpl. lia.
  - rewrite !summary_default_count.
    rewrite (count_rating_perm _ _ _ Hp), (count_rating_perm _ _ _ Hp').
    rewrite !count_rating_app, count_rating_cons.
    rewrite decide_True by done. lia.
  - intros k Hk. rewrite !summary_default_count.
    rewrite (count_rating_perm _ _ _ Hp), (count_rating_perm _ _ _ Hp').
    rewrite !count_rating_app, count_rating_cons.
    rewrite decide_False by done. lia.
Qed.

Lemma delete_review_updates_list_and_summary_witness :
  let d : database :=
    Some (Table [Row 1 "Pune" 5 "a" "x" None None 3;
                 Row 2 "Pune" 4 "b" "y" None None 4;
                 Row 3 "Pune" 5 "c" "z" None None 5] 3) in
  ∃ l1 l2,
    (get_reviews_for_city "Pune" d).1
    = inr (l1 ++ Review 2 4 "b" "y" None None 4 :: l2)
    ∧ (get_reviews_for_city "Pune" (after (DeleteReview 2) d)).1
      = inr (l1 ++ l2).
Proof.
  intros d.
  destruct (delete_review_updates_list_and_summary "Pune"
              (Row 2 "Pune" 4 "b" "y" None None 4) d)
    as (l1 & l2 & S & A & T & S' & A' & T' & Hl & Hl' & _).
  - apply (bool_decide_unpack _). by vm_compute.
  - apply list_elem_of_In. simpl. auto.
  - reflexivity.
  - simpl. lia.
  - exists l1, l2. split; [exact Hl|exact Hl'].
Defined.

(** ** Bounds of the average *)

(** X5: whatever ratings the store holds, the average of a summary lies
    between 0 and 5; when the city has reviews and all their ratings are in
    1..5, the average is at least 1 and is the float nearest to their
    mean. *)
Theorem average_is_between_0_and_5 (c : string) (d : database) :
  let rs := filter (λ r, city r = c) (rows_of d) in
  ∃ S A T,
    (get_city_rating_summary c d).1 = inr (S, A, T)
    ∧ (0 <= A)%Q ∧ (A <= 5)%Q
    ∧ (0 < T → Forall in_range rs →
       let mean := (inject_Z (sum_ratings rs) / inject_Z T)%Q in
       (1 <= A)%Q
       ∧ A = Py.round_double mean
       ∧ (Qabs (A - mean) <= mean * 2 ^ (-53) + 2 ^ (-1075))%Q).
Proof.
  intros rs.
  pose proof (get_city_rating_summary_eq c d) as Heq. cbv zeta in Heq.
  fold (where_city c (rows_of d)) in rs.
  fold rs in Heq. rewrite Heq. eexists _, _, _. split; [done|].
  pose proof (sum_ratings_bounds _ (in_range_filter rs)) as [Hlo Hhi].
  pose proof (length_filter in_range rs) as Hlen.
  destruct (decide (0 < Z.of_nat (length rs))) as [Hpos|Hzero].
  - assert (0 < inject_Z (Z.of_nat (length rs)))%Q as HposQ.
    { change 0%Q with (inject_Z 0). by rewrite <- Zlt_Qlt. }
    set (x := (inject_Z (sum_ratings (filter in_range rs))
               / inject_Z (Z.of_nat (length rs)))%Q).
    assert (0 <= x)%Q as Hx0.
    { apply Qle_shift_div_l; [done|]. rewrite Qmult_0_l.
      change 0%Q with (inject_Z 0). rewrite <- Zle_Qle. lia. }
    assert (x <= inject_Z 5)%Q as Hx5.
    { apply Qle_shift_div_r; [done|].
      rewrite <- inject_Z_mult, <- Zle_Qle. lia. }
    split; [by apply round_double_nonneg|]. split.
    + destruct (Qlt_le_dec 0 x) as [Hx|Hx].
      * by apply (round_double_le _ 5).
      * rewrite round_double_zero; [done|]. by apply Qle_antisym.
    + intros _ Hall. cbv zeta. subst x.
      rewrite (filter_all in_range rs Hall) in *.
      assert (inject_Z 1 <= inject_Z (sum_ratings rs)
                            / inject_Z (Z.of_nat (length rs)))%Q as Hx1.
      { apply Qle_shift_div_l; [done|].
        rewrite <- inject_Z_mult, <- Zle_Qle. lia. }
      split; [|split; [done|by apply round_double_error0]].
      apply (round_double_ge _ 1); [|done|].
      * apply Qlt_le_trans with (inject_Z 1); [reflexivity|done].
      * apply Qle_lt_trans with (inject_Z 5); [done|reflexivity].
  - split; [done|]. split; [done|]. intros Hpos. lia.
Qed.

(** ** The review form *)

Lemma lstrip_empty (s : string) :
  Str.lstrip s = EmptyString ↔ Str.blank s = true.
Proof.
  induction s as [|c s IH]; simpl; [done|].
  destruct (Str.isspace c); simpl; [done|]. split; discriminate.
Qed.

Lemma rstrip_empty (s : string) :
  Str.rstrip s = EmptyString ↔ Str.blank s = true.
Proof.
  induction s as [|c s IH]; simpl; [done|].
  destruct (Str.rstrip s) as [|c' t].
  - destruct (Str.isspace c); simpl; [|split; discriminate].
    split; [intros _; by apply IH|done].
  - split; [discriminate|]. intros [_ Hs]%andb_prop.
    apply IH in Hs. discriminate.
Qed.

Lemma rstrip_blank (s : string) :
  Str.blank (Str.rstrip s) = true → Str.rstrip s = EmptyString.
Proof.
  induction s as [|c s IH]; simpl; [done|].
  destruct (Str.rstrip s) as [|c' t].
  - destruct (Str.isspace c) eqn:Hc; simpl; [done|]. by rewrite Hc.
  - simpl. intros [_ Ht]%andb_prop. by apply IH in Ht.
Qed.

(** [not s.strip()] holds for the blank strings and for no other. *)
Lemma falsy_strip (s : string) : Str.falsy (Str.strip s) = Str.blank s.
Proof.
  unfold Str.falsy, Str.strip.
  destruct (Str.blank s) eqn:Hs.
  - apply rstrip_empty in Hs. rewrite Hs. done.
  - apply bool_decide_eq_false. intros Hl%lstrip_empty.
    apply rstrip_blank, rstrip_empty in Hl. congruence.
Qed.

Lemma submit_review_state `{Pillow} now c r t x final fname d :
  (submit_review now c r t x final fname d).2
  = (add_review now c r t x (process_photo final).1 fname d).2.
Proof.
  unfold submit_review. destruct (process_photo final) as [p shown].
  simpl. by destruct (add_review now c r t x p fname d) as [[e|v] d'].
Qed.

(** The store after the form: an add when the preview went through and the
    button was pressed with a title and a text that are not blank, no
    change otherwise. *)
Lemma review_form_block_state `{Streamlit} now stamp city f d :
  (review_form_block now stamp city f d).2
  = if preview (choose_photo stamp f).1.1 && submit_button f
       && negb (Str.blank (review_title f))
       && negb (Str.blank (form_text f))
    then (add_review now city (star_rating f) (review_title f) (form_text f)
            (process_photo (choose_photo stamp f).1.1).1
            (choose_photo stamp f).1.2 d).2
    else d.
Proof.
  unfold review_form_block.
  destruct (choose_photo stamp f) as [[final fname] shown]. simpl.
  rewrite !falsy_strip.
  destruct (preview final); [|done].
  destruct (submit_button f); [|done].
  destruct (Str.blank (review_title f)); [done|].
  destruct (Str.blank (form_text f)); [done|]. simpl.
  rewrite <- submit_review_state.
  by destruct (submit_review _ _ _ _ _ _ _ _).
Qed.

(** The form raises exactly when the preview does. *)
Lemma review_form_block_raises `{Streamlit} now stamp city f d :
  (review_form_block now stamp city f d).1
  = (if preview (choose_photo stamp f).1.1
     then inr (match (review_form_block now stamp city f d).1 with
               | inr msgs => msgs
               | inl _ => []
               end)
     else inl st_image_raised).
Proof.
  unfold review_form_block.
  destruct (choose_photo stamp f) as [[final fname] shown]. simpl.
  destruct (preview final); [|done].
  destruct (submit_button f); [|done].
  destruct (Str.falsy _); [done|]. destruct (Str.falsy _); [done|].
  by destruct (submit_review _ _ _ _ _ _ _ _).
Qed.

(** X6: the form leaves the store exactly as it is unless the submit button
    was pressed with a title and a text that are not blank: a title or a
    text that is empty or white space only is refused with a message and
    nothing is stored. *)
Theorem blank_title_or_text_is_not_stored `{Streamlit} (now : Z)
    (stamp city : string) (f : review_form) (d : database) :
  submit_button f = false ∨ Str.blank (review_title f) = true
  ∨ Str.blank (form_text f) = true →
  (review_form_block now stamp city f d).2 = d
  ∧ (submit_button f = true → preview (choose_photo stamp f).1.1 = true →
     ∃ shown refusal,
       (review_form_block now stamp city f d).1 = inr (shown ++ [refusal])
       ∧ (refusal = please_enter_a_review_title
          ∨ refusal = please_write_a_review)
       ∧ ∀ m, from_submit m ∉ shown).
Proof.
  intros Hcase. split.
  - rewrite review_form_block_state.
    destruct Hcase as [->|[-> | ->]]; by rewrite ?andb_false_r.
  - intros Hsub Hprev. unfold review_form_block.
    assert (∀ m, from_submit m ∉ (choose_photo stamp f).2) as Hshown.
    { intros m. unfold choose_photo.
      destruct (camera_photo f), (uploaded_photo f); simpl; intros Hin;
        first [by apply elem_of_nil in Hin
              |apply list_elem_of_singleton in Hin; discriminate]. }
    destruct (choose_photo stamp f) as [[final fname] shown].
    simpl in Hprev. rewrite Hprev, Hsub, !falsy_strip.
    destruct Hcase as [Hno|[Ht|Hx]]; [congruence|..].
    + rewrite Ht. eexists _, _. split; [done|]. split; [by left|done].
    + rewrite Hx. destruct (Str.blank (review_title f)).
      * eexists _, _. split; [done|]. split; [by left|done].
      * eexists _, _. split; [done|]. split; [by right|done].
Qed.

Lemma blank_title_or_text_is_not_stored_witness :
  let d : database := Some (Table [Row 1 "Pune" 5 "t" "x" None None 0] 1) in
  let f := ReviewForm "   " 4 "fine" None None true in
  (@review_form_block _ marker_streamlit 9 "20250101_000000" "Pune" f d).2 = d.
Proof.
  intros d f.
  destruct (@blank_title_or_text_is_not_stored _ marker_streamlit 9
              "20250101_000000" "Pune" f d) as [Hd _].
  - right. left. reflexivity.
  - exact Hd.
Defined.

Lemma add_review_rows now c r t x p f d :
  let v := Z.max (seq_of d) (max_rowid (rows_of d)) in
  rows_of (add_review now c r t x p f d).2
  = rows_of d
    ++ (if decide (fits_integer r ∧ v < MAX_ROWID)
        then [Row (v + 1) c r t x p f now] else []).
Proof.
  intros v.
  apply (rows_of_after_add (Submission now c r t x p f) d).
Qed.

(** X7: a form that is submitted with a title and a text that are not blank
    (and whose photo, if any, the preview could show; its rating is an
    integer that SQLite holds, as the options 5..1 of the select box are)
    stores one review for the current city with the rating, the title and
    the text as they were entered (not stripped).  A camera photo goes before an uploaded one:
    with a camera photo the file name is the generated camera name, and the
    uploaded file is used, under its own name, only when there is no camera
    photo; without either, no photo and no file name are stored. *)
Theorem accepted_form_is_stored_as_entered `{Streamlit} (now : Z)
    (stamp city : string) (f : review_form) (d : database) :
  preview (choose_photo stamp f).1.1 = true →
  submit_button f = true →
  Str.blank (review_title f) = false →
  Str.blank (form_text f) = false →
  - 2 ^ 63 ≤ star_rating f ≤ 2 ^ 63 - 1 →
  let i := Z.max (seq_of d) (max_rowid (rows_of d)) + 1 in
  i ≤ MAX_ROWID →
  ∃ p fn,
    rows_of (review_form_block now stamp city f d).2
    = rows_of d
      ++ [Row i city (star_rating f) (review_title f) (form_text f) p fn now]
    ∧ (∀ b, camera_photo f = Some b →
         p = (process_photo (Some b)).1 ∧ fn = Some (camera_filename stamp))
    ∧ (∀ u, camera_photo f = None → uploaded_photo f = Some u →
         p = (process_photo (Some (read u))).1 ∧ fn = Some (name u))
    ∧ (camera_photo f = None → uploaded_photo f = None →
         p = None ∧ fn = None).
Proof.
  intros Hprev Hsub Ht Hx Hr i Hi.
  rewrite review_form_block_state, Hprev, Hsub, Ht, Hx. simpl andb. cbv iota.
  rewrite add_review_rows. cbv zeta.
  rewrite decide_True by (split; [done|unfold i in Hi; lia]). fold i.
  eexists _, _. split; [done|].
  unfold choose_photo.
  split; [|split].
  - intros b ->. done.
  - intros u -> ->. done.
  - intros -> ->. done.
Qed.

Lemma accepted_form_is_stored_as_entered_witness :
  let f := ReviewForm " Nice " 4 "Good place"
             (Some (UploadedFile [xff; x01] "p.png")) (Some [xff; x02]) true in
  rows_of (@review_form_block _ marker_streamlit 9 "20250101_000000" "Pune"
             f None).2
  = [Row 1 "Pune" 4 " Nice " "Good place" (Some [xff; x02])
       (Some "camera_20250101_000000.jpg"%string) 9].
Proof.
  intros f.
  destruct (@accepted_form_is_stored_as_entered _ marker_streamlit 9
              "20250101_000000" "Pune" f None)
    as (p & fn & Hrows & Hcam & _).
  - reflexivity.
  - reflexivity.
  - reflexivity.
  - reflexivity.
  - simpl. lia.
  - vm_compute. discriminate.
  - destruct (Hcam [xff; x02] eq_refl) as [-> ->]. exact Hrows.
Defined.

Lemma in_rating_options (k : Z) : k ∈ rating_options ↔ 1 ≤ k ≤ 5.
Proof.
  unfold rating_options. rewrite !elem_of_cons, elem_of_nil. lia.
Qed.

Lemma summary_dom_in_range (rs : list review_row) :
  Forall in_range rs →
  dom (fill_summary (group_by_rating rs) initial_summary)
  = list_to_set rating_options.
Proof.
  intros Hall. apply set_eq. intros k.
  rewrite elem_of_dom, summary_lookup, elem_of_list_to_set, in_rating_options.
  case_decide as Hk.
  - split; [intros _|by eauto].
    destruct Hk as [Hk|(r & -> & Hr)%list_elem_of_fmap]; [done|].
    rewrite Forall_forall in Hall. by apply Hall.
  - split; [by intros []|]. intros Hk'. destruct Hk. by left.
Qed.

(** X8: when every review comes from the form (whose select box offers the
    ratings 5, 4, 3, 2, 1), every row of the store has a rating in 1..5 and
    a title and a text that are not blank; then the summary of every city
    has the five keys 1..5 and no other, and its average, for a city that
    has reviews, is the float nearest to the mean of the ratings of the
    city's reviews and lies between 1 and 5. *)
Theorem forms_only_store_valid_reviews `{Streamlit}
    (runs : list (Z * string * string * review_form)) (d0 : database) :
  Forall (λ run, star_rating run.2 ∈ rating_options) runs →
  Forall (λ r, in_range r ∧ Str.blank (title r) = false
               ∧ Str.blank (Sqlite.review_text r) = false) (rows_of d0) →
  let d := after_forms runs d0 in
  Forall (λ r, in_range r ∧ Str.blank (title r) = false
               ∧ Str.blank (Sqlite.review_text r) = false) (rows_of d)
  ∧ ∀ c,
      let rs := filter (λ r, city r = c) (rows_of d) in
      ∃ S A T,
        (get_city_rating_summary c d).1 = inr (S, A, T)
        ∧ dom S = list_to_set rating_options
        ∧ T = Z.of_nat (length rs)
        ∧ (0 < T →
           A = Py.round_double (inject_Z (sum_ratings rs) / inject_Z T)
           ∧ (1 <= A)%Q ∧ (A <= 5)%Q)
        ∧ (T = 0 → A = 0%Q).
Proof.
  intros Hruns Hd0 d.
  assert (Forall (λ r, in_range r ∧ Str.blank (title r) = false
                       ∧ Str.blank (Sqlite.review_text r) = false)
            (rows_of d)) as Hgood.
  { unfold d, after_forms. clear d. revert d0 Hd0.
    induction Hruns as [|[[[now stamp] city] f] runs Hf _ IH];
      intros d0 Hd0; [done|].
    simpl. apply IH. rewrite review_form_block_state.
    destruct (preview (choose_photo stamp f).1.1 && submit_button f
              && negb (Str.blank (review_title f))
              && negb (Str.blank (form_text f))) eqn:Hacc; [|done].
    apply andb_prop in Hacc as [[_ Ht]%andb_prop Hx].
    apply negb_true_iff in Ht, Hx.
    rewrite add_review_rows. cbv zeta. apply Forall_app. split; [done|].
    case_decide; [|constructor].
    apply Forall_singleton. split; [|by split].
    unfold in_range. simpl. by apply in_rating_options. }
  split; [done|]. intros c rs.
  fold (where_city c (rows_of d)) in rs.
  assert (Forall in_range rs) as Hall.
  { apply Forall_forall. intros r [_ Hr]%list_elem_of_filter.
    rewrite Forall_forall in Hgood. by apply Hgood. }
  pose proof (get_city_rating_summary_eq c d) as Heq. cbv zeta in Heq.
  fold rs in Heq.
  rewrite Heq. eexists _, _, _. split; [done|].
  split; [by apply summary_dom_in_range|]. split; [done|].
  rewrite (filter_all in_range _ Hall).
  pose proof (sum_ratings_bounds _ Hall) as [Hlo Hhi].
  split.
  - intros Hpos. rewrite decide_True by done. split; [done|].
    assert (0 < inject_Z (Z.of_nat (length rs)))%Q as HposQ.
    { change 0%Q with (inject_Z 0). by rewrite <- Zlt_Qlt. }
    assert (inject_Z 1 <= inject_Z (sum_ratings rs)
                          / inject_Z (Z.of_nat (length rs)))%Q as Hx1.
    { apply Qle_shift_div_l; [done|].
      rewrite <- inject_Z_mult, <- Zle_Qle. lia. }
    assert (inject_Z (sum_ratings rs) / inject_Z (Z.of_nat (length rs))
            <= inject_Z 5)%Q as Hx5.
    { apply Qle_shift_div_r; [done|].
      rewrite <- inject_Z_mult, <- Zle_Qle. lia. }
    assert (0 < inject_Z (sum_ratings rs)
                / inject_Z (Z.of_nat (length rs)))%Q as Hx0.
    { apply Qlt_le_trans with (inject_Z 1); [reflexivity|done]. }
    split.
    + apply (round_double_ge _ 1); [done|done|].
      apply Qle_lt_trans with (inject_Z 5); [done|reflexivity].
    + by apply (round_double_le _ 5).
  - intros Hz. by rewrite decide_False by lia.
Qed.

Lemma forms_only_store_valid_reviews_witness :
  let runs :=
    [(9, "s1"%string, "Pune"%string, ReviewForm "Nice" 4 "ok" None None true);
     (10, "s2"%string, "Pune"%string, ReviewForm "" 5 "ok" None None true);
     (11, "s3"%string, "Pune"%string, ReviewForm "Bad" 1 "no" None None true)] in
  ∃ S A T,
    (get_city_rating_summary "Pune"
       (@after_forms _ marker_streamlit runs None)).1
    = inr (S, A, T)
    ∧ T = 2
    ∧ (A == 5 # 2)%Q.
Proof.
  intros runs.
  destruct (@forms_only_store_valid_reviews _ marker_streamlit runs None)
    as [_ Hsum].
  - unfold runs. repeat constructor; simpl; apply in_rating_options; lia.
  - constructor.
  - destruct (Hsum "Pune"%string) as (S & A & T & HS & _ & HT & HA & _).
    exists S, A, T. split; [exact HS|].
    assert (T = 2) as HT2 by (rewrite HT; reflexivity).
    split; [exact HT2|].
    destruct HA as [-> _]; [lia|]. rewrite HT. vm_compute. reflexivity.
Defined.

(** ** The list of the tab: filter, keys, photos *)

Lemma filtered_reviews_rows (k : Z) (rs : list review_row) :
  k ≠ 0 →
  filtered_reviews k (review_of_row <$> rs)
  = review_of_row <$> filter (λ r, rating r = k) rs.
Proof.
  intros Hk. unfold filtered_reviews. rewrite decide_False by done.
  by rewrite filter_reviews_of_rows.
Qed.

Lemma filtered_reviews_sublist (k : Z) (l : list review) :
  filtered_reviews k l `sublist_of` l.
Proof.
  unfold filtered_reviews. case_decide; [done|]. apply sublist_filter.
Qed.

(** X9: the rating filter of the tab agrees with the summary: for each of
    the ratings 5, 4, 3, 2, 1 the number of reviews shown under that filter
    is the count the summary has for that rating; the filter value 0 shows
    the whole list; every filter keeps the order of the list; and a review
    whose rating is outside 1..5 is shown under the value 0 only. *)
Theorem rating_filter_agrees_with_summary (c : string) (d : database) :
  ∃ l S A T,
    (get_reviews_for_city c d).1 = inr l
    ∧ (get_city_rating_summary c d).1 = inr (S, A, T)
    ∧ filtered_reviews 0 l = l
    ∧ (∀ k, k ∈ rating_options →
         S !! k = Some (Z.of_nat (length (filtered_reviews k l))))
    ∧ (∀ k, filtered_reviews k l `sublist_of` l)
    ∧ (∀ v k, v ∈ l → ¬ (1 ≤ d_rating v ≤ 5) → k ∈ filter_options →
         v ∈ filtered_reviews k l ↔ k = 0).
Proof.
  rewrite get_reviews_for_city_eq.
  pose proof (get_city_rating_summary_eq c d) as Heq. cbv zeta in Heq.
  rewrite Heq. eexists _, _, _, _. split; [done|]. split; [done|].
  split; [done|]. split; [|split].
  - intros k Hk%in_rating_options.
    rewrite summary_five_keys by done.
    rewrite filtered_reviews_rows by lia.
    rewrite length_fmap. unfold count_rating. do 2 f_equal.
    by rewrite order_by_desc_perm.
  - intros k. apply filtered_reviews_sublist.
  - intros v k Hv Hout Hk. unfold filtered_reviews.
    destruct (decide (k = 0)) as [->|Hk0]; [done|].
    rewrite list_elem_of_filter. split; [|done].
    intros [Hrating _]. destruct Hout.
    unfold filter_options in Hk. rewrite !elem_of_cons, elem_of_nil in Hk.
    lia.
Qed.

Lemma delete_key_inj (v v' : review) :
  delete_key v = delete_key v' → d_id v = d_id v'.
Proof.
  unfold delete_key. intros Heq. simpl in Heq. injection Heq as Heq.
  by apply (inj pretty).
Qed.

Lemma NoDup_ids_listed (c : string) (d : database) :
  wf d →
  NoDup (d_id <$> (review_of_row
                     <$> order_by_desc created_at (where_city c (rows_of d)))).
Proof.
  intros Hwf. rewrite <- list_fmap_compose.
  by apply NoDup_ids_sorted_city.
Qed.

(** X10: the keys ["delete_<id>"] of the delete buttons of the reviews that
    the tab shows, under any filter, are pairwise distinct, so no two
    buttons of a page share a key. *)
Theorem delete_keys_are_distinct (c : string) (k : Z) (d : database) :
  wf d →
  ∃ l,
    (get_reviews_for_city c d).1 = inr l
    ∧ NoDup (delete_key <$> filtered_reviews k l).
Proof.
  intros Hwf. rewrite get_reviews_for_city_eq. eexists. split; [done|].
  apply (NoDup_fmap_2_strong delete_key).
  - intros v v' Hv Hv' Hkey.
    apply (λ H, elem_of_sublist _ _ _ H (filtered_reviews_sublist _ _)) in Hv.
    apply (λ H, elem_of_sublist _ _ _ H (filtered_reviews_sublist _ _)) in Hv'.
    apply delete_key_inj in Hkey.
    apply list_elem_of_fmap in Hv as (r & -> & Hr).
    apply list_elem_of_fmap in Hv' as (r' & -> & Hr').
    f_equal. eapply unique_row; [by apply NoDup_ids_sorted_city|done..].
  - eapply sublist_NoDup; [|apply filtered_reviews_sublist].
    eapply NoDup_fmap_1. by apply NoDup_ids_listed.
Qed.

Lemma delete_keys_are_distinct_witness :
  let d : database :=
    Some (Table [Row 1 "Pune" 5 "a" "x" None None 3;
                 Row 12 "Pune" 5 "b" "y" None None 4] 12) in
  ∃ l,
    (get_reviews_for_city "Pune" d).1 = inr l
    ∧ NoDup (delete_key <$> filtered_reviews 5 l).
Proof.
  intros d. apply (delete_keys_are_distinct "Pune" 5 d).
  apply (bool_decide_unpack _). by vm_compute.
Defined.

Lemma or_else_not_empty (a : option string) (b : string) :
  b ≠ EmptyString → Str.or_else a b ≠ EmptyString.
Proof.
  intros Hb. unfold Str.or_else, Str.falsy. destruct a as [s|]; [|done].
  case_bool_decide; done.
Qed.

Lemma process_photo_saved `{Pillow} (final : option bytes) (b : bytes) :
  (process_photo final).1 = Some b →
  ∃ b0 img img',
    final = Some b0 ∧ Image_open b0 = Some img
    ∧ thumbnail max_size LANCZOS img = Some img'
    ∧ save_jpeg 85 img' = Some b.
Proof.
  unfold process_photo. destruct final as [b0|]; [|done].
  destruct (Image_open b0) as [img|] eqn:Hopen; [|done]. simpl.
  destruct (thumbnail max_size LANCZOS img) as [img'|] eqn:Hthumb; [|done].
  simpl. destruct (save_jpeg 85 img') as [b'|] eqn:Hsave; [|done].
  simpl. intros [= ->]. eauto 10.
Qed.

(** X11: the photo of a review that the form has just stored (with a
    rating that SQLite holds, as the options of the select box are) can be
    opened again when the tab shows the review, provided the imaging library
    can open what the form made it write: the card then shows the photo unless
    [st.image] itself refuses it; the caption is the stored file name, or
    "Review Photo" when there is none, and is never empty; a review stored
    without photo data shows no photo and no warning. *)
Theorem stored_photo_is_displayed `{Streamlit} (now : Z) (c : string)
    (r : Z) (t x : string) (final : option bytes) (fname : option string)
    (d : database) :
  (∀ b0 img img' b,
     Image_open b0 = Some img → thumbnail max_size LANCZOS img = Some img' →
     save_jpeg 85 img' = Some b → is_Some (Image_open b)) →
  - 2 ^ 63 ≤ r ≤ 2 ^ 63 - 1 →
  let i := Z.max (seq_of d) (max_rowid (rows_of d)) + 1 in
  i ≤ MAX_ROWID →
  ∃ l v,
    (get_reviews_for_city c (submit_review now c r t x final fname d).2).1
    = inr l
    ∧ v ∈ l ∧ d_id v = i
    ∧ d_photo_data v = (process_photo final).1
    ∧ (d_photo_data v = None → show_photo v = no_photo)
    ∧ (∀ b, d_photo_data v = Some b →
         ∃ img, Image_open b = Some img
                ∧ show_photo v
                  = (if st_image img
                     then photo img (Str.or_else fname "Review Photo")
                     else could_not_display_image)
                ∧ Str.or_else fname "Review Photo" ≠ EmptyString).
Proof.
  intros Hlib Hr i Hi.
  set (p := (process_photo final).1).
  set (row := Row i c r t x p fname now).
  assert (rows_of (submit_review now c r t x final fname d).2
          = rows_of d ++ [row]) as Hrows.
  { rewrite submit_review_state, add_review_rows. cbv zeta.
    by rewrite decide_True by (split; [done|unfold i in Hi; lia]). }
  rewrite get_reviews_for_city_eq, Hrows.
  exists (review_of_row
            <$> order_by_desc created_at (where_city c (rows_of d ++ [row]))),
    (review_of_row row).
  split; [done|]. split.
  { apply list_elem_of_fmap_2. rewrite order_by_desc_perm.
    apply list_elem_of_filter. split; [done|].
    apply elem_of_app. right. by left. }
  split; [done|]. split; [done|].
  unfold show_photo, load_image_from_bytes. simpl.
  destruct p as [b|] eqn:Hp; [|by split].
  destruct (process_photo_saved final b Hp)
    as (b0 & img & img' & _ & Hopen & Hthumb & Hsave).
  destruct (Hlib _ _ _ _ Hopen Hthumb Hsave) as [img'' Hopen'].
  rewrite Hopen'. split; [done|].
  intros b' [= <-]. exists img''. rewrite Hopen'.
  split; [done|]. split; [done|]. by apply or_else_not_empty.
Qed.

Lemma stored_photo_is_displayed_witness :
  ∃ l v,
    (get_reviews_for_city "Pune"
       (@submit_review marker_codec 9 "Pune" 4 "t" "x" (Some [xff; x01])
          (Some ""%string) None).2).1 = inr l
    ∧ v ∈ l
    ∧ @show_photo _ marker_streamlit v
      = @photo _ marker_streamlit [xff; x01] "Review Photo".
Proof.
  destruct (@stored_photo_is_displayed _ marker_streamlit 9 "Pune" 4 "t" "x"
              (Some [xff; x01]) (Some ""%string) None)
    as (l & v & Hl & Hv & _ & Hp & _ & Hshow).
  - intros b0 img img' b Hopen [= <-] [= <-]. simpl in *.
    destruct b0 as [|[] b0]; simplify_eq. by eexists.
  - lia.
  - vm_compute. discriminate.
  - exists l, v. split; [exact Hl|]. split; [exact Hv|].
    destruct (Hshow [xff; x01] Hp) as (img & Hopen & -> & _).
    simpl in Hopen. by injection Hopen as <-.
Defined.

(** ** One run of the Reviews tab *)

Lemma rating_data_ok (S : gmap Z Z) (ks : list Z) :
  Forall (λ k, is_Some (S !! k)) ks →
  rating_data S ks = inr ((λ k, (k, default 0 (S !! k))) <$> ks).
Proof.
  induction 1 as [|k ks [v Hv] _ IH]; simpl; [done|].
  unfold Py.getitem. by rewrite Hv, IH.
Qed.

Lemma list_find_first {A} (P : A → Prop) `{∀ x, Decision (P x)}
    (l : list A) (v : A) :
  v ∈ l → P v →
  ∃ n v0, list_find P l = Some (n, v0) ∧ v0 ∈ l ∧ P v0.
Proof.
  intros Hv HP.
  destruct (list_find P l) as [[n v0]|] eqn:Hfind.
  - apply list_find_Some in Hfind as (Hn & HP0 & _).
    exists n, v0. split; [done|]. split; [|done].
    by eapply list_elem_of_lookup_2.
  - eapply list_find_None, Forall_forall in Hfind; [|exact Hv]. done.
Qed.

(** The loop over the cards when no delete raises: it stops at the first
    card whose heading cannot be built or whose button was clicked. *)
Lemma render_cards_eq `{Streamlit} `{Memory} (shown : list review)
    (clicked : option string) (d : database) :
  Forall (λ v, fits_integer (d_id v)) shown →
  render_cards shown clicked d
  = match list_find (λ v, ¬ d_rating v ≤ max_str_len
                          ∨ clicked = Some (delete_key v)) shown with
    | Some (n, v) =>
        if decide (d_rating v ≤ max_str_len)
        then (inr (render <$> take (S n) shown, [],
                   deleted_and_rerun (d_id v)),
              (delete_review (d_id v) d).2)
        else (inl star_string_raised, d)
    | None => (inr (render <$> shown, [], all_rendered), d)
    end.
Proof.
  induction 1 as [|v shown Hv _ IH]; [done|].
  cbn [render_cards list_find].
  destruct (decide (d_rating v ≤ max_str_len)) as [Hok|Hok].
  - destruct (decide (clicked = Some (delete_key v))) as [Hc|Hc].
    + rewrite decide_True by (by right). cbn [fmap option_fmap option_map].
      rewrite decide_True by done.
      rewrite delete_review_eq, decide_True by done. done.
    + rewrite decide_False by tauto. rewrite IH.
      destruct (list_find _ shown) as [[n v']|]; [|done].
      cbn [fmap option_fmap option_map prod_map fst snd].
      unfold Datatypes.id.
      by destruct (decide (d_rating v' ≤ max_str_len)).
  - rewrite decide_True by (by left). cbn [fmap option_fmap option_map].
    by rewrite decide_False by done.
Qed.

(** The loop over the cards when no button was clicked. *)
Lemma render_cards_no_click `{Streamlit} `{Memory} (shown : list review)
    (d : database) :
  render_cards shown None d
  = if decide (Forall (λ v, d_rating v ≤ max_str_len) shown)
    then (inr (render <$> shown, [], all_rendered), d)
    else (inl star_string_raised, d).
Proof.
  induction shown as [|v shown IH]; [done|].
  cbn [render_cards].
  destruct (decide (d_rating v ≤ max_str_len)) as [Hok|Hok].
  - rewrite decide_False by done. rewrite IH.
    destruct (decide (Forall _ shown)) as [Hall|Hall].
    + by rewrite decide_True by by constructor.
    + rewrite decide_False; [done|]. by intros [_ ?]%Forall_cons.
  - rewrite decide_False; [done|]. by intros [? _]%Forall_cons.
Qed.

(** The store after the loop: the rows of another city are not touched. *)
Lemma render_cards_other_city `{Streamlit} `{Memory} (c' : string)
    (shown : list review) (clicked : option string) : ∀ d : database,
  (∀ v r, v ∈ shown → r ∈ rows_of d → id r = d_id v → Sqlite.city r ≠ c') →
  where_city c' (rows_of (render_cards shown clicked d).2)
  = where_city c' (rows_of d).
Proof.
  induction shown as [|v shown IH]; intros d Hown; [done|].
  cbn [render_cards].
  assert (∀ d0, rows_of d0 = rows_of d →
            where_city c' (rows_of (render_cards shown clicked d0).2)
            = where_city c' (rows_of d)) as Hrest.
  { intros d0 Hd0. rewrite IH; [by rewrite Hd0|].
    intros v' r Hv' Hr. rewrite Hd0 in Hr. apply Hown; [by right|done]. }
  destruct (decide (d_rating v ≤ max_str_len)); [|done].
  destruct (decide (clicked = Some (delete_key v))).
  - rewrite delete_review_eq.
    destruct (decide (fits_integer (d_id v))).
    + cbn [snd rows_of from_option rows]. rewrite where_city_filter.
      apply filter_all, Forall_forall.
      intros r [Hc Hr]%list_elem_of_filter Hid.
      by apply (Hown v r); [left|..].
    + specialize (Hrest (initialized d) (rows_of_initialized d)).
      by destruct (render_cards shown clicked (initialized d))
        as [[err|[[cs es] fin]] d''].
    - specialize (Hrest d eq_refl).
      by destruct (render_cards shown clicked d) as [[err|[[cs es] fin]] d''].
Qed.

(** The seq counter is not touched by the loop. *)
Lemma render_cards_seq `{Streamlit} `{Memory} (shown : list review)
    (clicked : option string) : ∀ d : database,
  seq_of (render_cards shown clicked d).2 = seq_of d.
Proof.
  induction shown as [|v shown IH]; intros d; [done|].
  cbn [render_cards].
  destruct (decide (d_rating v ≤ max_str_len)); [|done].
  destruct (decide (clicked = Some (delete_key v))).
  - rewrite delete_review_eq.
    destruct (decide (fits_integer (d_id v))); [done|].
    specialize (IH (initialized d)). rewrite seq_of_initialized in IH.
    by destruct (render_cards shown clicked (initialized d))
      as [[err|[[cs es] fin]] d''].
  - specialize (IH d).
    by destruct (render_cards shown clicked d) as [[err|[[cs es] fin]] d''].
Qed.

Lemma reviews_section_unfold `{Streamlit} `{Memory} (city : string) (k : Z)
    (clicked : option string) (d : database) :
  let l := review_of_row
             <$> order_by_desc created_at (where_city city (rows_of d)) in
  let shown := filtered_reviews k l in
  reviews_section city k clicked d
  = match shown with
    | [] =>
        (inr (SectionView
                match l with
                | [] => no_reviews_yet
                | _ => no_reviews_with_stars k
                end [] [] all_rendered),
         initialized d)
    | _ =>
        match render_cards shown clicked (initialized d) with
        | (inr (cs, es, fin), d') =>
            (inr (SectionView reviews_shown cs es fin), d')
        | (inl err, d') => (inl err, d')
        end
    end.
Proof.
  intros l shown. unfold reviews_section.
  rewrite get_reviews_for_city_eq. fold l. subst shown. clearbody l.
  destruct l as [|v0 l0].
  { unfold filtered_reviews. by case_decide. }
  by destruct (filtered_reviews k (v0 :: l0)) as [|v1 shown1].
Qed.

Lemma fits_listed (city : string) (k : Z) (d : database) :
  Forall (λ r, fits_integer (id r)) (rows_of d) →
  Forall (λ v, fits_integer (d_id v))
    (filtered_reviews k
       (review_of_row
          <$> order_by_desc created_at (where_city city (rows_of d)))).
Proof.
  intros Hfit. apply Forall_forall. intros v Hv.
  apply (λ H, elem_of_sublist _ _ _ H (filtered_reviews_sublist _ _)) in Hv.
  apply list_elem_of_fmap in Hv as (r & -> & Hr).
  rewrite order_by_desc_perm in Hr.
  apply list_elem_of_filter in Hr as [_ Hr].
  rewrite Forall_forall in Hfit. by apply Hfit.
Qed.

Lemma reviews_section_eq `{Streamlit} `{Memory} (city : string) (k : Z)
    (clicked : option string) (d : database) :
  Forall (λ r, fits_integer (id r)) (rows_of d) →
  let l := review_of_row
             <$> order_by_desc created_at (where_city city (rows_of d)) in
  let shown := filtered_reviews k l in
  reviews_section city k clicked d
  = match list_find (λ v, ¬ d_rating v ≤ max_str_len
                          ∨ clicked = Some (delete_key v)) shown with
    | Some (n, v) =>
        if decide (d_rating v ≤ max_str_len)
        then
          (inr (SectionView reviews_shown (render <$> take (S n) shown) []
                  (deleted_and_rerun (d_id v))),
           Some (Table (filter (λ r, id r ≠ d_id v) (rows_of d)) (seq_of d)))
        else (inl star_string_raised, initialized d)
    | None =>
        (inr (SectionView
                match l with
                | [] => no_reviews_yet
                | _ => match shown with
                       | [] => no_reviews_with_stars k
                       | _ => reviews_shown
                       end
                end (render <$> shown) [] all_rendered),
         initialized d)
    end.
Proof.
  intros Hfit l shown. rewrite reviews_section_unfold. cbv zeta.
  fold l. fold shown.
  pose proof (fits_listed city k d Hfit) as Hids. fold l shown in Hids.
  assert (l = [] → shown = []) as Hnil.
  { intros Hl. subst shown. rewrite Hl. unfold filtered_reviews.
    by case_decide. }
  clearbody shown. clearbody l.
  destruct shown as [|v1 shown1]; [by destruct l|].
  rewrite render_cards_eq by done.
  destruct (list_find _ (v1 :: shown1)) as [[n v']|] eqn:Hfind.
  - destruct (decide (d_rating v' ≤ max_str_len)); [|done].
    rewrite delete_review_eq, decide_True.
    + by rewrite rows_of_initialized, seq_of_initialized.
    + apply list_find_Some in Hfind as (Hv'%list_elem_of_lookup_2 & _).
      rewrite Forall_forall in Hids. by apply Hids.
  - destruct l; [by specialize (Hnil eq_refl)|done].
Qed.

Lemma reviews_tab_eq `{Streamlit} `{Memory} (now : Z) (stamp city : string)
    (f : review_form) (k : Z) (clicked : option string) (d : database) :
  let rs := where_city city (rows_of d) in
  let T := Z.of_nat (length rs) in
  let A := if decide (0 < T)
           then Py.round_double
                  (inject_Z (sum_ratings (filter in_range rs)) / inject_Z T)
           else 0%Q in
  let fb := review_form_block now stamp city f (initialized d) in
  reviews_tab now stamp city f k clicked d
  = match fb.1 with
    | inl e => (inl e, fb.2)
    | inr msgs =>
        match reviews_section city k clicked fb.2 with
        | (inr view, d') =>
            (inr (TabView A T
                    ((λ k, (k, count_rating k rs)) <$> rating_options)
                    msgs view), d')
        | (inl e, d') => (inl e, d')
        end
    end.
Proof.
  intros rs T A fb. unfold reviews_tab, mbind, M_bind.
  rewrite init_reviews_db_eq.
  pose proof (get_city_rating_summary_eq city (initialized d)) as Heq.
  cbv zeta in Heq. rewrite rows_of_initialized, initialized_idemp in Heq.
  rewrite Heq. fold rs. fold T. fold A.
  rewrite rating_data_ok.
  - fold fb. destruct fb as [[e|msgs] d1]; [done|].
    unfold rating_options. cbn [fmap list_fmap fst snd].
    rewrite !summary_five_keys by lia. done.
  - apply Forall_forall. intros k' Hk'%in_rating_options.
    rewrite summary_five_keys by done. eauto.
Qed.

Lemma review_form_block_rows `{Streamlit} now stamp city f d :
  let v := Z.max (seq_of d) (max_rowid (rows_of d)) in
  let accepted :=
    preview (choose_photo stamp f).1.1 && submit_button f
    && negb (Str.blank (review_title f))
    && negb (Str.blank (form_text f))
    && bool_decide (fits_integer (star_rating f) ∧ v < MAX_ROWID) in
  rows_of (review_form_block now stamp city f d).2
  = rows_of d
    ++ (if accepted
        then [Row (v + 1) city (star_rating f) (review_title f) (form_text f)
                (process_photo (choose_photo stamp f).1.1).1
                (choose_photo stamp f).1.2 now]
        else []).
Proof.
  intros v accepted. subst accepted. rewrite review_form_block_state.
  destruct (preview (choose_photo stamp f).1.1 && submit_button f
            && negb (Str.blank (review_title f))
            && negb (Str.blank (form_text f))); simpl.
  - rewrite add_review_rows. cbv zeta. fold v.
    destruct (decide (fits_integer (star_rating f) ∧ v < MAX_ROWID)).
    + by rewrite bool_decide_eq_true_2.
    + by rewrite bool_decide_eq_false_2.
  - by rewrite app_nil_r.
Qed.

Lemma review_form_block_seq `{Streamlit} now stamp city f d :
  submit_button f = false →
  (review_form_block now stamp city f d).2 = d.
Proof.
  intros Hsub. rewrite review_form_block_state.
  by rewrite Hsub, andb_false_r.
Qed.

Lemma wf_review_form_block `{Streamlit} now stamp city f d :
  wf d → wf (review_form_block now stamp city f d).2.
Proof.
  intros Hwf. rewrite review_form_block_state.
  destruct (_ && _); [|done].
  apply (wf_after (AddReview (Submission now city (star_rating f)
                                (review_title f) (form_text f) _ _)) d Hwf).
Qed.

Lemma fits_review_form_block `{Streamlit} now stamp city f d :
  Forall (λ r, fits_integer (id r)) (rows_of d) →
  Forall (λ r, fits_integer (id r))
    (rows_of (review_form_block now stamp city f d).2).
Proof.
  intros Hfit. rewrite review_form_block_rows. cbv zeta.
  apply Forall_app. split; [done|].
  destruct (_ && _) eqn:Hacc; [|constructor].
  apply andb_prop in Hacc as [_ [_ Hv]%bool_decide_eq_true].
  apply Forall_singleton. simpl.
  pose proof (max_rowid_nonneg (rows_of d)).
  unfold fits_integer, MAX_ROWID in *. lia.
Qed.

(** X12: a run of the Reviews tab can end early in two places only, both
    not guarded: the preview of the chosen photo, before anything is
    stored, and the heading of a card, when the star string of a review of
    the city cannot be built.  No exception of the store or of the summary
    escapes: the table is created when it is missing, the five bars of the
    distribution are always there, a store that refuses the review is
    reported by the form, and no delete fails (the ids of the rows being
    integers that SQLite holds).  When the ratings of the city's reviews
    and of the form have star strings that can be built, as the ratings
    1..5 have, the run completes. *)
Theorem reviews_tab_raises_in_the_preview_or_the_stars `{Streamlit}
    `{Memory} (now : Z) (stamp city : string) (f : review_form) (k : Z)
    (clicked : option string) (d : database) :
  Forall (λ r, - 2 ^ 63 ≤ id r ≤ 2 ^ 63 - 1) (rows_of d) →
  let run := reviews_tab now stamp city f k clicked d in
  if preview (choose_photo stamp f).1.1
  then
    ((∃ view,
        run.1 = inr view
        ∧ is_Some run.2
        ∧ (distribution view).*1 = rating_options
        ∧ delete_errors (reviews_view view) = [])
     ∨ (run.1 = inl star_string_raised
        ∧ ∃ r, r ∈ rows_of run.2 ∧ Sqlite.city r = city
               ∧ max_str_len < rating r))
    ∧ ((∀ r, r ∈ rows_of d → Sqlite.city r = city → rating r ≤ max_str_len) →
       star_rating f ≤ max_str_len →
       ∃ view, run.1 = inr view)
  else run = (inl st_image_raised, initialized d).
Proof.
  intros Hfit run. subst run. rewrite reviews_tab_eq. cbv zeta.
  rewrite review_form_block_raises.
  destruct (preview (choose_photo stamp f).1.1) eqn:Hprev.
  2:{ rewrite review_form_block_state, Hprev. done. }
  set (d1 := (review_form_block now stamp city f (initialized d)).2).
  assert (Forall (λ r, fits_integer (id r)) (rows_of d1)) as Hfit1.
  { apply fits_review_form_block. by rewrite rows_of_initialized. }
  pose proof (reviews_section_eq city k clicked d1 Hfit1) as Hs.
  cbv zeta in Hs. rewrite Hs. clear Hs.
  set (shown := filtered_reviews k
                  (review_of_row
                     <$> order_by_desc created_at
                           (where_city city (rows_of d1)))).
  assert (∀ v, v ∈ shown →
            ∃ r, r ∈ rows_of d1 ∧ Sqlite.city r = city ∧ rating r = d_rating v)
    as Hshown.
  { intros v Hv.
    apply (λ H, elem_of_sublist _ _ _ H (filtered_reviews_sublist _ _)) in Hv.
    apply list_elem_of_fmap in Hv as (r & -> & Hr).
    rewrite order_by_desc_perm in Hr.
    apply list_elem_of_filter in Hr as [Hc Hr]. by exists r. }
  split.
  - destruct (list_find _ shown) as [[n v]|] eqn:Hfind.
    + destruct (decide (d_rating v ≤ max_str_len)) as [Hok|Hok].
      * left. eexists. split; [done|]. split; [by eexists|]. by split.
      * right. split; [done|].
        apply list_find_Some in Hfind as (Hv%list_elem_of_lookup_2 & _).
        destruct (Hshown v Hv) as (r & Hr & Hc & Hrt).
        exists r. cbn [snd]. rewrite rows_of_initialized.
        split; [done|]. split; [done|]. lia.
    + left. eexists. split; [done|]. split; [by eexists|]. by split.
  - intros Hrows Hform.
    destruct (list_find _ shown) as [[n v]|] eqn:Hfind; [|by eexists].
    rewrite decide_True; [by eexists|].
    apply list_find_Some in Hfind as (Hv%list_elem_of_lookup_2 & _).
    destruct (Hshown v Hv) as (r & Hr & Hc & <-).
    unfold d1 in Hr. rewrite review_form_block_rows in Hr. cbv zeta in Hr.
    rewrite rows_of_initialized in Hr.
    apply elem_of_app in Hr as [Hr|Hr]; [by apply Hrows|].
    destruct (_ && _); [|by apply elem_of_nil in Hr].
    by apply list_elem_of_singleton in Hr as ->.
Qed.

Lemma reviews_tab_raises_in_the_preview_or_the_stars_witness :
  let d : database :=
    Some (Table [Row 1 "Pune" 5 "a" "x" None None 3;
                 Row 2 "Pune" (2 ^ 63 - 1) "b" "y" None None 4] 2) in
  let f := ReviewForm "" 5 "" None None false in
  (@reviews_tab _ marker_streamlit small_memory 9 "s" "Pune" f 0 None d).1
  = inl star_string_raised
  ∧ ∃ view,
      (@reviews_tab _ marker_streamlit small_memory 9 "s" "Pune" f 5 None
         d).1 = inr view.
Proof.
  intros d f.
  pose proof (@reviews_tab_raises_in_the_preview_or_the_stars _
                marker_streamlit small_memory 9 "s" "Pune" f 0 None d) as H0.
  pose proof (@reviews_tab_raises_in_the_preview_or_the_stars _
                marker_streamlit small_memory 9 "s" "Pune" f 5 None d) as H5.
  cbv zeta in H0, H5.
  assert (Forall (λ r, - 2 ^ 63 ≤ id r ≤ 2 ^ 63 - 1) (rows_of d)) as Hfit.
  { repeat constructor; simpl; lia. }
  specialize (H0 Hfit). specialize (H5 Hfit).
  change (@preview _ marker_streamlit (choose_photo "s" f).1.1) with true
    in H0, H5.
  destruct H0 as [[(view & Hrun & _)|[Hrun _]] _]; [|split; [exact Hrun|]].
  - exfalso. revert Hrun. vm_compute. discriminate.
  - destruct H5 as [[(view & Hrun5 & _)|[Hrun5 _]] _].
    + by exists view.
    + exfalso. revert Hrun5. vm_compute. discriminate.
Defined.

(** X13: the header of the tab is computed before the form is handled and
    the list after it.  With the filter on "all" and no delete button
    clicked (and star strings that can be built for the ratings of the
    city and of the form), the number of cards is the total of the header,
    plus one in the run in which the form stores a review; in every other
    run the rows of the store are left as they were. *)
Theorem header_is_computed_before_the_form `{Streamlit} `{Memory} (now : Z)
    (stamp city : string) (f : review_form) (d : database) :
  preview (choose_photo stamp f).1.1 = true →
  (∀ r, r ∈ rows_of d → Sqlite.city r = city → rating r ≤ max_str_len) →
  star_rating f ≤ max_str_len →
  let stored : bool :=
    submit_button f && negb (Str.blank (review_title f))
    && negb (Str.blank (form_text f))
    && bool_decide
         (- 2 ^ 63 ≤ star_rating f ≤ 2 ^ 63 - 1
          ∧ Z.max (seq_of d) (max_rowid (rows_of d)) < 2 ^ 63 - 1) in
  ∃ view d',
    reviews_tab now stamp city f 0 None d = (inr view, d')
    ∧ total_reviews view
      = Z.of_nat (length (filter (λ r, Sqlite.city r = city) (rows_of d)))
    ∧ Z.of_nat (length (cards (reviews_view view)))
      = total_reviews view + (if stored then 1 else 0)
    ∧ Z.of_nat (length (cards (reviews_view view)))
      = Z.of_nat (length (filter (λ r, Sqlite.city r = city) (rows_of d')))
    ∧ (stored = false → rows_of d' = rows_of d).
Proof.
  intros Hprev Hrows Hform stored. rewrite reviews_tab_eq. cbv zeta.
  rewrite review_form_block_raises, Hprev.
  set (d1 := (review_form_block now stamp city f (initialized d)).2).
  pose proof (review_form_block_rows now stamp city f (initialized d))
    as Hd1.
  cbv zeta in Hd1. rewrite rows_of_initialized, seq_of_initialized in Hd1.
  rewrite Hprev in Hd1. simpl andb in Hd1.
  change (bool_decide (fits_integer (star_rating f)
                       ∧ Z.max (seq_of d) (max_rowid (rows_of d)) < MAX_ROWID))
    with (bool_decide
            (- 2 ^ 63 ≤ star_rating f ≤ 2 ^ 63 - 1
             ∧ Z.max (seq_of d) (max_rowid (rows_of d)) < 2 ^ 63 - 1))
    in Hd1.
  fold stored in Hd1. fold d1 in Hd1.
  rewrite reviews_section_unfold. cbv zeta.
  unfold filtered_reviews. rewrite decide_True by done.
  set (l := review_of_row
              <$> order_by_desc created_at (where_city city (rows_of d1))).
  assert (Forall (λ v, d_rating v ≤ max_str_len) l) as Hall.
  { apply Forall_forall. intros v (r & -> & Hr)%list_elem_of_fmap.
    rewrite order_by_desc_perm in Hr.
    apply list_elem_of_filter in Hr as [Hc Hr]. simpl.
    rewrite Hd1 in Hr. apply elem_of_app in Hr as [Hr|Hr]; [by apply Hrows|].
    destruct stored; [|by apply elem_of_nil in Hr].
    by apply list_elem_of_singleton in Hr as ->. }
  assert (length l = length (where_city city (rows_of d1))) as Hlen.
  { unfold l. by rewrite length_fmap, order_by_desc_length. }
  assert (length (where_city city (rows_of d1))
          = (length (where_city city (rows_of d))
             + (if stored then 1 else 0))%nat) as Hlen1.
  { rewrite Hd1. unfold where_city. rewrite filter_app, length_app.
    destruct stored; [|done].
    by rewrite filter_cons, decide_True by done. }
  fold (where_city city (rows_of d)).
  destruct l as [|v0 l0] eqn:El.
  - eexists _, _. split; [done|]. split; [done|].
    cbn [cards reviews_view total_reviews length].
    rewrite rows_of_initialized. fold (where_city city (rows_of d1)).
    simpl in Hlen. split; [|split].
    + destruct stored; lia.
    + lia.
    + intros ->. rewrite Hd1. by rewrite app_nil_r.
  - rewrite render_cards_no_click, decide_True by done.
    eexists _, _. split; [done|]. split; [done|].
    cbn [cards reviews_view total_reviews].
    rewrite rows_of_initialized. fold (where_city city (rows_of d1)).
    rewrite length_fmap. split; [|split].
    + destruct stored; lia.
    + lia.
    + intros ->. rewrite Hd1. by rewrite app_nil_r.
Qed.

Lemma header_is_computed_before_the_form_witness :
  let d : database := Some (Table [Row 1 "Pune" 5 "a" "x" None None 3] 1) in
  ∃ view d',
    @reviews_tab _ marker_streamlit small_memory 9 "s" "Pune"
      (ReviewForm "New" 3 "text" None None true) 0 None d = (inr view, d')
    ∧ total_reviews view = 1
    ∧ Z.of_nat (length (cards (reviews_view view))) = 2.
Proof.
  intros d.
  destruct (@header_is_computed_before_the_form _ marker_streamlit
              small_memory 9 "s" "Pune"
              (ReviewForm "New" 3 "text" None None true) d)
    as (view & d' & Hrun & Htotal & Hcards & _).
  - reflexivity.
  - intros r Hr _. apply list_elem_of_In in Hr. simpl in Hr.
    destruct Hr as [<-|[]]. vm_compute. discriminate.
  - vm_compute. discriminate.
  - exists view, d'. split; [exact Hrun|]. split; [exact Htotal|].
    rewrite Hcards, Htotal. reflexivity.
Defined.

Lemma reviews_section_other_city `{Streamlit} `{Memory} (city c' : string)
    (k : Z) (clicked : option string) (d : database) :
  wf d → c' ≠ city →
  where_city c' (rows_of (reviews_section city k clicked d).2)
  = where_city c' (rows_of d).
Proof.
  intros [Hnd _] Hc'. rewrite reviews_section_unfold. cbv zeta.
  set (shown := filtered_reviews k _).
  assert (∀ v r, v ∈ shown → r ∈ rows_of (initialized d) → id r = d_id v →
            Sqlite.city r ≠ c') as Hown.
  { intros v r Hv Hr Hid. rewrite rows_of_initialized in Hr.
    apply (λ H, elem_of_sublist _ _ _ H (filtered_reviews_sublist _ _)) in Hv.
    apply list_elem_of_fmap in Hv as (r' & -> & Hr').
    rewrite order_by_desc_perm in Hr'.
    apply list_elem_of_filter in Hr' as [Hcity' Hr'].
    assert (r = r') as -> by by eapply unique_row.
    congruence. }
  pose proof (render_cards_other_city c' shown clicked (initialized d) Hown)
    as Hloop.
  rewrite rows_of_initialized in Hloop. clearbody shown.
  destruct shown as [|v1 shown1];
    [cbn [snd]; by rewrite rows_of_initialized|].
  by destruct (render_cards (v1 :: shown1) clicked (initialized d))
    as [[err|[[cs es] fin]] d''].
Qed.

(** X14: a run of the tab of one city changes neither the list nor the
    summary of any other city, whatever is submitted and whichever delete
    button is clicked. *)
Theorem tab_leaves_other_cities_alone `{Streamlit} `{Memory} (now : Z)
    (stamp city : string) (f : review_form) (k : Z) (clicked : option string)
    (c' : string) (d : database) :
  wf d → c' ≠ city →
  let d' := (reviews_tab now stamp city f k clicked d).2 in
  (get_reviews_for_city c' d').1 = (get_reviews_for_city c' d).1
  ∧ (get_city_rating_summary c' d').1 = (get_city_rating_summary c' d).1.
Proof.
  intros Hwf Hc' d'. subst d'. rewrite reviews_tab_eq. cbv zeta.
  set (d1 := (review_form_block now stamp city f (initialized d)).2).
  assert (wf d1) as Hwf1
    by by apply wf_review_form_block, wf_initialized.
  assert (where_city c' (rows_of d1) = where_city c' (rows_of d)) as Hd1.
  { unfold d1. rewrite review_form_block_rows. cbv zeta.
    rewrite rows_of_initialized. destruct (_ && _); [|by rewrite app_nil_r].
    by apply where_city_snoc_other. }
  apply reads_depend_on_city_rows.
  destruct (review_form_block now stamp city f (initialized d)).1
    as [e|msgs]; [done|].
  pose proof (reviews_section_other_city city c' k clicked d1 Hwf1 Hc')
    as Hs.
  rewrite <- Hd1, <- Hs.
  by destruct (reviews_section city k clicked d1) as [[err|view] d2].
Qed.

Lemma tab_leaves_other_cities_alone_witness :
  let d : database :=
    Some (Table [Row 1 "Pune" 5 "a" "x" None None 3;
                 Row 2 "Goa" 4 "b" "y" None None 4] 2) in
  (get_reviews_for_city "Goa"
     (@reviews_tab _ marker_streamlit small_memory 9 "s" "Pune"
        (ReviewForm "New" 3 "text" None None true) 0
        (Some "delete_1"%string) d).2).1
  = inr [Review 2 4 "b" "y" None None 4].
Proof.
  intros d.
  destruct (@tab_leaves_other_cities_alone _ marker_streamlit small_memory
              9 "s" "Pune" (ReviewForm "New" 3 "text" None None true) 0
              (Some "delete_1"%string) "Goa" d)
    as [Hl _].
  - apply (bool_decide_unpack _). by vm_compute.
  - discriminate.
  - rewrite Hl. reflexivity.
Defined.

(** X15: in a run in which the form is not submitted and its preview goes
    through, on a store whose ids are integers that SQLite holds: when the
    star strings of the reviews shown can be built, clicking the delete
    button of a review shown deletes the review with that id and no other
    row, then reruns the script, and a click whose key belongs to no review
    shown deletes nothing.  A review whose own star string cannot be built
    cannot be deleted: the run raises at the heading of a card, before the
    button of that review is reached, and no row is deleted. *)
Theorem delete_button_deletes_its_review `{Streamlit} `{Memory} (now : Z)
    (stamp city : string) (f : review_form) (k : Z) (key : string)
    (d : database) :
  Forall (λ r, - 2 ^ 63 ≤ id r ≤ 2 ^ 63 - 1) (rows_of d) →
  preview (choose_photo stamp f).1.1 = true →
  submit_button f = false →
  let run := reviews_tab now stamp city f k (Some key) d in
  ∃ l,
    (get_reviews_for_city city d).1 = inr l
    ∧ seq_of run.2 = seq_of d
    ∧ (Forall (λ v, d_rating v ≤ max_str_len) (filtered_reviews k l) →
       (∀ v, v ∈ filtered_reviews k l → key = delete_key v →
          ∃ view,
            run.1 = inr view
            ∧ ended (reviews_view view) = deleted_and_rerun (d_id v)
            ∧ rows_of run.2 = filter (λ r, id r ≠ d_id v) (rows_of d))
       ∧ ((∀ v, v ∈ filtered_reviews k l → key ≠ delete_key v) →
          ∃ view,
            run.1 = inr view
            ∧ ended (reviews_view view) = all_rendered
            ∧ rows_of run.2 = rows_of d))
    ∧ (wf d →
       ∀ v, v ∈ filtered_reviews k l → key = delete_key v →
            max_str_len < d_rating v →
            run.1 = inl star_string_raised ∧ rows_of run.2 = rows_of d).
Proof.
  intros Hfit Hprev Hsub run. subst run.
  rewrite get_reviews_for_city_eq, reviews_tab_eq.
  cbv zeta. rewrite review_form_block_raises, Hprev.
  rewrite review_form_block_seq by done.
  assert (Forall (λ r, fits_integer (id r)) (rows_of (initialized d)))
    as Hfit1 by by rewrite rows_of_initialized.
  pose proof (reviews_section_eq city k (Some key) (initialized d) Hfit1)
    as Hs.
  cbv zeta in Hs. rewrite rows_of_initialized, seq_of_initialized in Hs.
  rewrite Hs. clear Hs.
  set (shown := filtered_reviews k
                  (review_of_row
                     <$> order_by_desc created_at
                           (where_city city (rows_of d)))).
  eexists. split; [done|]. cbn [fst]. fold shown.
  destruct (list_find _ shown) as [[n v']|] eqn:Hfind.
  - apply list_find_Some in Hfind as (Hv'%list_elem_of_lookup_2 & HP & Hmin).
    destruct (decide (d_rating v' ≤ max_str_len)) as [Hok|Hok].
    + destruct HP as [?|[= ->]]; [done|].
      split; [done|]. split; [|].
      * intros _. split.
        -- intros v Hv Hkey. apply delete_key_inj in Hkey.
           eexists. split; [done|]. split; [by rewrite Hkey|].
           cbn [snd rows_of from_option rows]. by rewrite Hkey.
        -- intros Hnone. by destruct (Hnone v' Hv').
      * intros Hwf v Hv Hkey Hbig. apply delete_key_inj in Hkey.
        assert (v = v') as ->; [|lia].
        apply (λ H, elem_of_sublist _ _ _ H (filtered_reviews_sublist _ _))
          in Hv, Hv'.
        apply list_elem_of_fmap in Hv as (r & -> & Hr).
        apply list_elem_of_fmap in Hv' as (r' & -> & Hr').
        rewrite order_by_desc_perm in Hr, Hr'.
        apply list_elem_of_filter in Hr as [_ Hr].
        apply list_elem_of_filter in Hr' as [_ Hr'].
        destruct Hwf as [Hnd _]. f_equal. by eapply unique_row.
    + cbn [fst snd].
      rewrite ?initialized_idemp, ?seq_of_initialized, ?rows_of_initialized.
      split; [done|]. split.
      * intros Hall. rewrite Forall_forall in Hall.
        by destruct Hok; apply Hall.
      * done.
  - eapply list_find_None in Hfind. rewrite Forall_forall in Hfind.
    cbn [fst snd].
    rewrite ?initialized_idemp, ?seq_of_initialized, ?rows_of_initialized.
    split; [done|]. split.
    + intros _. split.
      * intros v Hv ->. destruct (Hfind v Hv). by right.
      * intros _. eexists. done.
    + intros _ v Hv -> Hbig. destruct (Hfind v Hv). by right.
Qed.

Lemma delete_button_deletes_its_review_witness :
  let d : database :=
    Some (Table [Row 1 "Pune" 5 "a" "x" None None 3;
                 Row 2 "Pune" 4 "b" "y" None None 4] 2) in
  ∃ view,
    (@reviews_tab _ marker_streamlit small_memory 9 "s" "Pune"
       (ReviewForm "" 5 "" None None false) 0 (Some "delete_2"%string) d).1
    = inr view
    ∧ rows_of
        (@reviews_tab _ marker_streamlit small_memory 9 "s" "Pune"
           (ReviewForm "" 5 "" None None false) 0 (Some "delete_2"%string)
           d).2
      = [Row 1 "Pune" 5 "a" "x" None None 3].
Proof.
  intros d.
  destruct (@delete_button_deletes_its_review _ marker_streamlit small_memory
              9 "s" "Pune" (ReviewForm "" 5 "" None None false) 0 "delete_2"
              d)
    as (l & Hl & _ & Hdel & _).
  - repeat constructor; simpl; lia.
  - reflexivity.
  - reflexivity.
  - assert (l = [Review 2 4 "b" "y" None None 4;
                 Review 1 5 "a" "x" None None 3]) as ->.
    { assert ((get_reviews_for_city "Pune" d).1
              = inr [Review 2 4 "b" "y" None None 4;
                     Review 1 5 "a" "x" None None 3]) as Hl0 by reflexivity.
      rewrite Hl in Hl0. by injection Hl0. }
    destruct Hdel as [Hdel _].
    { repeat constructor; vm_compute; discriminate. }
    destruct (Hdel (Review 2 4 "b" "y" None None 4))
      as (view & Hrun & _ & Hrows).
    + apply list_elem_of_In. simpl. auto.
    + reflexivity.
    + exists view. split; [exact Hrun|]. rewrite Hrows. reflexivity.
Defined.

(** ** The photo that the form stores *)

(** The sizes that [Image.thumbnail((800, 800))] can give. *)
Lemma thumbnail_size_800 (w h w' h' : Z) :
  0 < w → 0 < h →
  thumbnail_size max_size (w, h) (w', h') = true →
  1 ≤ w' ≤ 800 ∧ 1 ≤ h' ≤ 800
  ∧ w' ≤ w ∧ h' ≤ h
  ∧ (w ≤ 800 → h ≤ 800 → w' = w ∧ h' = h)
  ∧ (800 < w ∨ 800 < h →
     Z.max w' h' = 800 ∧ Z.abs (w' * h - h' * w) < Z.max w h).
Proof.
  intros Hw Hh. unfold thumbnail_size, max_size, scaled_side, ceil_div.
  destruct (decide (w ≤ 800 ∧ h ≤ 800)) as [Hfit|Hbig].
  { intros [-> ->]%bool_decide_eq_true. lia. }
  assert (∀ a b n, 0 < a → 0 < b →
            n = Z.max (a / b) 1 ∨ n = Z.max (- (- a / b)) 1 →
            1 ≤ n ∧ Z.abs (n * b - a) < b ∧ b * n < a + b ∨ (n = 1 ∧ a < b))
    as Hside.
  { intros a b n Ha Hb Hn.
    pose proof (Z.div_mod a b ltac:(lia)) as Hq.
    pose proof (Z.mod_pos_bound a b Hb) as Hr.
    pose proof (Z.div_mod (- a) b ltac:(lia)) as Hq'.
    pose proof (Z.mod_pos_bound (- a) b Hb) as Hr'.
    destruct Hn as [->| ->].
    - destruct (decide (1 ≤ a / b)).
      + left. rewrite Z.max_l by done. nia.
      + right. assert (a / b = 0) as Hz by nia. rewrite Hz in *. lia.
    - assert (1 ≤ - (- a / b)) by nia.
      left. rewrite Z.max_l by done. nia. }
  destruct (decide (w * 800 ≤ 800 * h)) as [Htall|Hwide].
  - intros [->%bool_decide_eq_true Hn%bool_decide_eq_true]%andb_prop.
    destruct (Hside (800 * w) h w' ltac:(lia) Hh Hn)
      as [(H1 & Habs & Hup)|[-> Hsmall]]; nia.
  - intros [->%bool_decide_eq_true Hn%bool_decide_eq_true]%andb_prop.
    destruct (Hside (800 * h) w h' ltac:(lia) Hw Hn)
      as [(H1 & Habs & Hup)|[-> Hsmall]]; nia.
Qed.

(** C7 (code bug): what the submit branch makes of a photo that the
    library opens.  It stores what [save(format='JPEG', quality=85)] writes
    of the thumbnail for the box (800, 800), made with LANCZOS, and it
    stores a photo exactly when these two calls return.  A photo that is
    stored opens again with the size that the claim gives: both sides are
    at most 800, neither side is larger than in the source, an image that
    fits the box keeps its size, and a larger one gets a longer side of 800
    with the other side within one pixel of the exact ratio.  But a photo
    is not stored for every image that opens: when the mode of the image is
    none that JPEG takes (a PNG with transparency, a GIF), [save] raises,
    the form warns and stores the review without a photo. *)
Theorem photo_is_normalized_or_dropped `{Streamlit} `{!PillowDoc}
    (b : bytes) (img : image) :
  Image_open b = Some img →
  0 < (Image_size img).1 → 0 < (Image_size img).2 →
  let w := (Image_size img).1 in
  let h := (Image_size img).2 in
  (process_photo (Some b)).1
  = (img' ← thumbnail (800, 800) LANCZOS img; save_jpeg 85 img')
  ∧ (∀ saved,
       (process_photo (Some b)).1 = Some saved →
       process_photo (Some b) = (Some saved, [])
       ∧ Image_mode img ∈ jpeg_modes
       ∧ ∃ stored,
           Image_open saved = Some stored
           ∧ let w' := (Image_size stored).1 in
             let h' := (Image_size stored).2 in
             1 ≤ w' ≤ 800 ∧ 1 ≤ h' ≤ 800
             ∧ w' ≤ w ∧ h' ≤ h
             ∧ (w ≤ 800 → h ≤ 800 → w' = w ∧ h' = h)
             ∧ (800 < w ∨ 800 < h →
                Z.max w' h' = 800
                ∧ Z.abs (w' * h - h' * w) < Z.max w h))
  ∧ (Image_mode img ∉ jpeg_modes →
     process_photo (Some b) = (None, [could_not_process_image])
     ∧ ∀ now stamp city f d,
         (choose_photo stamp f).1.1 = Some b →
         preview (Some b) = true →
         submit_button f = true →
         Str.blank (review_title f) = false →
         Str.blank (form_text f) = false →
         - 2 ^ 63 ≤ star_rating f ≤ 2 ^ 63 - 1 →
         Z.max (seq_of d) (max_rowid (rows_of d)) < 2 ^ 63 - 1 →
         rows_of (review_form_block now stamp city f d).2
         = rows_of d
           ++ [Row (Z.max (seq_of d) (max_rowid (rows_of d)) + 1) city
                 (star_rating f) (review_title f) (form_text f) None
                 (choose_photo stamp f).1.2 now]).
Proof.
  intros Hopen Hw Hh w h.
  assert ((process_photo (Some b))
          = match img' ← thumbnail (800, 800) LANCZOS img;
                  save_jpeg 85 img' with
            | Some saved => (Some saved, [])
            | None => (None, [could_not_process_image])
            end) as Hprocess.
  { unfold process_photo. by rewrite Hopen. }
  split; [|split].
  - rewrite Hprocess. by destruct (_ ≫= _).
  - intros saved Hphoto. rewrite Hprocess in Hphoto |- *.
    destruct (thumbnail (800, 800) LANCZOS img) as [img'|] eqn:Hthumb;
      [|done].
    cbn [mbind option_bind] in Hphoto |- *.
    destruct (save_jpeg 85 img') as [saved'|] eqn:Hsave; [|done].
    injection Hphoto as ->. split; [done|].
    destruct (thumbnail_doc _ _ _ Hthumb) as [Hsize Hmode].
    destruct (save_jpeg_doc _ _ _ Hsave) as (Hin & stored & Hstored & Hsame).
    split; [by rewrite <- Hmode|].
    exists stored. split; [done|]. cbv zeta. rewrite Hsame.
    apply thumbnail_size_800; [done|done|].
    subst w h. by destruct (Image_size img), (Image_size img').
  - intros Hmode.
    assert (process_photo (Some b) = (None, [could_not_process_image]))
      as Hnone.
    { rewrite Hprocess.
      destruct (thumbnail (800, 800) LANCZOS img) as [img'|] eqn:Hthumb;
        [|done].
      cbn [mbind option_bind].
      destruct (save_jpeg 85 img') as [saved'|] eqn:Hsave; [|done].
      destruct (thumbnail_doc _ _ _ Hthumb) as [_ Hsame].
      destruct (save_jpeg_doc _ _ _ Hsave) as [Hin _].
      rewrite Hsame in Hin. done. }
    split; [done|].
    intros now stamp city f d Hchosen Hprev Hsub Ht Hx Hr Hid.
    rewrite review_form_block_rows. cbv zeta.
    rewrite Hchosen, Hprev, Hsub, Ht, Hx, Hnone.
    by rewrite bool_decide_eq_true_2.
Qed.

Lemma photo_is_normalized_or_dropped_witness :
  (@process_photo sized_codec (Some [xff; x04; xb0; x03; x84])).1
  = Some [xff; x03; x20; x02; x58]
  ∧ @process_photo sized_codec (Some [x89; x04; xb0; x03; x84])
    = (None, [could_not_process_image]).
Proof.
  split.
  - destruct (@photo_is_normalized_or_dropped _ sized_streamlit
                sized_codec_doc [xff; x04; xb0; x03; x84]
                (Picture "RGB" (1200, 900)))
      as (Hstored & _ & _); [reflexivity|reflexivity|reflexivity|].
    rewrite Hstored. reflexivity.
  - destruct (@photo_is_normalized_or_dropped _ sized_streamlit
                sized_codec_doc [x89; x04; xb0; x03; x84]
                (Picture "RGBA" (1200, 900)))
      as (_ & _ & Hdropped); [reflexivity|reflexivity|reflexivity|].
    apply Hdropped.
    apply (bool_decide_unpack _). vm_compute. reflexivity.
Defined.

(** ** The bars of the rating distribution *)

Lemma five_counts_total (rs : list review_row) :
  count_rating 5 rs + (count_rating 4 rs + (count_rating 3 rs
  + (count_rating 2 rs + (count_rating 1 rs + 0))))
  = Z.of_nat (length (filter in_range rs)).
Proof.
  induction rs as [|r rs IH]; [done|].
  rewrite !count_rating_cons, filter_cons.
  destruct (decide (in_range r)) as [Hr|Hr]; unfold in_range in Hr;
    simpl length; repeat case_decide; lia.
Qed.

Lemma length_filter_complement (rs : list review_row) :
  length rs
  = (length (filter in_range rs) + length (filter (λ r, ¬ in_range r) rs))%nat.
Proof.
  induction rs as [|r rs IH]; [done|].
  rewrite !filter_cons.
  destruct (decide (in_range r)).
  - rewrite decide_False by tauto. simpl. lia.
  - rewrite decide_True by done. simpl. lia.
Qed.

(** X16: the five bars of the rating distribution, from five stars down to
    one, are always available (no missing key), each bar is the number of
    the city's reviews with that rating, and the bars add up to the total
    of the header less the number of reviews whose rating is outside 1..5:
    to the total itself exactly when there is no such review. *)
Theorem distribution_bars_add_up (c : string) (d : database) :
  let rs := where_city c (rows_of d) in
  ∃ S A T bars,
    (get_city_rating_summary c d).1 = inr (S, A, T)
    ∧ rating_data S rating_options = inr bars
    ∧ bars = (λ k, (k, count_rating k rs)) <$> rating_options
    ∧ foldr Z.add 0 bars.*2
      = T - Z.of_nat (length (filter (λ r, ¬ in_range r) rs))
    ∧ (foldr Z.add 0 bars.*2 = T ↔ Forall in_range rs).
Proof.
  intros rs.
  pose proof (get_city_rating_summary_eq c d) as Heq. cbv zeta in Heq.
  fold rs in Heq. rewrite Heq. eexists _, _, _, _. split; [done|].
  rewrite rating_data_ok.
  2:{ apply Forall_forall. intros k Hk%in_rating_options.
      rewrite summary_five_keys by done. eauto. }
  unfold rating_options. cbn [fmap list_fmap].
  rewrite !summary_five_keys by lia.
  split; [done|]. split; [done|].
  cbn [fmap list_fmap snd foldr]. cbv [from_option Datatypes.id].
  rewrite five_counts_total.
  pose proof (length_filter_complement rs) as Hlen.
  split; [lia|]. split.
  - intros Hsum. apply Forall_forall. intros r Hr.
    destruct (decide (in_range r)) as [|Hout]; [done|].
    assert (r ∈ filter (λ r, ¬ in_range r) rs) as Hin
      by by apply list_elem_of_filter.
    destruct (filter (λ r, ¬ in_range r) rs); [by apply elem_of_nil in Hin|].
    simpl in Hlen. lia.
  - intros Hall. by rewrite (filter_all in_range rs Hall).
Qed.

(** * Properties of the tourist recommendations and of the Tourist Info tab *)

Section tourist.
Import Json Tourist TouristTab.

(** ** The network monad *)

Lemma Web_bind_Some {A B} (m : Web A) (f : A → Web B) w y w' :
  (m ≫= f) w = (Some y, w') ↔
  ∃ x w1, m w = (Some x, w1) ∧ f x w1 = (Some y, w').
Proof.
  unfold mbind, Web_bind. destruct (m w) as [[x|] w1]; split.
  - intros E. by exists x, w1.
  - by intros (? & ? & [= -> ->] & E).
  - done.
  - by intros (? & ? & [=] & _).
Qed.

Lemma Web_bind_None {A B} (m : Web A) (f : A → Web B) w w' :
  (m ≫= f) w = (None, w') ↔
  m w = (None, w') ∨ ∃ x w1, m w = (Some x, w1) ∧ f x w1 = (None, w').
Proof.
  unfold mbind, Web_bind. destruct (m w) as [[x|] w1]; split.
  - intros E. right. by exists x, w1.
  - intros [[=]|(? & ? & [= -> ->] & E)]; done.
  - intros [= ->]. by left.
  - intros [[= ->]|(? & ? & [=] & _)]; done.
Qed.

Lemma lift_Some {A} (r : option A) w x w' :
  lift r w = (Some x, w') ↔ r = Some x ∧ w' = w.
Proof. unfold lift. split; [by intros [= -> ->]|by intros [-> ->]]. Qed.

Lemma read_result_location r :
  location r = (λ '(_, _, _, _, la, ln), (la, ln)) <$> read_result r.
Proof.
  destruct r as [| | | | |m]; try done.
  unfold read_result, location; simpl.
  destruct (m !! "place_id"), (m !! "name"), (m !! "formatted_address"),
    (m !! "rating"); simpl;
    (destruct (m !! "geometry") as [[| | | | |g]|]; simpl; try done;
     destruct (g !! "location") as [[| | | | |l]|]; simpl; try done;
     destruct (l !! "lat"), (l !! "lng"); done).
Qed.

Lemma read_result_details_id r :
  details_id r = (λ '(pid, _, _, _, _, _), pid) <$> read_result r.
Proof.
  destruct r as [| | | | |m]; try done.
  unfold details_id, location, read_result; simpl.
  destruct (m !! "place_id"), (m !! "name"), (m !! "formatted_address"),
    (m !! "rating"); simpl;
    (destruct (m !! "geometry") as [[| | | | |g]|]; simpl; try done;
     destruct (g !! "location") as [[| | | | |l]|]; simpl; try done;
     destruct (l !! "lat"), (l !! "lng"); done).
Qed.

Lemma get_json_sent r w : sent (get_json r w).2 = sent w ++ [r].
Proof. unfold get_json. by destruct (pending w). Qed.

Lemma get_json_Some r w x w1 :
  get_json r w = (Some x, w1) →
  ∃ rest, pending w = Some x :: rest ∧ w1 = Net rest (sent w ++ [r]).
Proof.
  unfold get_json. destruct (pending w) as [|a rest]; [done|].
  intros [= -> <-]. by exists rest.
Qed.

Lemma visit_returns results : ∀ acc w ps w',
  visit results acc w = (Some ps, w') →
  ∃ new, ps = acc ++ new ∧
    (λ p, (lat p, lng p)) <$> new = omap location results ∧
    sent w' = sent w ++ (place_details <$> omap details_id results).
Proof.
  induction results as [|r rest IH]; intros acc w ps w' H.
  - injection H as <- <-. exists []. by rewrite !app_nil_r.
  - cbn [visit] in H. cbn [omap list_omap].
    rewrite read_result_location, read_result_details_id.
    destruct (read_result r) as [[[[[[pid n] ad] rt] la] ln]|]; cbn [fmap option_fmap option_map].
    + apply Web_bind_Some in H as (dr & w1 & Hdr & H).
      apply Web_bind_Some in H as (details & ? & [Hd ->]%lift_Some & H).
      apply Web_bind_Some in H as (ws & ? & [Hw ->]%lift_Some & H).
      apply Web_bind_Some in H as (ph & ? & [Hp ->]%lift_Some & H).
      apply Web_bind_Some in H as (hours & ? & [Hh ->]%lift_Some & H).
      apply Web_bind_Some in H as (wt & ? & [Ht ->]%lift_Some & H).
      apply IH in H as (new & -> & Hloc & Hsent).
      eexists (_ :: new). split; [by rewrite <-app_assoc|]. split.
      * cbn [fmap list_fmap]. by rewrite <-Hloc.
      * rewrite Hsent. apply get_json_Some in Hdr as (? & _ & ->).
        cbn [sent fmap list_fmap]. by rewrite <-app_assoc.
    + by apply IH.
Qed.

Lemma visit_sent results : ∀ acc w,
  ∃ k, sent (visit results acc w).2
       = sent w ++ (place_details <$> take k (omap details_id results)).
Proof.
  induction results as [|r rest IH]; intros acc w.
  - exists 0%nat. by rewrite app_nil_r.
  - cbn [visit omap list_omap]. rewrite read_result_details_id.
    destruct (read_result r) as [[[[[[pid n] ad] rt] la] ln]|]; cbn [fmap option_fmap option_map]; [|done].
    unfold mbind at 1, Web_bind at 1.
    pose proof (get_json_sent (place_details pid) w) as Hs.
    destruct (get_json (place_details pid) w) as [[dr|] w1]; cbn [snd] in *.
    2:{ exists 1%nat. by rewrite Hs. }
    assert (∀ (A : Type) (o : option A) (f : A → Web (list place)),
      (∀ x, ∃ k, sent (f x w1).2 = sent w ++ (place_details <$> take k (pid :: omap details_id rest))) →
      ∃ k, sent ((lift o ≫= f) w1).2 = sent w ++ (place_details <$> take k (pid :: omap details_id rest))) as step.
    { intros A [x|] f Hf; unfold mbind, Web_bind, lift; [apply Hf|].
      exists 1%nat. cbn [snd]. by rewrite Hs. }
    do 5 (apply step; intros ?).
    match goal with
    | |- ∃ k, sent (visit rest ?a w1).2 = _ => destruct (IH a w1) as [k Hk]
    end.
    exists (S k). rewrite Hk, Hs, <-app_assoc. done.
Qed.

Lemma differs_from_str_true v s : differs_from_str v s = true ↔ v ≠ str s.
Proof.
  destruct v; simpl; try (split; [discriminate|done]).
  rewrite bool_decide_eq_true. split; congruence.
Qed.

Lemma differs_from_str_false v s : differs_from_str v s = false ↔ v = str s.
Proof.
  destruct v; simpl; try (split; discriminate).
  rewrite bool_decide_eq_false. split.
  - intros H. f_equal. by destruct (decide (s0 = s)).
  - intros [= ->]. tauto.
Qed.

Lemma length_list_omap {A B} (f : A → option B) (l : list A) :
  (length (omap f l) ≤ length l)%nat.
Proof.
  induction l as [|x l IH]; cbn [omap list_omap length]; [lia|].
  destruct (f x); cbn [length]; lia.
Qed.

Lemma searches_details ids : searches (place_details <$> ids) = [].
Proof. by induction ids. Qed.

Lemma first_ten_length v batch :
  first_ten v = Some batch → (length batch ≤ 10)%nat.
Proof.
  destruct v; try done; intros [= <-];
    rewrite ?length_fmap, length_take; lia.
Qed.

Lemma fetch_places_Some q w ps status err w' :
  fetch_places q w = (Some (ps, status, err), w') →
  ∃ m rest, pending w = Some (object m) :: rest ∧
    status = default null (m !! "status") ∧
    err = default null (m !! "error_message") ∧
    ((status ≠ str "OK" ∧ ps = [] ∧ w' = Net rest (sent w ++ [text_search q]))
     ∨ (status = str "OK" ∧
        ∃ batch, first_ten (default (array []) (m !! "results")) = Some batch ∧
          (λ p, (lat p, lng p)) <$> ps = omap location batch ∧
          sent w' = sent w ++ text_search q
                    :: (place_details <$> omap details_id batch))).
Proof.
  unfold fetch_places. intros H.
  apply Web_bind_Some in H as (data & w1 & Hdata & H).
  apply get_json_Some in Hdata as (rest & Hp & ->).
  apply Web_bind_Some in H as (st & ? & [Hst ->]%lift_Some & H).
  apply Web_bind_Some in H as (em & ? & [Hem ->]%lift_Some & H).
  destruct data as [| | | | |m]; try done.
  exists m, rest. split; [done|].
  assert (st = default null (m !! "status")) as Est.
  { simpl in Hst. destruct (m !! "status"); by injection Hst. }
  assert (em = default null (m !! "error_message")) as Eem.
  { simpl in Hem. destruct (m !! "error_message"); by injection Hem. }
  destruct (differs_from_str st "OK") eqn:Hd.
  - injection H as <- <- <- <-. apply differs_from_str_true in Hd.
    rewrite <-Est. split_and!; try done. by left.
  - assert (st = str "OK") as Hok.
    { by apply differs_from_str_false. }
    apply Web_bind_Some in H as (results & ? & [Hr ->]%lift_Some & H).
    apply Web_bind_Some in H as (batch & ? & [Hb ->]%lift_Some & H).
    apply Web_bind_Some in H as (places & w2 & Hv & H).
    injection H as <- <- <- <-.
    rewrite <-Est. split_and!; try done. right. split; [done|].
    exists batch. split.
    { simpl in Hr. destruct (m !! "results"); injection Hr as <-; done. }
    apply visit_returns in Hv as (new & -> & Hloc & Hsent).
    split; [done|]. rewrite Hsent. cbn [sent]. by rewrite <-app_assoc.
Qed.

Lemma fetch_places_sent q w :
  ∃ ids, sent (fetch_places q w).2
         = sent w ++ text_search q :: (place_details <$> ids) ∧
    (length ids ≤ 10)%nat ∧
    (∀ status err w', fetch_places q w = (Some ([], status, err), w') →
       ids = []).
Proof.
  destruct (fetch_places q w) as [[[[ps status] err]|] w'] eqn:E.
  - apply fetch_places_Some in E
      as (m & rest & Hp & -> & -> & [(_ & -> & ->)|(_ & batch & Hb & Hloc & Hs)]).
    + exists []. split_and!; [done|simpl; lia|done].
    + exists (omap details_id batch). split_and!; [done| |].
      * apply first_ten_length in Hb. pose proof (length_list_omap details_id batch). lia.
      * intros ??? Heq. injection Heq as -> _ _ _. cbn [fmap list_fmap] in Hloc.
        symmetry in Hloc. clear Hs Hb. induction batch as [|r batch IH]; [done|].
        cbn [omap list_omap] in *.
        destruct (location r) eqn:El; [done|].
        replace (details_id r) with (@None json); [by apply IH|].
        unfold details_id. destruct r; try done. by rewrite El.
  - unfold fetch_places in E.
    unfold mbind at 1, Web_bind at 1 in E.
    pose proof (get_json_sent (text_search q) w) as Hs.
    destruct (get_json (text_search q) w) as [[data|] w1]; cbn [snd] in Hs.
    2:{ injection E as <-. exists []. cbn [snd].
        split_and!; [by rewrite Hs|simpl; lia|done]. }
    unfold mbind at 1, Web_bind at 1, lift at 1 in E.
    destruct (get data "status" null) as [st|].
    2:{ injection E as <-. exists []. cbn [snd].
        split_and!; [by rewrite Hs|simpl; lia|done]. }
    unfold mbind at 1, Web_bind at 1, lift at 1 in E.
    destruct (get data "error_message" null) as [em|].
    2:{ injection E as <-. exists []. cbn [snd].
        split_and!; [by rewrite Hs|simpl; lia|done]. }
    destruct (differs_from_str st "OK"); [done|].
    unfold mbind at 1, Web_bind at 1, lift at 1 in E.
    destruct (get data "results" (array [])) as [results|].
    2:{ injection E as <-. exists []. cbn [snd].
        split_and!; [by rewrite Hs|simpl; lia|done]. }
    unfold mbind at 1, Web_bind at 1, lift at 1 in E.
    destruct (first_ten results) as [batch|] eqn:Hb.
    2:{ injection E as <-. exists []. cbn [snd].
        split_and!; [by rewrite Hs|simpl; lia|done]. }
    unfold mbind at 1, Web_bind at 1 in E.
    destruct (visit_sent batch [] w1) as [k Hk].
    destruct (visit batch [] w1) as [[ps|] w2]; [done|].
    injection E as <-. cbn [snd] in *.
    exists (take k (omap details_id batch)). split_and!; [|  |done].
    + by rewrite Hk, Hs, <-app_assoc.
    + rewrite length_take. apply first_ten_length in Hb.
      pose proof (length_list_omap details_id batch). lia.
Qed.

Lemma searches_cons_search q reqs :
  searches (text_search q :: reqs) = q :: searches reqs.
Proof. done. Qed.

Lemma search_sent qs : ∀ last w,
  ∃ reqs, sent (search qs last w).2 = sent w ++ reqs ∧
    searches reqs `prefix_of` qs ∧
    (length reqs ≤ length qs + 10)%nat.
Proof.
  induction qs as [|q rest IH]; intros last w.
  - exists []. rewrite app_nil_r. split_and!; [done|done|simpl; lia].
  - cbn [search]. unfold mbind, Web_bind.
    destruct (fetch_places_sent q w) as (ids & Hs & Hlen & Hnil).
    assert (searches (text_search q :: (place_details <$> ids))
              `prefix_of` q :: rest) as Hpre.
    { rewrite searches_cons_search, searches_details.
      apply prefix_cons, prefix_nil. }
    destruct (fetch_places q w) as [[[[ps st] er]|] w1] eqn:E; cbn [snd] in Hs.
    + destruct ps as [|p ps].
      * rewrite (Hnil _ _ _ eq_refl) in Hs.
        destruct (IH (Some (st, er)) w1) as (reqs & Hr & Hp & Hl).
        exists (text_search q :: reqs). rewrite Hr, Hs, <-app_assoc.
        split_and!; [done| |simpl; lia].
        rewrite searches_cons_search. by apply prefix_cons.
      * exists (text_search q :: (place_details <$> ids)).
        split_and!; [done|done|]. simpl. rewrite length_fmap. lia.
    + exists (text_search q :: (place_details <$> ids)).
      split_and!; [done|done|]. simpl. rewrite length_fmap. lia.
Qed.

Lemma search_Some_nil qs : ∀ last w l w',
  search qs last w = (Some ([], l), w') → qs ≠ [] → is_Some l.
Proof.
  induction qs as [|q rest IH]; intros last w l w' H Hne; [done|].
  cbn [search] in H.
  apply Web_bind_Some in H as ([[ps st] er] & w1 & _ & H).
  destruct ps; [|done].
  destruct rest as [|q' rest]; [by injection H as <- _|].
  by apply IH in H.
Qed.

Lemma unique_values_Some : ∀ l seen l',
  unique_values seen l = Some l' →
  l' `sublist_of` l ∧
  NoDup (entry_key <$> l') ∧
  (∀ p k, p ∈ l' → entry_key p = Some k → k ∉ seen) ∧
  (∀ p, p ∈ l → ∃ k, entry_key p = Some k ∧
     (k ∈ seen ∨ ∃ p', p' ∈ l' ∧ entry_key p' = Some k)) ∧
  (∀ l1 p l2 k, l = l1 ++ p :: l2 → entry_key p = Some k → k ∉ seen →
     entry_key p ∉ entry_key <$> l1 → p ∈ l').
Proof.
  induction l as [|p rest IH]; intros seen l' H.
  - injection H as <-. split_and!.
    + done.
    + constructor.
    + intros ?? Hin. by apply elem_of_nil in Hin.
    + intros ? Hin. by apply elem_of_nil in Hin.
    + intros [|??] ??? Heq; discriminate Heq.
  - cbn [unique_values] in H.
    destruct (entry_key p) as [key|] eqn:Ek; [|done]. cbn [mbind option_bind] in H.
    destruct (decide (key ∈ seen)) as [Hin|Hnin].
    + apply IH in H as (Hsub & Hnd & Hfresh & Hcov & Hfirst).
      split_and!.
      * by apply sublist_cons.
      * done.
      * done.
      * intros q [->|Hq]%elem_of_cons; [|by apply Hcov].
        exists key. split; [done|by left].
      * intros [|p0 l1] q l2 k Heq Hk Hks Hq.
        -- injection Heq as <- <-. congruence.
        -- injection Heq as <- ->. eapply Hfirst; [done..|].
           intros Hel. apply Hq. cbn [fmap list_fmap]. by apply elem_of_cons; right.
    + destruct (unique_values (key :: seen) rest) as [l''|] eqn:Eu; [|done].
      injection H as <-.
      apply IH in Eu as (Hsub & Hnd & Hfresh & Hcov & Hfirst).
      split_and!.
      * by apply sublist_skip.
      * cbn [fmap list_fmap]. constructor; [|done].
        rewrite Ek. intros (p' & Hp' & Hin')%list_elem_of_fmap.
        symmetry in Hp'. apply (Hfresh _ _ Hin') in Hp'.
        apply Hp'. by left.
      * intros q k [->|Hq]%elem_of_cons Hk.
        -- congruence.
        -- intros Hks. eapply Hfresh; [done..|]. by right.
      * intros q [->|Hq]%elem_of_cons.
        -- exists key. split; [done|]. right. exists p. split; [by left|done].
        -- destruct (Hcov q Hq) as (k & Hk & [[->|Hks]%elem_of_cons|(p' & Hp' & Hk')]).
           ++ exists key. split; [done|]. right. exists p. split; [by left|done].
           ++ exists k. split; [done|by left].
           ++ exists k. split; [done|]. right. exists p'. split; [by right|done].
      * intros [|p0 l1] q l2 k Heq Hk Hks Hq.
        -- injection Heq as <- <-. by left.
        -- injection Heq as <- ->. right. eapply Hfirst; [done|done| |].
           ++ intros [->|?]%elem_of_cons; [|done].
              apply Hq. cbn [fmap list_fmap]. rewrite Ek, Hk. by left.
           ++ intros Hel. apply Hq. cbn [fmap list_fmap]. by right.
Qed.

Lemma unique_values_is_Some : ∀ l seen,
  is_Some (unique_values seen l) ↔ Forall (λ p, is_Some (entry_key p)) l.
Proof.
  induction l as [|p rest IH]; intros seen.
  - split; [constructor|by eexists].
  - cbn [unique_values]. rewrite Forall_cons.
    destruct (entry_key p) as [key|]; cbn [mbind option_bind].
    + destruct (decide (key ∈ seen)).
      * rewrite IH. split; [by split|tauto].
      * rewrite fmap_is_Some, IH. split; [by split|tauto].
    + split; [by intros [? [=]]|by intros [[? [=]] _]].
Qed.

Lemma unique_values_head p l l' :
  unique_values [] (p :: l) = Some l' → ∃ l'', l' = p :: l''.
Proof.
  cbn [unique_values]. destruct (entry_key p) as [key|]; [|done].
  cbn [mbind option_bind]. destruct (decide (key ∈ [])) as [Hin|_].
  { by apply elem_of_nil in Hin. }
  destruct (unique_values [key] l) as [l''|]; [|done].
  intros [= <-]. by exists l''.
Qed.

Lemma length_details_id batch :
  length (omap details_id batch) = length (omap location batch).
Proof.
  induction batch as [|r batch IH]; [done|]. cbn [omap list_omap].
  assert (details_id r = None ∧ location r = None
          ∨ is_Some (details_id r) ∧ is_Some (location r)) as Hr.
  { unfold details_id. destruct r; try (by left).
    destruct (location _); [right|left]; by eauto. }
  destruct Hr as [[-> ->]|[[? ->] [? ->]]]; [done|].
  cbn [length]. by rewrite IH.
Qed.

Lemma fetch_places_not_OK q w m rest :
  pending w = Some (object m) :: rest →
  m !! "status" ≠ Some (str "OK") →
  fetch_places q w
  = (Some ([], default null (m !! "status"),
           default null (m !! "error_message")),
     Net rest (sent w ++ [text_search q])).
Proof.
  intros Hp Hst. unfold fetch_places, mbind, Web_bind, get_json. rewrite Hp.
  unfold lift, get.
  assert (differs_from_str (default null (m !! "status")) "OK" = true) as Hd.
  { apply differs_from_str_true. destruct (m !! "status"); [|done].
    simpl. congruence. }
  destruct (m !! "status"), (m !! "error_message"); simpl in *;
    by rewrite ?Hd.
Qed.

Lemma search_all_empty qs : ∀ ms last w rest,
  length ms = length qs →
  Forall (λ m, m !! "status" ≠ Some (str "OK")) ms →
  pending w = (Some ∘ object <$> ms) ++ rest →
  search qs last w
  = (Some ([], from_option
                 (λ m, Some (default null (m !! "status"),
                             default null (m !! "error_message")))
                 last (list.last ms)),
     Net rest (sent w ++ (text_search <$> qs))).
Proof.
  induction qs as [|q qs IH]; intros [|m ms] l w rest Hlen Hall Hp; try done.
  - destruct w as [p s]. simpl in *. by rewrite Hp, app_nil_r.
  - apply Forall_cons in Hall as [Hm Hall].
    cbn [search]. unfold mbind, Web_bind.
    rewrite (fetch_places_not_OK q w m ((Some ∘ object <$> ms) ++ rest)); [|done..].
    rewrite (IH ms _ _ rest); [|by injection Hlen|done|done].
    cbn [sent fmap list_fmap]. rewrite <-app_assoc. cbn [app].
    rewrite last_cons. by destruct (last ms).
Qed.

(** X17: when [fetch_places] returns, it returns at most ten places; it
    returns places only with the status "OK"; and it has sent the text
    search followed by one details request for each place returned, and
    nothing else. *)
Theorem fetch_places_returns_at_most_ten (q : string) (w w' : net)
    (ps : list place) (status err : json) :
  fetch_places q w = (Some (ps, status, err), w') →
  (length ps ≤ 10)%nat
  ∧ (ps ≠ [] → status = str "OK")
  ∧ ∃ ids, length ids = length ps
      ∧ sent w' = sent w ++ text_search q :: (place_details <$> ids).
Proof.
  intros (m & rest & _ & _ & _ & [(_ & -> & ->)|(-> & batch & Hb & Hloc & Hs)])
    %fetch_places_Some.
  - split_and!; [simpl; lia|done|]. by exists [].
  - assert (length ps = length (omap location batch)) as Hlen.
    { by rewrite <-Hloc, length_fmap. }
    split_and!; [|done|].
    + apply first_ten_length in Hb.
      pose proof (length_list_omap location batch). lia.
    + exists (omap details_id batch). by rewrite length_details_id.
Qed.

Lemma fetch_places_returns_at_most_ten_witness :
  let w := Net [Some (object (found_results
                        [result_at "a" 1 2; str "x"; result_at "b" 3 4]));
                Some (dict []); Some (dict [])] [] in
  ∃ ps status err w',
    fetch_places "q" w = (Some (ps, status, err), w')
    ∧ (length ps ≤ 10)%nat.
Proof.
  intros w.
  assert (∃ ps status err w', fetch_places "q" w = (Some (ps, status, err), w'))
    as (ps & status & err & w' & E)
    by (vm_compute; by eexists _, _, _, _).
  exists ps, status, err, w'. split; [exact E|].
  by destruct (fetch_places_returns_at_most_ten "q" w w' ps status err E).
Defined.

(** X18: when the text search answers "OK" with a list of results and
    [fetch_places] returns, the coordinates of the places returned are those
    of the results among the first ten that have a location, in the order of
    the answer: a result without [geometry.location.lat] and [.lng] is left
    out silently, and no result after the tenth is looked at. *)
Theorem fetch_places_keeps_the_located_results (q : string) (w w' : net)
    (m : gmap string json) (rest : list (option json)) (l : list json)
    (ps : list place) (status err : json) :
  pending w = Some (object m) :: rest →
  m !! "status" = Some (str "OK") →
  m !! "results" = Some (array l) →
  fetch_places q w = (Some (ps, status, err), w') →
  (λ p, (lat p, lng p)) <$> ps = omap location (take 10 l).
Proof.
  intros Hp Hst Hr
    (m' & rest' & Hp' & -> & _ & [(Hne & _)|(_ & batch & Hb & Hloc & _)])
    %fetch_places_Some;
    rewrite Hp in Hp'; injection Hp' as <- <-.
  - by rewrite Hst in Hne.
  - rewrite Hr in Hb. by injection Hb as <-.
Qed.

Lemma fetch_places_keeps_the_located_results_witness :
  let w := Net [Some (object (found_results
                        [result_at "a" 1 2; str "x"; result_at "b" 3 4]));
                Some (dict []); Some (dict [])] [] in
  ∃ ps status err w',
    fetch_places "q" w = (Some (ps, status, err), w')
    ∧ (λ p, (lat p, lng p)) <$> ps = [(int 1, int 2); (int 3, int 4)].
Proof.
  intros w.
  assert (∃ ps status err w', fetch_places "q" w = (Some (ps, status, err), w'))
    as (ps & status & err & w' & E)
    by (vm_compute; by eexists _, _, _, _).
  exists ps, status, err, w'. split; [exact E|].
  rewrite (fetch_places_keeps_the_located_results "q" w w'
             (found_results [result_at "a" 1 2; str "x"; result_at "b" 3 4])
             [Some (dict []); Some (dict [])]
             [result_at "a" 1 2; str "x"; result_at "b" 3 4]
             ps status err); [|reflexivity|reflexivity|reflexivity|exact E].
  vm_compute. reflexivity.
Defined.

Lemma get_recommendations_Some google_trends city w rec w' :
  get_recommendations google_trends city w = (Some rec, w') →
  ∃ e all_places,
    unique_values [] (e :: all_places) = Some (places rec)
    ∧ ((∃ status err, e = no_tourist_data city status err ∧ all_places = [])
       ∨ ∃ ps, e :: all_places = found <$> ps).
Proof.
  unfold get_recommendations. intros H.
  apply Web_bind_Some in H as ([points failed] & ? & [_ ->]%lift_Some & H).
  apply Web_bind_Some in H as ([ps last] & w1 & Hsearch & H).
  apply Web_bind_Some in H as (all_places & w2 & Hall & H).
  apply Web_bind_Some in H as (unique & ? & [Hu ->]%lift_Some & H).
  injection H as <- <-. cbn [places].
  destruct ps as [|p ps].
  - apply Web_bind_Some in Hall as ([st er] & ? & _ & Hall).
    injection Hall as <- <-. eexists _, _. split; [done|].
    left. by exists st, er.
  - injection Hall as <- <-. eexists _, _. split; [done|].
    right. by exists (p :: ps).
Qed.

(** X19: when [get_recommendations] returns, its ["places"] are never
    empty and no two of them have the same pair of [lat] and [lng]; they are
    either the one entry that says that no tourist data was found for the
    city, or places only. *)
Theorem get_recommendations_places
    (google_trends : option (list (string * Z) * bool)) (city : string)
    (w w' : net) (rec : recommendations) :
  get_recommendations google_trends city w = (Some rec, w') →
  places rec ≠ []
  ∧ NoDup (entry_key <$> places rec)
  ∧ ((∃ status err, places rec = [no_tourist_data city status err])
     ∨ Forall (λ e, ∃ p, e = found p) (places rec)).
Proof.
  intros (e & all_places & Hu & Hshape)%get_recommendations_Some.
  pose proof (unique_values_Some _ _ _ Hu) as (Hsub & Hnd & _).
  pose proof (unique_values_head _ _ _ Hu) as [l'' Hl].
  rewrite Hl in *. split_and!; [done|done|].
  destruct Hshape as [(st & er & -> & ->)|(ps & Hps)].
  - left. exists st, er.
    apply sublist_length in Hsub. by destruct l''.
  - right. apply Forall_forall. intros e' He.
    eapply elem_of_sublist in He; [|done]. rewrite Hps in He.
    apply list_elem_of_fmap in He as (p' & -> & _). by exists p'.
Qed.

Lemma get_recommendations_places_witness :
  let w := Net [Some (object (found_results
                        [result_at "a" 1 2; result_at "b" 1 2]));
                Some (dict []); Some (dict [])] [] in
  ∃ rec w',
    get_recommendations (Some ([], false)) "Pune" w = (Some rec, w')
    ∧ NoDup (entry_key <$> places rec).
Proof.
  intros w.
  assert (∃ rec w',
            get_recommendations (Some ([], false)) "Pune" w = (Some rec, w'))
    as (rec & w' & E) by (vm_compute; by eexists _, _).
  exists rec, w'. split; [exact E|].
  by destruct (get_recommendations_places _ "Pune" w w' rec E) as (_ & ? & _).
Defined.

(** X20: the removal of duplicates of [get_recommendations] keeps the
    entries in their order, keeps one entry for each pair of [lat] and [lng]
    that occurs, and the entry it keeps for a pair is the first one with
    that pair. *)
Theorem unique_values_keeps_the_first (l l' : list entry) :
  unique_values [] l = Some l' →
  l' `sublist_of` l
  ∧ NoDup (entry_key <$> l')
  ∧ (∀ p, p ∈ l → ∃ p', p' ∈ l' ∧ entry_key p' = entry_key p)
  ∧ (∀ l1 p l2, l = l1 ++ p :: l2 → entry_key p ∉ entry_key <$> l1 → p ∈ l').
Proof.
  intros Hu.
  pose proof (unique_values_Some _ _ _ Hu) as (Hsub & Hnd & _ & Hcov & Hfirst).
  split_and!; [done|done| |].
  - intros p Hp. destruct (Hcov p Hp) as (k & Hk & [Hin|(p' & Hp' & Hk')]).
    + by apply elem_of_nil in Hin.
    + exists p'. by rewrite Hk.
  - intros l1 p l2 -> Hp.
    destruct (Hcov p) as (k & Hk & _).
    { apply elem_of_app. right. by left. }
    eapply Hfirst; [done|done| |done]. apply not_elem_of_nil.
Qed.

Lemma unique_values_keeps_the_first_witness :
  let p (n : string) (la ln : Z) :=
    found (Place (str n) null null (int la) (int ln) null null null) in
  ∃ l', unique_values [] [p "a" 1 2; p "b" 1 2; p "c" 2 1] = Some l'
        ∧ p "a" 1 2 ∈ l'.
Proof.
  intros p.
  assert (∃ l', unique_values [] [p "a" 1 2; p "b" 1 2; p "c" 2 1] = Some l')
    as (l' & E) by (vm_compute; by eexists).
  exists l'. split; [exact E|].
  destruct (unique_values_keeps_the_first _ l' E) as (_ & _ & _ & Hfirst).
  apply (Hfirst [] _ [p "b" 1 2; p "c" 2 1]); [reflexivity|].
  apply not_elem_of_nil.
Defined.

(** X21: the removal of duplicates raises exactly when the [lat] or the
    [lng] of some entry is a list or a dict, wherever that entry stands, and
    even when there is no duplicate. *)
Theorem unique_values_raises_on_unhashable (l : list entry) :
  unique_values [] l = None ↔ ∃ p, p ∈ l ∧ entry_key p = None.
Proof.
  rewrite eq_None_not_Some, unique_values_is_Some.
  rewrite <-Exists_Forall_neg by (intros p; destruct (entry_key p); [left; by eexists|right; by intros [? [=]]]).
  rewrite Exists_exists. by setoid_rewrite eq_None_not_Some.
Qed.

(** X22: whatever the network answers and whether it returns or raises,
    [get_recommendations] sends at most fifteen requests, and the text
    searches among them are the first of its five queries, in their
    order. *)
Theorem get_recommendations_requests
    (google_trends : option (list (string * Z) * bool)) (city : string)
    (w : net) :
  ∃ reqs,
    sent (get_recommendations google_trends city w).2 = sent w ++ reqs
    ∧ (length reqs ≤ 15)%nat
    ∧ searches reqs `prefix_of` queries city.
Proof.
  unfold get_recommendations.
  unfold mbind at 1, Web_bind at 1, lift at 1.
  destruct google_trends as [[points failed]|].
  2:{ exists []. rewrite app_nil_r. split_and!; [done|simpl; lia|apply prefix_nil]. }
  unfold mbind at 1, Web_bind at 1.
  destruct (search_sent (queries city) None w) as (reqs & Hs & Hp & Hl).
  exists reqs. split_and!; [|by simpl in Hl|done].
  destruct (search (queries city) None w) as [[[ps last]|] w1]; [|done].
  cbn [snd] in Hs. rewrite <-Hs. clear.
  destruct ps as [|p ps].
  - destruct last as [[st er]|]; [|done].
    unfold mbind, Web_bind, lift, mret, Web_ret.
    by destruct (unique_values _ _).
  - unfold mbind, Web_bind, lift, mret, Web_ret.
    by destruct (unique_values _ _).
Qed.

(** X23: the Tourist Info tab either reports that no tourist data is
    available, which it does exactly when [get_recommendations] raised, or
    lists at least one place: its branch "No popular places returned" is
    never taken. *)
Theorem tourist_tab_never_reports_no_places
    (google_trends : option (list (string * Z) * bool)) (city : string)
    (w : net) :
  tourist_tab google_trends city w
    = (no_tourist_data_available, (get_recommendations google_trends city w).2)
    ∧ (get_recommendations google_trends city w).1 = None
  ∨ ∃ rec e es,
      (get_recommendations google_trends city w).1 = Some rec
      ∧ places rec = e :: es
      ∧ tourist_tab google_trends city w
        = (popular_places (show <$> e :: es),
           (get_recommendations google_trends city w).2).
Proof.
  unfold tourist_tab.
  destruct (get_recommendations google_trends city w) as [[rec|] w'] eqn:E.
  - right. apply get_recommendations_Some in E as (e & l & Hu & _).
    apply unique_values_head in Hu as [es Hes].
    exists rec, e, es. by rewrite Hes.
  - by left.
Qed.

(** X24: when Google Trends did not keep [get_recommendations] from going
    on and each of the five text searches is answered with a status other
    than "OK", [get_recommendations] returns the one entry with the status
    and the error message of the fifth answer, after five requests; and the
    Tourist Info tab shows that entry under "Popular Places" as a place
    named "Unnamed" with the address "Address not available", without rating
    and map: the status and the message are not shown. *)
Theorem no_places_found_is_shown_as_a_place (points : list (string * Z))
    (failed : bool) (city : string) (w : net) (ms : list (gmap string json))
    (m5 : gmap string json) (rest : list (option json)) :
  pending w = (Some ∘ object <$> ms) ++ rest →
  length ms = 5%nat →
  last ms = Some m5 →
  Forall (λ m, m !! "status" ≠ Some (str "OK")) ms →
  let w' := Net rest (sent w ++ (text_search <$> queries city)) in
  (∃ trends,
     get_recommendations (Some (points, failed)) city w
     = (Some (Recommendations trends
                [no_tourist_data city (default null (m5 !! "status"))
                   (default null (m5 !! "error_message"))]), w'))
  ∧ tourist_tab (Some (points, failed)) city w
    = (popular_places
         [PlaceCard (str "Unnamed") (str "Address not available") None None],
       w').
Proof.
  intros Hp Hlen Hlast Hall w'.
  assert (∃ trends,
     get_recommendations (Some (points, failed)) city w
     = (Some (Recommendations trends
                [no_tourist_data city (default null (m5 !! "status"))
                   (default null (m5 !! "error_message"))]), w')) as [t Ht].
  { unfold get_recommendations, mbind, Web_bind, lift at 1.
    rewrite (search_all_empty (queries city) ms None w rest Hlen Hall Hp).
    rewrite Hlast. by eexists. }
  split; [by exists t|]. unfold tourist_tab. by rewrite Ht.
Qed.

Lemma no_places_found_is_shown_as_a_place_witness :
  tourist_tab (Some ([], false)) "Pune"
    (Net (replicate 5 (Some (object zero_results))) [])
  = (popular_places
       [PlaceCard (str "Unnamed") (str "Address not available") None None],
     Net [] (text_search <$> queries "Pune")).
Proof.
  apply (no_places_found_is_shown_as_a_place [] false "Pune"
           (Net (replicate 5 (Some (object zero_results))) [])
           (replicate 5 zero_results) zero_results []).
  - reflexivity.
  - reflexivity.
  - reflexivity.
  - repeat constructor; vm_compute; discriminate.
Defined.

(** X25: the map preview of a place is shown exactly when its [lng] is
    truthy, and it is centred at ([lat], [lng]) when [lat] is truthy, but at
    ([lng], [lng]) when [lat] is falsy, as is the latitude 0; the entry that
    says that no data was found has no preview. *)
Theorem map_preview_takes_lng_for_a_falsy_lat (e : entry) :
  map_preview (show e)
  = match e with
    | found p =>
        if truthy (lng p)
        then Some (if truthy (lat p) then lat p else lng p, lng p)
        else None
    | no_tourist_data _ _ _ => None
    end.
Proof.
  destruct e as [p|]; [|done].
  unfold show, or_else; cbn.
  destruct (truthy (lat p)) eqn:Ela, (truthy (lng p)) eqn:Eln; cbn;
    rewrite ?Ela, ?Eln; done.
Qed.

(** X26: when the first text search answers "OK" and its first result has
    a location, but the details request for that result fails or is answered
    with something that is no dict, [get_recommendations] raises after these
    two requests, and the Tourist Info tab reports that no tourist data is
    available: the other results and the four other queries are not
    tried. *)
Theorem failed_details_request_loses_all_places (points : list (string * Z))
    (failed : bool) (city : string) (w : net) (m : gmap string json)
    (a : option json) (rest : list (option json)) (r : json) (l : list json)
    (c : json * json) :
  pending w = Some (object m) :: a :: rest →
  m !! "status" = Some (str "OK") →
  m !! "results" = Some (array (r :: l)) →
  location r = Some c →
  match a with Some (object _) => False | _ => True end →
  ∃ pid,
    let w' := Net rest (sent w ++ [text_search ("top attractions in " +:+ city);
                                   place_details pid]) in
    get_recommendations (Some (points, failed)) city w = (None, w')
    ∧ tourist_tab (Some (points, failed)) city w
      = (no_tourist_data_available, w').
Proof.
  intros Hp Hst Hr Hloc Ha.
  rewrite read_result_location in Hloc.
  destruct (read_result r) as [[[[[[pid n] ad] rt] la] ln]|] eqn:Er; [|done].
  exists pid. intros w'.
  assert (fetch_places ("top attractions in " +:+ city) w = (None, w')) as Hf.
  { unfold fetch_places, mbind, Web_bind, get_json at 1. rewrite Hp.
    unfold lift, get. rewrite Hst, Hr.
    assert (differs_from_str (str "OK") "OK" = false) as -> by done.
    destruct (m !! "error_message");
      cbn [first_ten take visit]; rewrite Er;
      unfold mbind, Web_bind, get_json; cbn [pending sent];
      rewrite <-app_assoc; by destruct a as [[]|]. }
  assert (get_recommendations (Some (points, failed)) city w = (None, w'))
    as Hg.
  { unfold get_recommendations, mbind at 1, Web_bind at 1, lift at 1.
    unfold mbind at 1, Web_bind at 1. unfold queries. cbn [search].
    unfold mbind at 1, Web_bind at 1. by rewrite Hf. }
  split; [done|]. unfold tourist_tab. by rewrite Hg.
Qed.

Lemma failed_details_request_loses_all_places_witness :
  let w := Net [Some (object (found_results
                        [result_at "a" 1 2; result_at "b" 3 4]));
                Some (str "Service Unavailable"); Some (dict [])] [] in
  (tourist_tab (Some ([], false)) "Pune" w).1 = no_tourist_data_available.
Proof.
  intros w.
  destruct (failed_details_request_loses_all_places [] false "Pune" w
              (found_results [result_at "a" 1 2; result_at "b" 3 4])
              (Some (str "Service Unavailable")) [Some (dict [])]
              (result_at "a" 1 2) [result_at "b" 3 4] (int 1, int 2))
    as (pid & _ & Htab).
  - reflexivity.
  - reflexivity.
  - reflexivity.
  - vm_compute. reflexivity.
  - exact I.
  - rewrite Htab. reflexivity.
Defined.

End tourist.
